(** * The star-registry ledger: [Block] and [Blockchain]

    A shallow embedding of [src/block.js] (which holds both the [Block]
    class and the [Blockchain] class) together with the parts of the
    JavaScript platform and of the three packages the two classes call:
    [crypto-js/sha256], [hex2ascii] and [bitcoinjs-message].

    Modelling conventions.
    - A JavaScript string is a sequence of code units; it is a Rocq
      [string], one character per code unit, so code units range over
      0..255.
    - A JavaScript number that the program only uses as an integer (a
      height, a clock reading, the result of [parseInt]) is a [Z];
      [NaN] is the extra value [None] of [option Z].  JavaScript is
      exact on integers below 2^53, which covers every clock reading,
      and rounding beyond it does not change the outcome of the one
      comparison the program makes, with 300.
    - A JSON value holds integers as its numbers, and an object is the
      list of its members in insertion order.
    - [null] and [undefined] are [None] at the places where the program
      can store them; an entry of [chain] is an [option Block] because
      [_addBlock] can push [undefined].
    - Every asynchronous method is run to completion: a method is a
      function from the state before the call to the state after it,
      the events it caused and the way its promise settled.  A promise
      whose asynchronous executor throws stays pending.
    - The clock is an input: each [new Date().getTime()] is a parameter.
    - The packages are not part of the repository.  [SHA256] is the
      algorithm the package implements, [hex2ascii] is what the package
      does on a string, and the signature verifier is a parameter. *)

From Stdlib Require Import ZArith List String Ascii Bool Lia.
From Stdlib Require Import DecimalString DecimalPos DecimalFacts.
Import ListNotations.

Local Open Scope string_scope.
Local Open Scope Z_scope.

(** ** JavaScript strings and numbers *)

Module Js.

(** [s.charCodeAt(i)] for the code unit [c] at index [i] of [s]. *)
Definition charCode (c : ascii) : Z := Z.of_nat (nat_of_ascii c).

(** [String.fromCharCode(n)] for a code from 0 to 255. *)
Definition fromCharCode (n : Z) : ascii := ascii_of_nat (Z.to_nat n).

(** [Number.prototype.toString] on an integer (decimal notation). *)
Definition toString (n : Z) : string :=
  NilZero.string_of_int (Z.to_int n).

(** [s.slice(0, -3)]: everything but the last three code units. *)
Fixpoint take (n : nat) (s : string) : string :=
  match n, s with
  | O, _ => EmptyString
  | S _, EmptyString => EmptyString
  | S k, String c r => String c (take k r)
  end.

Definition slice_0_minus3 (s : string) : string :=
  take (String.length s - 3) s.

(** [s.split(':')]: the fields between the separators, at least one. *)
Fixpoint split (sep : ascii) (s : string) : list string :=
  match s with
  | EmptyString => [EmptyString]
  | String c r =>
      if Ascii.eqb c sep then EmptyString :: split sep r
      else match split sep r with
           | f :: fs => String c f :: fs
           | [] => [String c EmptyString]
           end
  end.

(** [a[i]] on an array of strings: [undefined] out of range. *)
Definition index (a : list string) (i : nat) : option string :=
  nth_error a i.

(** White space skipped by [parseInt], among the code units 0..255:
    TAB, LF, VT, FF, CR, SP and NBSP. *)
Definition isWhiteSpace (c : ascii) : bool :=
  let n := charCode c in
  ((9 <=? n) && (n <=? 13)) || (n =? 32) || (n =? 160).

Fixpoint skipWhiteSpace (s : string) : string :=
  match s with
  | String c r => if isWhiteSpace c then skipWhiteSpace r else s
  | EmptyString => s
  end.

(** The value of a digit in the given radix, when it is one. *)
Definition digitValue (radix : Z) (c : ascii) : option Z :=
  let n := charCode c in
  let v := if (48 <=? n) && (n <=? 57) then n - 48
           else if (97 <=? n) && (n <=? 122) then n - 87
           else if (65 <=? n) && (n <=? 90) then n - 55
           else 99 in
  if v <? radix then Some v else None.

(** The longest prefix of digits, read in the radix; [None] when the
    prefix is empty. *)
Fixpoint readDigits (radix : Z) (acc : option Z) (s : string) : option Z :=
  match s with
  | EmptyString => acc
  | String c r =>
      match digitValue radix c with
      | Some v =>
          readDigits radix
            (Some (match acc with Some a => a * radix + v | None => v end)) r
      | None => acc
      end
  end.

(** [parseInt(x)] without a radix: [x] is converted to a string
    ([undefined] becomes the text "undefined"), leading white space and
    a sign are removed, a prefix 0x or 0X selects radix 16, and the
    digits are read up to the first code unit that is not one.  [None]
    is [NaN]. *)
Definition parseInt (x : option string) : option Z :=
  let s := skipWhiteSpace (match x with Some s => s | None => "undefined" end) in
  let '(negative, s) :=
    match s with
    | String "-" r => (true, r)
    | String "+" r => (false, r)
    | _ => (false, s)
    end in
  let '(radix, s) :=
    match s with
    | String "0" (String "x" r) => (16, r)
    | String "0" (String "X" r) => (16, r)
    | _ => (10, s)
    end in
  match readDigits radix None s with
  | Some m => Some (if negative then - m else m)
  | None => None
  end.

(** Subtraction and [>=] on numbers; any comparison with [NaN] is
    false. *)
Definition sub (a b : option Z) : option Z :=
  match a, b with
  | Some x, Some y => Some (x - y)
  | _, _ => None
  end.

Definition geb (a : option Z) (b : Z) : bool :=
  match a with
  | Some x => b <=? x
  | None => false
  end.

(** Truthiness of a string: every string but the empty one. *)
Definition truthy (s : string) : bool :=
  match s with
  | EmptyString => false
  | String _ _ => true
  end.

End Js.

(** ** Bytes: UTF-8 and hexadecimal text *)

Module Bytes.

Definition byte := Z.

(** UTF-8 of a string whose code units are below 256: one byte below
    128, two bytes from 128 on. *)
Definition utf8_unit (c : ascii) : list byte :=
  let n := Js.charCode c in
  if n <? 128 then [n]
  else [Z.lor 192 (Z.shiftr n 6); Z.lor 128 (Z.land n 63)].

Fixpoint utf8 (s : string) : list byte :=
  match s with
  | EmptyString => []
  | String c r => utf8_unit c ++ utf8 r
  end.

Definition hexDigit (d : Z) : ascii :=
  Js.fromCharCode (if d <? 10 then 48 + d else 87 + d).

Definition hexByte (b : byte) (rest : string) : string :=
  String (hexDigit (Z.land (Z.shiftr b 4) 15))
    (String (hexDigit (Z.land b 15)) rest).

(** [Buffer.toString('hex')]: two lower-case digits per byte. *)
Fixpoint toHex (bs : list byte) : string :=
  match bs with
  | [] => EmptyString
  | b :: r => hexByte b (toHex r)
  end.

(** Every code unit of [s] passes the test [p]. *)
Fixpoint every (p : ascii -> bool) (s : string) : bool :=
  match s with
  | EmptyString => true
  | String c r => p c && every p r
  end.

(** No code unit above 127: the UTF-8 bytes are the code units. *)
Definition isAscii (s : string) : bool :=
  every (fun c => Js.charCode c <? 128) s.

End Bytes.

(** ** SHA-256 ([crypto-js/sha256])

    [SHA256(text).toString()] hashes the UTF-8 bytes of [text] and
    renders the eight 32-bit words of the digest as 64 lower-case
    hexadecimal digits. *)

Module Sha256.

Definition modulus : Z := 4294967296.

Definition add (x y : Z) : Z := (x + y) mod modulus.

Definition rotr (n x : Z) : Z :=
  Z.lor (Z.shiftr x n) (Z.shiftl x (32 - n) mod modulus).

Definition choose (x y z : Z) : Z :=
  Z.lxor (Z.land x y) (Z.land (Z.lxor x (modulus - 1)) z).

Definition majority (x y z : Z) : Z :=
  Z.lxor (Z.lxor (Z.land x y) (Z.land x z)) (Z.land y z).

Definition bigSigma0 (x : Z) : Z :=
  Z.lxor (Z.lxor (rotr 2 x) (rotr 13 x)) (rotr 22 x).

Definition bigSigma1 (x : Z) : Z :=
  Z.lxor (Z.lxor (rotr 6 x) (rotr 11 x)) (rotr 25 x).

Definition smallSigma0 (x : Z) : Z :=
  Z.lxor (Z.lxor (rotr 7 x) (rotr 18 x)) (Z.shiftr x 3).

Definition smallSigma1 (x : Z) : Z :=
  Z.lxor (Z.lxor (rotr 17 x) (rotr 19 x)) (Z.shiftr x 10).

(** The eight working words. *)
Record Words : Type := mkWords
  { wa : Z; wb : Z; wc : Z; wd : Z; we : Z; wf : Z; wg : Z; wh : Z }.

(** The package computes its constants when it is loaded: it walks
    through the numbers from 2 on and takes, for each of the first 64
    primes, the first 32 bits of the fractional part of its cube root
    (a round constant) and, for the first 8, of its square root (an
    initial word). *)
Definition isPrime (n : Z) : bool :=
  forallb (fun factor => negb (n mod factor =? 0))
    (filter (fun factor => factor * factor <=? n)
       (map Z.of_nat (seq 2 (Z.to_nat n - 2)))).

Definition primes : list Z :=
  filter isPrime (map Z.of_nat (seq 2 310)).

(** The largest [r] from [lo] up to [hi], [hi] excluded, whose cube is
    at most [n], by bisection. *)
Fixpoint cubeRoot (fuel : nat) (lo hi n : Z) : Z :=
  match fuel with
  | O => lo
  | S fuel =>
      let mid := (lo + hi) / 2 in
      if mid * mid * mid <=? n then cubeRoot fuel mid hi n
      else cubeRoot fuel lo mid n
  end.

Definition fractionalBitsOfCubeRoot (n : Z) : Z :=
  cubeRoot 40 0 (2 ^ 36) (n * 2 ^ 96) mod modulus.

Definition fractionalBitsOfSquareRoot (n : Z) : Z :=
  Z.sqrt (n * 2 ^ 64) mod modulus.

Definition roundConstants : list Z :=
  Eval vm_compute in map fractionalBitsOfCubeRoot primes.

Definition initialWords : Words :=
  Eval vm_compute in
    let h i := fractionalBitsOfSquareRoot (nth i primes 0) in
    mkWords (h 0%nat) (h 1%nat) (h 2%nat) (h 3%nat)
            (h 4%nat) (h 5%nat) (h 6%nat) (h 7%nat).

(** Padding: the bit 1, zeros up to 56 modulo 64 bytes, and the length
    in bits as a 64-bit big-endian integer. *)
Definition bigEndian (width : nat) (n : Z) : list Z :=
  map (fun i => Z.land (Z.shiftr n (8 * Z.of_nat i)) 255) (rev (seq 0 width)).

Definition pad (message : list Z) : list Z :=
  let len := Z.of_nat (List.length message) in
  let zeros := Z.to_nat ((55 - len) mod 64) in
  message ++ [128] ++ repeat 0 zeros ++ bigEndian 8 (8 * len).

Fixpoint wordsOf (n : nat) (bytes : list Z) : list Z :=
  match n, bytes with
  | S k, b3 :: b2 :: b1 :: b0 :: r =>
      (((b3 * 256 + b2) * 256 + b1) * 256 + b0) :: wordsOf k r
  | _, _ => []
  end.

(** The message schedule: sixteen words of the block, extended to
    sixty-four. *)
Fixpoint extend (n : nat) (w : list Z) : list Z :=
  match n with
  | O => w
  | S k =>
      let t := List.length w in
      let at_ i := nth (t - i) w 0 in
      extend k
        (w ++ [add (add (smallSigma1 (at_ 2%nat)) (at_ 7%nat))
                   (add (smallSigma0 (at_ 15%nat)) (at_ 16%nat))])
  end.

Definition round (s : Words) (kw : Z * Z) : Words :=
  let t1 := add (add (add (wh s) (bigSigma1 (we s)))
                     (add (choose (we s) (wf s) (wg s)) (fst kw))) (snd kw) in
  let t2 := add (bigSigma0 (wa s)) (majority (wa s) (wb s) (wc s)) in
  mkWords (add t1 t2) (wa s) (wb s) (wc s) (add (wd s) t1) (we s) (wf s) (wg s).

Definition compress (s : Words) (block : list Z) : Words :=
  let w := extend 48 (wordsOf 16 block) in
  let r := fold_left round (combine roundConstants w) s in
  mkWords (add (wa s) (wa r)) (add (wb s) (wb r)) (add (wc s) (wc r))
          (add (wd s) (wd r)) (add (we s) (we r)) (add (wf s) (wf r))
          (add (wg s) (wg r)) (add (wh s) (wh r)).

Fixpoint blocks (n : nat) (s : Words) (bytes : list Z) : Words :=
  match n with
  | O => s
  | S k => blocks k (compress s (firstn 64 bytes)) (skipn 64 bytes)
  end.

Definition hash (message : list Z) : Words :=
  let padded := pad message in
  blocks (List.length padded / 64) initialWords padded.

(** Eight hexadecimal digits of a 32-bit word. *)
Definition hexWord (w : Z) (rest : string) : string :=
  Bytes.hexByte (Z.shiftr w 24 mod 256)
    (Bytes.hexByte (Z.shiftr w 16 mod 256)
       (Bytes.hexByte (Z.shiftr w 8 mod 256)
          (Bytes.hexByte (w mod 256) rest))).

Definition hexWords (s : Words) : string :=
  hexWord (wa s) (hexWord (wb s) (hexWord (wc s) (hexWord (wd s)
    (hexWord (we s) (hexWord (wf s) (hexWord (wg s) (hexWord (wh s) ""))))))).

End Sha256.

(** [SHA256(text).toString()]. *)
Definition SHA256 (text : string) : string :=
  Sha256.hexWords (Sha256.hash (Bytes.utf8 text)).

(** ** JSON values, [JSON.stringify] and [JSON.parse]

    Numbers are integers, an object is the list of its members in
    insertion order. *)

Module Json.

#[local] Unset Elimination Schemes.

Inductive Value : Type :=
| Null
| Bool (b : bool)
| Number (n : Z)
| Str (s : string)
| Array (items : list Value)
| Object (members : list (string * Value)).

Definition dquote : ascii := "034"%char.
Definition backslash : ascii := "\"%char.

(** *** [JSON.stringify] *)

Definition escapeUnit (c : ascii) : string :=
  let n := Js.charCode c in
  if n =? 34 then String backslash (String dquote "")
  else if n =? 92 then "\\"
  else if n =? 8 then "\b"
  else if n =? 12 then "\f"
  else if n =? 10 then "\n"
  else if n =? 13 then "\r"
  else if n =? 9 then "\t"
  else if n <? 32 then "\u00" ++ Bytes.hexByte n ""
  else String c "".

Fixpoint escape (s : string) : string :=
  match s with
  | EmptyString => ""
  | String c r => escapeUnit c ++ escape r
  end.

Definition quote (s : string) : string :=
  String dquote (escape s ++ String dquote "").

Fixpoint join (parts : list string) : string :=
  match parts with
  | [] => ""
  | [p] => p
  | p :: r => p ++ "," ++ join r
  end.

Fixpoint stringify (v : Value) : string :=
  match v with
  | Null => "null"
  | Bool true => "true"
  | Bool false => "false"
  | Number n => Js.toString n
  | Str s => quote s
  | Array items => "[" ++ join (map stringify items) ++ "]"
  | Object members =>
      "{" ++ join (map (fun m => let '(k, x) := m in
                                 quote k ++ ":" ++ stringify x) members)
          ++ "}"
  end.

(** The number of values in [v], counting each item and member once
    more: the fuel that parsing its text takes. *)
Fixpoint size (v : Value) : nat :=
  match v with
  | Array items => S (list_sum (map (fun x => S (size x)) items))
  | Object members => S (list_sum (map (fun m => S (size (snd m))) members))
  | _ => 1%nat
  end.

Fixpoint distinct (keys : list string) : bool :=
  match keys with
  | [] => true
  | k :: r => negb (existsb (String.eqb k) r) && distinct r
  end.

(** A value of JavaScript: no object in it has a key twice. *)
Fixpoint wellFormed (v : Value) : bool :=
  match v with
  | Array items => forallb wellFormed items
  | Object members =>
      distinct (map fst members)
      && forallb (fun m => wellFormed (snd m)) members
  | _ => true
  end.

(** *** [JSON.parse] *)

Definition isWs (c : ascii) : bool :=
  let n := Js.charCode c in
  (n =? 32) || (n =? 9) || (n =? 10) || (n =? 13).

Fixpoint skipWs (s : string) : string :=
  match s with
  | String c r => if isWs c then skipWs r else s
  | EmptyString => s
  end.

Fixpoint dropPrefix (lit s : string) : option string :=
  match lit, s with
  | EmptyString, _ => Some s
  | String a l, String b r => if Ascii.eqb a b then dropPrefix l r else None
  | String _ _, EmptyString => None
  end.

Definition isDigit (c : ascii) : bool :=
  let n := Js.charCode c in (48 <=? n) && (n <=? 57).

Fixpoint digits (acc : Z) (s : string) : Z * string :=
  match s with
  | String c r =>
      if isDigit c then digits (acc * 10 + (Js.charCode c - 48)) r
      else (acc, s)
  | EmptyString => (acc, s)
  end.

(** An integer literal: an optional minus sign, then 0 or a digit
    sequence that does not start with 0.  A fraction or an exponent
    is not an integer literal. *)
Definition parseNumber (s : string) : option (Z * string) :=
  let '(negative, s) :=
    match s with
    | String "-" r => (true, r)
    | _ => (false, s)
    end in
  let magnitude :=
    match s with
    | String "0" r => Some (0, r)
    | String c r => if isDigit c then Some (digits 0 s) else None
    | EmptyString => None
    end in
  match magnitude with
  | Some (m, String "." _) | Some (m, String "e" _) | Some (m, String "E" _) =>
      None
  | Some (m, r) => Some (if negative then - m else m, r)
  | None => None
  end.

Definition unescape (c : ascii) : option ascii :=
  let n := Js.charCode c in
  if n =? 34 then Some dquote
  else if n =? 92 then Some backslash
  else if n =? 47 then Some "/"%char
  else if n =? 98 then Some "008"%char
  else if n =? 102 then Some "012"%char
  else if n =? 110 then Some "010"%char
  else if n =? 114 then Some "013"%char
  else if n =? 116 then Some "009"%char
  else None.

Definition hex4 (a b c d : ascii) : option Z :=
  match Js.digitValue 16 a, Js.digitValue 16 b,
        Js.digitValue 16 c, Js.digitValue 16 d with
  | Some x, Some y, Some z, Some w => Some (((x * 16 + y) * 16 + z) * 16 + w)
  | _, _, _, _ => None
  end.

(** The characters of a string literal after its opening quote, up to
    the closing quote. *)
Fixpoint parseChars (s : string) : option (string * string) :=
  match s with
  | EmptyString => None
  | String c r =>
      if Ascii.eqb c dquote then Some ("", r)
      else if Ascii.eqb c backslash then
        match r with
        | String e r1 =>
            match unescape e with
            | Some u =>
                match parseChars r1 with
                | Some (t, rest) => Some (String u t, rest)
                | None => None
                end
            | None =>
                match e, r1 with
                | "u"%char, String h1 (String h2 (String h3 (String h4 r2))) =>
                    match hex4 h1 h2 h3 h4 with
                    | Some n =>
                        if n <? 256 then
                          match parseChars r2 with
                          | Some (t, rest) =>
                              Some (String (Js.fromCharCode n) t, rest)
                          | None => None
                          end
                        else None
                    | None => None
                    end
                | _, _ => None
                end
            end
        | EmptyString => None
        end
      else if Js.charCode c <? 32 then None
      else
        match parseChars r with
        | Some (t, rest) => Some (String c t, rest)
        | None => None
        end
  end.

(** [o[k] = x] on the member list of an object: a known key keeps its
    place. *)
Fixpoint setMember (k : string) (x : Value) (members : list (string * Value))
  : list (string * Value) :=
  match members with
  | [] => [(k, x)]
  | (k', x') :: r =>
      if String.eqb k' k then (k', x) :: r else (k', x') :: setMember k x r
  end.

Fixpoint parseValue (fuel : nat) (s : string) : option (Value * string) :=
  match fuel with
  | O => None
  | S fuel =>
      match skipWs s with
      | String "n" _ =>
          option_map (pair Null) (dropPrefix "null" (skipWs s))
      | String "t" _ =>
          option_map (pair (Bool true)) (dropPrefix "true" (skipWs s))
      | String "f" _ =>
          option_map (pair (Bool false)) (dropPrefix "false" (skipWs s))
      | String "034" r =>
          match parseChars r with
          | Some (t, rest) => Some (Str t, rest)
          | None => None
          end
      | String "[" r =>
          match skipWs r with
          | String "]" rest => Some (Array [], rest)
          | _ =>
              match parseElements fuel r with
              | Some (items, rest) => Some (Array items, rest)
              | None => None
              end
          end
      | String "{" r =>
          match skipWs r with
          | String "}" rest => Some (Object [], rest)
          | _ =>
              match parseMembers fuel [] r with
              | Some (members, rest) => Some (Object members, rest)
              | None => None
              end
          end
      | _ =>
          match parseNumber (skipWs s) with
          | Some (n, rest) => Some (Number n, rest)
          | None => None
          end
      end
  end
with parseElements (fuel : nat) (s : string) : option (list Value * string) :=
  match fuel with
  | O => None
  | S fuel =>
      match parseValue fuel s with
      | Some (v, r) =>
          match skipWs r with
          | String "," r1 =>
              match parseElements fuel r1 with
              | Some (vs, rest) => Some (v :: vs, rest)
              | None => None
              end
          | String "]" rest => Some ([v], rest)
          | _ => None
          end
      | None => None
      end
  end
with parseMembers (fuel : nat) (acc : list (string * Value)) (s : string)
  : option (list (string * Value) * string) :=
  match fuel with
  | O => None
  | S fuel =>
      match skipWs s with
      | String "034" r =>
          match parseChars r with
          | Some (k, r1) =>
              match skipWs r1 with
              | String ":" r2 =>
                  match parseValue fuel r2 with
                  | Some (v, r3) =>
                      match skipWs r3 with
                      | String "," r4 => parseMembers fuel (setMember k v acc) r4
                      | String "}" rest => Some (setMember k v acc, rest)
                      | _ => None
                      end
                  | None => None
                  end
              | _ => None
              end
          | None => None
          end
      | _ => None
      end
  end.

(** [JSON.parse(text)]; [None] is a [SyntaxError].  A text with a
    number that has a fraction or an exponent, or with an escape
    above [ÿ], has no value among [Value] and is [None] too. *)
Definition parse (text : string) : option Value :=
  match parseValue (2 * String.length text + 2) text with
  | Some (v, rest) =>
      match skipWs rest with
      | EmptyString => Some v
      | String _ _ => None
      end
  | None => None
  end.

End Json.

(** ** [hex2ascii]

    The package removes white space from its argument and turns each
    pair of characters into the character whose code [parseInt(pair, 16)]
    returns; a pair that gives [NaN] or 0 is skipped. *)

Module Hex2Ascii.

(** [\s] among the code units 0..255. *)
Fixpoint removeWhiteSpace (s : string) : string :=
  match s with
  | EmptyString => ""
  | String c r =>
      if Js.isWhiteSpace c then removeWhiteSpace r
      else String c (removeWhiteSpace r)
  end.

(** [parseInt(pair, 16)]: a sign and a prefix 0x are accepted. *)
Definition parseInt16 (pair : string) : option Z :=
  let '(negative, s) :=
    match Js.skipWhiteSpace pair with
    | String "-" r => (true, r)
    | String "+" r => (false, r)
    | s => (false, s)
    end in
  let s :=
    match s with
    | String "0" (String "x" r) => r
    | String "0" (String "X" r) => r
    | _ => s
    end in
  match Js.readDigits 16 None s with
  | Some m => Some (if negative then - m else m)
  | None => None
  end.

(** The codes of the pairs, in order. *)
Fixpoint codes (s : string) : list Z :=
  match s with
  | EmptyString => []
  | String a EmptyString =>
      match parseInt16 (String a "") with
      | Some code => if code =? 0 then [] else [code]
      | None => []
      end
  | String a (String b r) =>
      match parseInt16 (String a (String b "")) with
      | Some code => if code =? 0 then codes r else code :: codes r
      | None => codes r
      end
  end.

(** [String.fromCharCode] on each code.  A negative code (a pair with
    a minus sign) is a code unit above 255: the result is then no
    string of the model, [None]. *)
Fixpoint fromCharCodes (l : list Z) : option string :=
  match l with
  | [] => Some ""
  | code :: r =>
      if (0 <=? code) && (code <? 256) then
        option_map (String (Js.fromCharCode code)) (fromCharCodes r)
      else None
  end.

Definition hex2ascii (hex : string) : option string :=
  fromCharCodes (codes (removeWhiteSpace hex)).

End Hex2Ascii.

(** ** Errors, promises and events *)

(** One constructor per error the two classes create or meet. *)
Inductive Error : Type :=
| GenesisBlock
| CannotAddInvalidBlock
| TimedOut
| InvalidMessage
| InvalidBlock (height : Z) (hash : option string)
| InvalidLink (height : Z)
| SyntaxError
| TypeError.

Definition showHash (h : option string) : string :=
  match h with
  | Some s => s
  | None => "null"
  end.

(** The text of the error, as the source writes it. *)
Definition errorMessage (e : Error) : string :=
  match e with
  | GenesisBlock => "Genesis Block"
  | CannotAddInvalidBlock => "Cannot add an invalid block."
  | TimedOut => "Star submission request timed out."
  | InvalidMessage => "Invalid message."
  | InvalidBlock h x =>
      "Invalid block #" ++ Js.toString h ++ ": " ++ showHash x
  | InvalidLink h =>
      "Invalid link: Block #" ++ Js.toString h
        ++ " not linked to the hash of block #" ++ Js.toString (h - 1) ++ "."
  | SyntaxError => "Unexpected token in JSON"
  | TypeError => "Cannot read properties of undefined"
  end.

(** How a promise ends: resolved, rejected, or never settled. *)
Inductive Promise (A : Type) : Type :=
| Resolved (a : A)
| Rejected (e : Error)
| Pending.

Arguments Resolved {A} a.
Arguments Rejected {A} e.
Arguments Pending {A}.

(** What a method does besides changing the ledger. *)
Inductive Event : Type :=
| ConsoleLog (text : string)
| ConsoleError (e : Error)
| Verify (message address signature : string).

(** ** The [Block] class *)

Module Block.

(** [time] is the number 0 from the constructor on and the string of
    seconds once the block was added. *)
Inductive Time : Type :=
| TimeNumber (n : Z)
| TimeString (s : string).

(** The own properties of a block, in the order they are created;
    [owner] is absent ([None]) until [submitStar] sets it. *)
Record t : Type := mk
  { hash : option string;
    height : Z;
    body : string;
    time : Time;
    previousBlockHash : option string;
    owner : option string }.

Definition setHash (x : option string) (b : t) : t :=
  mk x (height b) (body b) (time b) (previousBlockHash b) (owner b).
Definition setHeight (x : Z) (b : t) : t :=
  mk (hash b) x (body b) (time b) (previousBlockHash b) (owner b).
Definition setTime (x : Time) (b : t) : t :=
  mk (hash b) (height b) (body b) x (previousBlockHash b) (owner b).
Definition setPreviousBlockHash (x : option string) (b : t) : t :=
  mk (hash b) (height b) (body b) (time b) x (owner b).
Definition setOwner (x : option string) (b : t) : t :=
  mk (hash b) (height b) (body b) (time b) (previousBlockHash b) x.
Definition setBody (x : string) (b : t) : t :=
  mk (hash b) (height b) x (time b) (previousBlockHash b) (owner b).

(** [Buffer(JSON.stringify(data)).toString('hex')]. *)
Definition encode (data : Json.Value) : string :=
  Bytes.toHex (Bytes.utf8 (Json.stringify data)).

Definition constructor (data : Json.Value) : t :=
  {| hash := None;
     height := 0;
     body := encode data;
     time := TimeNumber 0;
     previousBlockHash := None;
     owner := None |}.

Definition nullable (x : option string) : Json.Value :=
  match x with
  | Some s => Json.Str s
  | None => Json.Null
  end.

(** The block as [JSON.stringify] sees it. *)
Definition toJson (b : t) : Json.Value :=
  Json.Object
    ([ ("hash", nullable (hash b));
       ("height", Json.Number (height b));
       ("body", Json.Str (body b));
       ("time", match time b with
                | TimeNumber n => Json.Number n
                | TimeString s => Json.Str s
                end);
       ("previousBlockHash", nullable (previousBlockHash b)) ]
     ++ match owner b with
        | Some a => [("owner", Json.Str a)]
        | None => []
        end).

(** [SHA256(JSON.stringify({ ...self, hash: null })).toString()]. *)
Definition digest (self : t) : string :=
  SHA256 (Json.stringify (toJson (setHash None self))).

Definition sameHash (x y : option string) : bool :=
  match x, y with
  | Some a, Some b => String.eqb a b
  | None, None => true
  | _, _ => false
  end.

(** [validate()]: the block after the call and the value the promise
    resolves with. *)
Definition validate (self : t) : t * bool :=
  let hash := hash self in
  let self := setHash (Some (digest self)) self in
  (self, sameHash hash (Block.hash self)).

(** [getBData()].  The outer [None] is a decoded text that is no
    string of the model. *)
Definition getBData (self : t) : option (Promise Json.Value) :=
  let hexEncodedString := body self in
  match Hex2Ascii.hex2ascii hexEncodedString with
  | None => None
  | Some decodedString =>
      Some match Json.parse decodedString with
           | None => Rejected SyntaxError
           | Some decodedObject =>
               if height self >? 0 then Resolved decodedObject
               else Rejected GenesisBlock
           end
  end.

End Block.

(** ** The [Blockchain] class *)

Module Blockchain.

(** [chain] holds what [_addBlock] pushed: a block or [undefined]. *)
Record t : Type := mk
  { chain : list (option Block.t);
    height : Z }.

(** A run of a method: the ledger after it, its events in order and
    the settlement of the promise it returned. *)
Record Run (A : Type) : Type := mkRun
  { after : t;
    events : list Event;
    settled : Promise A }.

Arguments mkRun {A} after events settled.
Arguments after {A} r.
Arguments events {A} r.
Arguments settled {A} r.

(** [chain[i]] as a condition and as a receiver: a block when there is
    one at index [i], [None] when the index is out of range or the
    entry is [undefined]. *)
Definition blockAt (chain : list (option Block.t)) (i : Z) : option Block.t :=
  if i <? 0 then None
  else match nth_error chain (Z.to_nat i) with
       | Some (Some b) => Some b
       | _ => None
       end.

(** [chain.filter((b) => b.height === h)]; the callback throws a
    [TypeError] at an [undefined] entry, which is [None] here. *)
Fixpoint filterHeight (h : Z) (chain : list (option Block.t))
  : option (list Block.t) :=
  match chain with
  | [] => Some []
  | None :: _ => None
  | Some b :: r =>
      match filterHeight h r with
      | Some found => Some (if Block.height b =? h then b :: found else found)
      | None => None
      end
  end.

(** The chain once the entry at index [i] has become [x]: the loop of
    [validateChain] changes the blocks of the chain in place. *)
Fixpoint setAt (i : nat) (x : option Block.t) (chain : list (option Block.t))
  : list (option Block.t) :=
  match i, chain with
  | _, [] => []
  | O, _ :: r => x :: r
  | S k, y :: r => y :: setAt k x r
  end.

(** The ledger right after [this.chain = []; this.height = -1]. *)
Definition empty : t := {| chain := []; height := -1 |}.

(** [_addBlock(block)] at clock reading [now] (milliseconds). *)
Definition _addBlock (now : Z) (block : Block.t) (self : t)
  : Run (option Block.t) :=
  let height := Z.of_nat (List.length (chain self)) in
  let block :=
    Block.setPreviousBlockHash
      (match blockAt (chain self) (height - 1) with
       | Some previous => Block.hash previous
       | None => None
       end) block in
  let block := Block.setHeight height block in
  let block :=
    Block.setTime
      (Block.TimeString (Js.slice_0_minus3 (Js.toString now))) block in
  let hash := SHA256 (Json.stringify (Block.toJson block)) in
  let block := Block.setHash (Some hash) block in
  let blockValid :=
    Js.truthy hash
    && (Z.of_nat (String.length hash) =? 64)
    && (Block.height block =? Z.of_nat (List.length (chain self)))
    && match Block.time block with
       | Block.TimeString s => Js.truthy s
       | Block.TimeNumber n => negb (n =? 0)
       end in
  if blockValid then
    (* resolve(block); the [then] callback pushes it *)
    let chain := (chain self ++ [Some block])%list in
    {| after := {| chain := chain; height := Z.of_nat (List.length chain) - 1 |};
       events := [];
       settled := Resolved (Some block) |}
  else
    (* reject(...); [catch] logs the error and yields [undefined], which
       the [then] callback pushes *)
    let chain := (chain self ++ [None])%list in
    {| after := {| chain := chain; height := Z.of_nat (List.length chain) - 1 |};
       events := [ConsoleError CannotAddInvalidBlock];
       settled := Resolved None |}.

Definition genesisData : Json.Value :=
  Json.Object [("data", Json.Str "Genesis Block")].

(** [initializeChain()]. *)
Definition initializeChain (now : Z) (self : t) : Run unit :=
  if height self =? -1 then
    let block := Block.constructor genesisData in
    let added := _addBlock now block self in
    {| after := after added;
       events := ConsoleLog "Genesis Block" :: events added;
       settled := Resolved tt |}
  else
    {| after := self; events := []; settled := Resolved tt |}.

(** [new Blockchain()], with [initializeChain] run to its end. *)
Definition constructor (now : Z) : t :=
  after (initializeChain now empty).

(** [getChainHeight()]. *)
Definition getChainHeight (self : t) : Promise Z :=
  Resolved (height self).

(** [getBlockByHeight(height)]. *)
Definition getBlockByHeight (h : Z) (self : t) : Promise (option Block.t) :=
  match filterHeight h (chain self) with
  | Some found => Resolved (hd_error found)
  | None => Rejected TypeError
  end.

(** What [bitcoinMessage.verify] does with its arguments. *)
Inductive Verdict : Type :=
| Returns (valid : bool)
| Throws.

Section WithVerifier.

(** The signature verifier is the package [bitcoinjs-message]. *)
Variable verify : string -> string -> string -> Verdict.

(** [submitStar(address, message, signature, star)]; [now] is the
    clock reading of [submitStar] itself and [stamp] the one
    [_addBlock] takes. *)
Definition submitStar (now stamp : Z)
    (address message signature : string) (star : Json.Value) (self : t)
  : Run (option Block.t) :=
  let requestTime := Js.parseInt (Js.index (Js.split ":" message) 1) in
  let currentTime :=
    Js.parseInt (Some (Js.slice_0_minus3 (Js.toString now))) in
  let spendTime := Js.sub currentTime requestTime in
  (* reject on timeout: the executor goes on *)
  let timedOut := Js.geb spendTime (5 * 60) in
  match verify message address signature with
  | Throws =>
      {| after := self;
         events := [Verify message address signature];
         settled := if timedOut then Rejected TimedOut else Pending |}
  | Returns valid =>
      let block := Block.constructor (Json.Object [("star", star)]) in
      let block := Block.setOwner (Some address) block in
      let added := _addBlock stamp block self in
      {| after := after added;
         events := Verify message address signature :: events added;
         settled :=
           if timedOut then Rejected TimedOut
           else if negb valid then Rejected InvalidMessage
           else settled added |}
  end.

End WithVerifier.

(** The answer of [validateChain]: the text it resolves with when it
    found nothing, or the list of errors. *)
Inductive Report : Type :=
| Text (s : string)
| Errors (errorLog : list Error).

(** The state of the loop of [validateChain]. *)
Record Scan : Type := mkScan
  { blocks : list (option Block.t);
    errorLog : list Error }.

Inductive Step : Type :=
| Continue (s : Scan)
| Thrown (s : Scan).

(** One turn of the loop, for the entry at index [i]. *)
Definition visit (i : nat) (s : Scan) : Step :=
  match nth_error (blocks s) i with
  | None => Continue s
  | Some None => Thrown s
  | Some (Some block) =>
      let '(block, valid) := Block.validate block in
      let chain := setAt i (Some block) (blocks s) in
      if valid then
        if Block.height block >? 0 then
          match filterHeight (Block.height block - 1) chain with
          | Some (prevBlock :: _) =>
              if Block.sameHash (Block.previousBlockHash block)
                                (Block.hash prevBlock)
              then Continue (mkScan chain (errorLog s))
              else Continue
                     (mkScan chain
                        (errorLog s ++ [InvalidLink (Block.height block)])%list)
          | Some [] => Thrown (mkScan chain (errorLog s))
          | None => Thrown (mkScan chain (errorLog s))
          end
        else Continue (mkScan chain (errorLog s))
      else
        Continue
          (mkScan chain
             (errorLog s
                ++ [InvalidBlock (Block.height block) (Block.hash block)])%list)
  end.

Definition scanOf (st : Step) : Scan :=
  match st with
  | Continue s => s
  | Thrown s => s
  end.

Fixpoint scan (indices : list nat) (s : Scan) : Step :=
  match indices with
  | [] => Continue s
  | i :: rest =>
      match visit i s with
      | Continue s => scan rest s
      | Thrown s => Thrown s
      end
  end.

(** [validateChain()].  An exception inside the asynchronous executor
    leaves the promise pending. *)
Definition validateChain (self : t) : Run Report :=
  match scan (seq 0 (List.length (chain self))) (mkScan (chain self) []) with
  | Continue s =>
      {| after := {| chain := blocks s; height := height self |};
         events := [];
         settled :=
           match errorLog s with
           | [] => Resolved (Text "No errors detected.")
           | _ :: _ => Resolved (Errors (errorLog s))
           end |}
  | Thrown s =>
      {| after := {| chain := blocks s; height := height self |};
         events := [];
         settled := Pending |}
  end.

(** [requestMessageOwnershipVerification(address)] at clock reading
    [now]. *)
Definition requestMessageOwnershipVerification (now : Z) (address : string)
  : Promise string :=
  let unsignedMessage :=
    address ++ ":" ++ Js.slice_0_minus3 (Js.toString now) ++ ":starRegistry" in
  Resolved unsignedMessage.

(** [chain.filter((block) => block.hash === hash)]; [None] is the
    [TypeError] of the callback at an [undefined] entry. *)
Fixpoint filterHash (hash : string) (chain : list (option Block.t))
  : option (list Block.t) :=
  match chain with
  | [] => Some []
  | None :: _ => None
  | Some block :: r =>
      match filterHash hash r with
      | Some found =>
          Some (if Block.sameHash (Block.hash block) (Some hash)
                then block :: found else found)
      | None => None
      end
  end.

(** [getBlockByHash(hash)]: the first match, or [undefined]. *)
Definition getBlockByHash (hash : string) (self : t)
  : Promise (option Block.t) :=
  match filterHash hash (chain self) with
  | Some found => Resolved (hd_error found)
  | None => Rejected TypeError
  end.

(** [chain.filter((block) => block.owner === address)]. *)
Fixpoint filterOwner (address : string) (chain : list (option Block.t))
  : option (list Block.t) :=
  match chain with
  | [] => Some []
  | None :: _ => None
  | Some block :: r =>
      match filterOwner address r with
      | Some found =>
          Some (if Block.sameHash (Block.owner block) (Some address)
                then block :: found else found)
      | None => None
      end
  end.

(** What [ownedBlocks.map((block) => JSON.parse(hex2ascii(block.body)))]
    does. *)
Inductive Decoding : Type :=
| Decoded (stars : list Json.Value)
| DecodingThrows
| DecodingLeavesModel.

(** The bodies are decoded in order; a [SyntaxError] of [JSON.parse]
    ends the [map], and so does, in the model, a text of [hex2ascii]
    with a code unit above 255. *)
Fixpoint decodeBodies (blocks : list Block.t) : Decoding :=
  match blocks with
  | [] => Decoded []
  | block :: r =>
      match Hex2Ascii.hex2ascii (Block.body block) with
      | None => DecodingLeavesModel
      | Some text =>
          match Json.parse text with
          | None => DecodingThrows
          | Some star =>
              match decodeBodies r with
              | Decoded stars => Decoded (star :: stars)
              | other => other
              end
          end
      end
  end.

(** How the promise of [getStarsByWalletAddress] ends: resolved with the
    stars, rejected with the error [Address not found.], or never
    settled. *)
Inductive StarsAnswer : Type :=
| Stars (stars : list Json.Value)
| AddressNotFound
| NoAnswer.

Record StarsRun : Type := mkStarsRun
  { ledger : t;
    logged : list Event;
    answer : StarsAnswer }.

(** What the callback on the promise of [validateChain] logs. *)
Definition validationLog (validation : Promise Report) : list Event :=
  match validation with
  | Resolved (Text errors) => [ConsoleLog ("SUCCESS: " ++ " " ++ errors)]
  | Resolved (Errors errors) => map ConsoleError errors
  | Rejected _ => []
  | Pending => []
  end.

(** [getStarsByWalletAddress(address)].  The chain validation is
    started first and goes on by itself; the stars are read before it
    has changed a hash, from properties it never writes.  An exception
    in the asynchronous executor leaves the promise as it is: pending,
    unless it was rejected before.  An array is truthy, so that the
    last line of the method always resolves.  The result is [None]
    when a decoded text leaves the model. *)
Definition getStarsByWalletAddress (address : string) (self : t)
  : option StarsRun :=
  let validation := validateChain self in
  let finish (a : StarsAnswer) :=
    Some {| ledger := after validation;
            logged := validationLog (settled validation);
            answer := a |} in
  match filterOwner address (chain self) with
  | None => finish NoAnswer
  | Some ownedBlocks =>
      (* reject when there is none: the executor goes on *)
      let notFound := (List.length ownedBlocks =? 0)%nat in
      match decodeBodies ownedBlocks with
      | Decoded stars => finish (if notFound then AddressNotFound else Stars stars)
      | DecodingThrows => finish (if notFound then AddressNotFound else NoAnswer)
      | DecodingLeavesModel => None
      end
  end.

End Blockchain.

(** ** The [BlockchainController] class

    The routes of the application.  A handler is a function of the
    parameters of the request and of the ledger; it gives the response,
    or none when the handler never answers (the promise it waits for
    stays pending, or is rejected outside a [try]). *)

Module BlockchainController.

(** What [res.send] or [res.json] is given. *)
Inductive Sent : Type :=
| SentText (text : string)
| SentJson (value : Json.Value)
| SentError (e : Error).

Record Response : Type := mkResponse
  { status : Z;
    sent : Sent }.

(** A handler that changes the ledger: the ledger after the request,
    the events and the response. *)
Record Handled : Type := mkHandled
  { ledger : Blockchain.t;
    events : list Event;
    response : option Response }.

(** A parameter of a request as a condition: it is there and not the
    empty string. *)
Definition given (parameter : option string) : bool :=
  match parameter with
  | Some text => Js.truthy text
  | None => false
  end.

(** A JSON value as a condition. *)
Definition truthy (value : option Json.Value) : bool :=
  match value with
  | None => false
  | Some Json.Null => false
  | Some (Json.Bool b) => b
  | Some (Json.Number n) => negb (n =? 0)
  | Some (Json.Str text) => Js.truthy text
  | Some (Json.Array _) => true
  | Some (Json.Object _) => true
  end.

(** [block ? 200 with the block : 404 with the text]; a rejected or
    pending lookup gives no response. *)
Definition found (lookup : Promise (option Block.t)) (missing : string)
  : option Response :=
  match lookup with
  | Resolved (Some block) => Some (mkResponse 200 (SentJson (Block.toJson block)))
  | Resolved None => Some (mkResponse 404 (SentText missing))
  | Rejected _ => None
  | Pending => None
  end.

(** The chain filtered with a test no block passes: [p.height === NaN]. *)
Definition noBlock (bc : Blockchain.t) : Promise (option Block.t) :=
  match Blockchain.filterHeight 0 (Blockchain.chain bc) with
  | Some _ => Resolved None
  | None => Rejected TypeError
  end.

(** GET /block/height/:height *)
Definition getBlockByHeight (height : option string) (bc : Blockchain.t)
  : option Response :=
  if given height then
    let block :=
      match Js.parseInt height with
      | Some height => Blockchain.getBlockByHeight height bc
      | None => noBlock bc
      end in
    found block "Block not found!"
  else
    Some (mkResponse 404
            (SentText "Block not found. Check the block height parameter.")).

(** POST /requestOwnership at clock reading [now]. *)
Definition requestOwnership (now : Z) (address : option string)
  : option Response :=
  match address with
  | Some address =>
      if Js.truthy address then
        match Blockchain.requestMessageOwnershipVerification now address with
        | Resolved message =>
            if Js.truthy message
            then Some (mkResponse 200 (SentJson (Json.Str message)))
            else Some (mkResponse 500
                         (SentText "Error in function requestOwnership."))
        | Rejected _ => None
        | Pending => None
        end
      else Some (mkResponse 500 (SentText "Check the body parameter."))
  | None => Some (mkResponse 500 (SentText "Check the body parameter."))
  end.

(** The body of POST /submitstar; the address, the message and the
    signature are strings when they are there. *)
Record StarRequest : Type := mkStarRequest
  { address : option string;
    message : option string;
    signature : option string;
    star : option Json.Value }.

(** POST /submitstar *)
Definition submitStar
    (verify : string -> string -> string -> Blockchain.Verdict)
    (now stamp : Z) (body : StarRequest) (bc : Blockchain.t) : Handled :=
  match address body, message body, signature body, star body with
  | Some address, Some message, Some signature, Some star =>
      if Js.truthy address && Js.truthy message && Js.truthy signature
         && truthy (Some star)
      then
        let run :=
          Blockchain.submitStar verify now stamp address message signature
            star bc in
        {| ledger := Blockchain.after run;
           events := Blockchain.events run;
           response :=
             match Blockchain.settled run with
             | Resolved (Some block) =>
                 Some (mkResponse 200 (SentJson (Block.toJson block)))
             | Resolved None =>
                 Some (mkResponse 500 (SentText "Error in function submitStar."))
             | Rejected error => Some (mkResponse 500 (SentError error))
             | Pending => None
             end |}
      else
        {| ledger := bc; events := [];
           response := Some (mkResponse 500 (SentText "Check the Body parameter.")) |}
  | _, _, _, _ =>
      {| ledger := bc; events := [];
         response := Some (mkResponse 500 (SentText "Check the Body parameter.")) |}
  end.

(** GET /block/hash/:hash *)
Definition getBlockByHash (hash : option string) (bc : Blockchain.t)
  : option Response :=
  match hash with
  | Some hash =>
      if Js.truthy hash
      then found (Blockchain.getBlockByHash hash bc) "Block not found."
      else Some (mkResponse 404 (SentText "Block not found. Check hash."))
  | None => Some (mkResponse 404 (SentText "Block not found. Check hash."))
  end.

(** GET /testChainValidation *)
Definition testChainValidation (bc : Blockchain.t) : Handled :=
  let validation := Blockchain.validateChain bc in
  {| ledger := Blockchain.after validation;
     events := [];
     response :=
       match Blockchain.settled validation with
       | Resolved _ => Some (mkResponse 200 (SentText "Blockchain valid."))
       | Rejected _ =>
           Some (mkResponse 500
                   (SentText "Error in function testChainValidation."))
       | Pending => None
       end |}.

(** GET /blocks/:address.  The stars are an array, which is truthy: the
    answer 404 of the handler is never sent.  The result is [None] when
    a decoded text leaves the model. *)
Definition getStarsByOwner (address : option string) (bc : Blockchain.t)
  : option Handled :=
  match address with
  | Some address =>
      if Js.truthy address then
        match Blockchain.getStarsByWalletAddress address bc with
        | Some run =>
            Some {| ledger := Blockchain.ledger run;
                    events := Blockchain.logged run;
                    response :=
                      match Blockchain.answer run with
                      | Blockchain.Stars stars =>
                          Some (mkResponse 200 (SentJson (Json.Array stars)))
                      | Blockchain.AddressNotFound =>
                          Some (mkResponse 500
                                  (SentText "Error in function getStarsByOwner."))
                      | Blockchain.NoAnswer => None
                      end |}
        | None => None
        end
      else
        Some {| ledger := bc; events := [];
                response :=
                  Some (mkResponse 500 (SentText "Block not found. Check address.")) |}
  | None =>
      Some {| ledger := bc; events := [];
              response :=
                Some (mkResponse 500 (SentText "Block not found. Check address.")) |}
  end.

End BlockchainController.

(** ** Ledger states *)

(** A candidate is unsealed when its [hash] is still [null], as it is
    for every block the two classes create. *)
Definition unsealed (candidate : Block.t) : Prop :=
  Block.hash candidate = None.

(** An append succeeded when its promise resolved with the block. *)
Definition appended (run : Blockchain.Run (option Block.t)) (sealed : Block.t)
  : Prop :=
  Blockchain.settled run = Resolved (Some sealed).

(** The ledgers reached from a new one by successful appends only. *)
Inductive reachable : Blockchain.t -> Prop :=
| reach_new (now : Z) (genesis : Block.t) :
    appended
      (Blockchain._addBlock now (Block.constructor Blockchain.genesisData)
         Blockchain.empty) genesis ->
    reachable (Blockchain.constructor now)
| reach_append (s : Blockchain.t) (now : Z) (candidate sealed : Block.t) :
    reachable s ->
    unsealed candidate ->
    appended (Blockchain._addBlock now candidate s) sealed ->
    reachable (Blockchain.after (Blockchain._addBlock now candidate s)).

(** The ledgers produced from the empty one by any calls of the methods
    that change it, whether the calls succeed or not. *)
Inductive produced : Blockchain.t -> Prop :=
| produced_empty : produced Blockchain.empty
| produced_initialize (s : Blockchain.t) (now : Z) :
    produced s ->
    produced (Blockchain.after (Blockchain.initializeChain now s))
| produced_submit (s : Blockchain.t)
    (verify : string -> string -> string -> Blockchain.Verdict)
    (now stamp : Z) (address message signature : string) (star : Json.Value) :
    produced s ->
    produced
      (Blockchain.after
         (Blockchain.submitStar verify now stamp address message signature
            star s))
| produced_validate (s : Blockchain.t) :
    produced s ->
    produced (Blockchain.after (Blockchain.validateChain s)).

(** The block [r] at index [i] of [chain] is at its height, sealed, and
    linked to the block before it; the first block has no predecessor. *)
Definition linked (chain : list (option Block.t)) (i : nat) (r : Block.t)
  : Prop :=
  Block.height r = Z.of_nat i
  /\ Block.hash r = Some (Block.digest r)
  /\ match i with
     | O => Block.previousBlockHash r = None
     | S k =>
         exists p, nth_error chain k = Some (Some p)
                   /\ Block.previousBlockHash r = Block.hash p
     end.

(** Every entry of the chain is a linked block. *)
Definition intact (chain : list (option Block.t)) : Prop :=
  forall i, (i < List.length chain)%nat ->
            exists r, nth_error chain i = Some (Some r) /\ linked chain i r.

(** Every block of the chain is at the height of its index. *)
Definition indexed (chain : list (option Block.t)) : Prop :=
  forall i r, nth_error chain i = Some (Some r) -> Block.height r = Z.of_nat i.

(** Two entries that differ in the stored hash at most. *)
Definition sameButHash (x y : option Block.t) : Prop :=
  match x, y with
  | None, None => True
  | Some a, Some b => exists h, b = Block.setHash h a
  | _, _ => False
  end.

(** Entries that are all blocks, at heights counted from [off]. *)
Definition countedFrom (off : nat) (chain : list (option Block.t)) : Prop :=
  forall i e, nth_error chain i = Some e ->
              exists r, e = Some r /\ Block.height r = Z.of_nat (off + i).

(** ** Sample runs *)

Module Sample.

Definition acceptAll (_ _ _ : string) : Blockchain.Verdict :=
  Blockchain.Returns true.

Definition rejectAll (_ _ _ : string) : Blockchain.Verdict :=
  Blockchain.Returns false.

Definition challenge : string := "1A2b:1600000000:starRegistry".

(** A ledger started at second 1600000000. *)
Definition ledger0 : Blockchain.t :=
  Eval vm_compute in Blockchain.constructor 1600000000123.

Definition star1 : Json.Value := Json.Object [("dec", Json.Str "68 52")].

Definition star2 : Json.Value := Json.Object [("dec", Json.Str "-26 29")].

(** One star, submitted 200 seconds after the challenge. *)
Definition submit1 : Blockchain.Run (option Block.t) :=
  Eval vm_compute in
    Blockchain.submitStar acceptAll 1600000200123 1600000200456
      "1A2b" challenge "sig" star1 ledger0.

Definition ledger1 : Blockchain.t :=
  Eval vm_compute in Blockchain.after submit1.

(** A second star. *)
Definition submit2 : Blockchain.Run (option Block.t) :=
  Eval vm_compute in
    Blockchain.submitStar acceptAll 1600000250123 1600000250456
      "1A2b" challenge "sig" star2 ledger1.

Definition ledger2 : Blockchain.t :=
  Eval vm_compute in Blockchain.after submit2.

(** A star whose story ends in a code unit above 127 (233, e with an
    acute accent), submitted to [ledger0]. *)
Definition accented : Json.Value :=
  Json.Object
    [("story", Json.Str (String "c" (String "a" (String "f" (String "233" "")))))].

Definition submitAccented : Blockchain.Run (option Block.t) :=
  Eval vm_compute in
    Blockchain.submitStar acceptAll 1600000200123 1600000200456
      "1A2b" challenge "sig" accented ledger0.

(** [ledger0] after an append at a clock reading of 500 milliseconds,
    which fails. *)
Definition ledgerFailed : Blockchain.t :=
  Eval vm_compute in
    Blockchain.after
      (Blockchain._addBlock 500 (Block.constructor (Json.Str "x")) ledger0).

(** The entry at index [i] of a ledger, with the genesis block of
    [ledger0] as the default. *)
Definition entry (i : nat) (s : Blockchain.t) : Block.t :=
  match nth_error (Blockchain.chain s) i with
  | Some (Some b) => b
  | _ => Block.constructor Blockchain.genesisData
  end.

(** Out-of-band mutation of the entry at index [i]. *)
Definition tamper (i : nat) (f : Block.t -> Block.t) (s : Blockchain.t)
  : Blockchain.t :=
  {| Blockchain.chain :=
       Blockchain.setAt i (Some (f (entry i s))) (Blockchain.chain s);
     Blockchain.height := Blockchain.height s |}.

End Sample.

(** ** Texts and values, for the proofs *)

(** The value of a digit sequence read after [acc]. *)
Fixpoint uintZ (acc : Z) (d : Decimal.uint) : Z :=
  match d with
  | Decimal.Nil => acc
  | Decimal.D0 l => uintZ (acc * 10 + 0) l
  | Decimal.D1 l => uintZ (acc * 10 + 1) l
  | Decimal.D2 l => uintZ (acc * 10 + 2) l
  | Decimal.D3 l => uintZ (acc * 10 + 3) l
  | Decimal.D4 l => uintZ (acc * 10 + 4) l
  | Decimal.D5 l => uintZ (acc * 10 + 5) l
  | Decimal.D6 l => uintZ (acc * 10 + 6) l
  | Decimal.D7 l => uintZ (acc * 10 + 7) l
  | Decimal.D8 l => uintZ (acc * 10 + 8) l
  | Decimal.D9 l => uintZ (acc * 10 + 9) l
  end.

(** What may follow a number in a text. *)
Definition noDigitAhead (rest : string) : Prop :=
  match rest with
  | EmptyString => True
  | String c _ => Json.isDigit c = false
  end.

(** What follows a value that [JSON.stringify] wrote: the end of the
    text, a comma or a closing bracket. *)
Definition delimited (rest : string) : Prop :=
  match rest with
  | EmptyString => True
  | String c _ => c = ","%char \/ c = "]"%char \/ c = "}"%char
  end.

(** The first characters of the texts of values. *)
Definition valueStart (c : ascii) : bool :=
  existsb (Ascii.eqb c)
    ["n"; "t"; "f"; Json.dquote; "["; "{"; "-";
     "0"; "1"; "2"; "3"; "4"; "5"; "6"; "7"; "8"; "9"]%char.

(** The text of an array after its opening bracket, items [x :: xs]. *)
Fixpoint itemsText (x : Json.Value) (xs : list Json.Value) (rest : string)
  : string :=
  Json.stringify x
  ++ match xs with
     | [] => String "]" rest
     | y :: ys => String "," (itemsText y ys rest)
     end.

Definition laterItems (xs : list Json.Value) (rest : string) : string :=
  match xs with
  | [] => String "]" rest
  | y :: ys => String "," (itemsText y ys rest)
  end.

(** The text of an object after the opening quote of its first key,
    members [m :: ms]. *)
Fixpoint membersText (m : string * Json.Value)
    (ms : list (string * Json.Value)) (rest : string) : string :=
  Json.escape (fst m)
  ++ String Json.dquote
       (String ":"
          (Json.stringify (snd m)
           ++ match ms with
              | [] => String "}" rest
              | m' :: ms' =>
                  String "," (String Json.dquote (membersText m' ms' rest))
              end)).

Definition laterMembers (ms : list (string * Json.Value)) (rest : string)
  : string :=
  match ms with
  | [] => String "}" rest
  | m' :: ms' => String "," (String Json.dquote (membersText m' ms' rest))
  end.

Definition nonNul (c : ascii) : bool := 0 <? Js.charCode c.

(** Induction on a value, with the property at hand for the items of an
    array and the members of an object. *)
Section ValueInduction.

Variable P : Json.Value -> Prop.
Hypothesis onNull : P Json.Null.
Hypothesis onBool : forall b, P (Json.Bool b).
Hypothesis onNumber : forall n, P (Json.Number n).
Hypothesis onStr : forall s, P (Json.Str s).
Hypothesis onArray : forall items, Forall P items -> P (Json.Array items).
Hypothesis onObject :
  forall members, Forall (fun m => P (snd m)) members -> P (Json.Object members).

Fixpoint value_ind (v : Json.Value) : P v :=
  match v with
  | Json.Null => onNull
  | Json.Bool b => onBool b
  | Json.Number n => onNumber n
  | Json.Str s => onStr s
  | Json.Array items =>
      onArray items
        ((fix all (l : list Json.Value) : Forall P l :=
            match l with
            | [] => Forall_nil P
            | x :: r => Forall_cons x (value_ind x) (all r)
            end) items)
  | Json.Object members =>
      onObject members
        ((fix all (l : list (string * Json.Value))
            : Forall (fun m => P (snd m)) l :=
            match l with
            | [] => Forall_nil _
            | m :: r => Forall_cons m (value_ind (snd m)) (all r)
            end) members)
  end.

End ValueInduction.

(** ** Decimal texts, for the proofs *)

(** The number a text of decimal digits denotes, read after [acc]. *)
Fixpoint decimalValue (acc : Z) (s : string) : Z :=
  match s with
  | EmptyString => acc
  | String c r => decimalValue (acc * 10 + (Js.charCode c - 48)) r
  end.

(** [s.slice(n)]: the text without its first [n] code units. *)
Fixpoint drop (n : nat) (s : string) : string :=
  match n, s with
  | O, _ => s
  | S _, EmptyString => EmptyString
  | S k, String _ r => drop k r
  end.

Definition notColon (c : ascii) : bool := negb (Ascii.eqb c ":").

(** ** Ledgers and their submissions, for the proofs *)

(** The body of the record for a star. *)
Definition starData (star : Json.Value) : Json.Value :=
  Json.Object [("star", star)].

(** The candidate [submitStar] hands to [_addBlock]. *)
Definition starCandidate (address : string) (star : Json.Value) : Block.t :=
  Block.setOwner (Some address) (Block.constructor (starData star)).

(** The ledgers made of a genesis record and of the records of a list
    of submissions, each by an address for a star whose text has no
    character above 127, in the order of the list. *)
Inductive registered : Blockchain.t -> list (string * Json.Value) -> Prop :=
| registered_new (now : Z) (genesis : Block.t) :
    appended
      (Blockchain._addBlock now (Block.constructor Blockchain.genesisData)
         Blockchain.empty) genesis ->
    registered (Blockchain.constructor now) []
| registered_submit (s : Blockchain.t) (history : list (string * Json.Value))
    (stamp : Z) (address : string) (star : Json.Value) (sealed : Block.t) :
    registered s history ->
    Json.wellFormed star = true ->
    Bytes.isAscii (Json.stringify (starData star)) = true ->
    appended (Blockchain._addBlock stamp (starCandidate address star) s) sealed ->
    registered
      (Blockchain.after (Blockchain._addBlock stamp (starCandidate address star) s))
      (history ++ [(address, star)]).

(** No entry of the chain is [undefined]. *)
Definition allBlocks (chain : list (option Block.t)) : Prop :=
  Forall (fun e => e <> None) chain.

Definition isInvalidLink (e : Error) : Prop :=
  match e with
  | InvalidLink _ => True
  | _ => False
  end.

(** The stars of an address in a list of submissions, as the records
    hold them. *)
Definition starsOf (address : string) (history : list (string * Json.Value))
  : list Json.Value :=
  map (fun p => starData (snd p))
    (filter (fun p => String.eqb (fst p) address) history).

(** The record [r] holds the submission [p]. *)
Definition holds (r : Block.t) (p : string * Json.Value) : Prop :=
  Block.owner r = Some (fst p)
  /\ Block.body r = Block.encode (starData (snd p))
  /\ Json.wellFormed (snd p) = true
  /\ Bytes.isAscii (Json.stringify (starData (snd p))) = true.

(** Every entry of the chain is a block that has its digest as stored
    hash. *)
Definition resealed (chain : list (option Block.t)) : Prop :=
  forall i, (i < List.length chain)%nat ->
            exists b, nth_error chain i = Some (Some b)
                      /\ Block.hash b = Some (Block.digest b).

(** * Properties *)

(** Splits a conjunction into its parts, and nothing else. *)
Ltac conjuncts :=
  repeat match goal with
         | |- _ /\ _ => split
         end.

(** Settles a closed equation by evaluation. *)
Ltac evaluate := vm_compute; reflexivity.

(** Replaces a closed term by its value, evaluated once. *)
Ltac evaluated t :=
  let v := eval vm_compute in t in
  replace t with v by (vm_compute; reflexivity).

(** ** The digest *)

(** Three of the test vectors of SHA-256. *)
Example SHA256_empty :
  SHA256 ""
  = "e3b0c44298fc1c149afbf4c8996fb92427ae41e4649b934ca495991b7852b855".
Proof. evaluate. Qed.

Example SHA256_abc :
  SHA256 "abc"
  = "ba7816bf8f01cfea414140de5dae2223b00361a396177a9cb410ff61f20015ad".
Proof. evaluate. Qed.

Example SHA256_two_blocks :
  SHA256 "abcdbcdecdefdefgefghfghighijhijkijkljklmklmnlmnomnopnopq"
  = "248d6a61d20638b8e5c026930c3e6039a33ce45964ff2167f6ecedd419db06c1".
Proof. evaluate. Qed.

(** A digest has 64 characters, whatever the text. *)
Lemma SHA256_length (text : string) : String.length (SHA256 text) = 64%nat.
Proof. unfold SHA256. now destruct (Sha256.hash (Bytes.utf8 text)). Qed.

(** ** The sample runs *)

Lemma ledger0_eq : Sample.ledger0 = Blockchain.constructor 1600000000123.
Proof. evaluate. Qed.

Lemma ledger1_eq :
  Sample.ledger1
  = Blockchain.after
      (Blockchain.submitStar Sample.acceptAll 1600000200123 1600000200456
         "1A2b" Sample.challenge "sig" Sample.star1 Sample.ledger0).
Proof. evaluate. Qed.

Lemma ledger2_eq :
  Sample.ledger2
  = Blockchain.after
      (Blockchain.submitStar Sample.acceptAll 1600000250123 1600000250456
         "1A2b" Sample.challenge "sig" Sample.star2 Sample.ledger1).
Proof. evaluate. Qed.

Lemma submitAccented_eq :
  Sample.submitAccented
  = Blockchain.submitStar Sample.acceptAll 1600000200123 1600000200456
      "1A2b" Sample.challenge "sig" Sample.accented Sample.ledger0.
Proof. evaluate. Qed.

(** ** The block and its hash *)

Lemma sameHash_true (x y : option string) :
  Block.sameHash x y = true <-> x = y.
Proof.
  destruct x as [a|], y as [b|]; simpl; split; intro H;
    try discriminate; try reflexivity.
  - apply String.eqb_eq in H. now subst.
  - injection H as ->. apply String.eqb_refl.
Qed.

Lemma sameHash_refl (x : option string) : Block.sameHash x x = true.
Proof. now apply sameHash_true. Qed.

(** The recomputed digest does not read the stored hash. *)
Lemma digest_setHash (x : option string) (b : Block.t) :
  Block.digest (Block.setHash x b) = Block.digest b.
Proof. reflexivity. Qed.

(** [validate] writes the [hash] property and no other. *)
Lemma validate_frame (b : Block.t) :
  fst (Block.validate b) = Block.setHash (Some (Block.digest b)) b
  /\ snd (Block.validate b) = Block.sameHash (Block.hash b) (Some (Block.digest b)).
Proof. split; reflexivity. Qed.

(** On a block whose stored hash is its digest, [validate] answers true
    and changes nothing. *)
Lemma validate_sealed (b : Block.t) :
  Block.hash b = Some (Block.digest b) -> Block.validate b = (b, true).
Proof.
  intro H. unfold Block.validate.
  cbn [Block.setHash Block.hash]. rewrite H at 1. rewrite sameHash_refl.
  f_equal. destruct b; cbn in *. now rewrite <- H.
Qed.

(** C9.  After [validate] the stored hash is the digest of the block
    with its hash cleared, whatever the block was before; a second
    [validate] therefore answers true and changes nothing more. *)
Theorem validate_reseals (b : Block.t) :
  let checked := fst (Block.validate b) in
  Block.hash checked = Some (Block.digest checked)
  /\ Block.validate checked = (checked, true).
Proof.
  cbv zeta.
  assert (H : Block.hash (fst (Block.validate b))
              = Some (Block.digest (fst (Block.validate b)))).
  { cbn [Block.validate fst]. now rewrite digest_setHash. }
  split; [exact H | now apply validate_sealed].
Qed.

(** [validate] answers false exactly when it replaces the stored hash
    by another one. *)
Lemma validate_false_iff_overwrites (b : Block.t) :
  snd (Block.validate b) = false
  <-> Block.hash (fst (Block.validate b)) <> Block.hash b.
Proof.
  destruct (validate_frame b) as [-> ->]. cbn [Block.setHash Block.hash].
  split.
  - intros F E. rewrite <- E, sameHash_refl in F. discriminate F.
  - intros N. destruct (Block.sameHash _ _) eqn:E; [| reflexivity].
    apply sameHash_true in E. now elim N.
Qed.

(** C1.  The star of [ledger1] with its body overwritten out of band:
    [validate] answers false and replaces the stored hash by the digest
    of the altered content, so that the next [validate] answers true. *)
Theorem validate_overwrites_hash :
  let sealed := Sample.entry 1 Sample.ledger1 in
  let altered := Block.setBody "7b7d" sealed in
  Block.hash sealed = Some (Block.digest sealed)
  /\ snd (Block.validate altered) = false
  /\ Block.hash (fst (Block.validate altered)) <> Block.hash altered
  /\ snd (Block.validate (fst (Block.validate altered))) = true.
Proof.
  cbv zeta.
  match goal with |- context [snd ?v = false] => evaluated v end.
  conjuncts; try evaluate. discriminate.
Qed.

(** ** Appending *)

(** [_addBlock] never rejects and always pushes one entry: the sealed
    block, or [undefined] when the structural check fails. *)
Lemma addBlock_pushes (now : Z) (block : Block.t) (self : Blockchain.t) :
  let run := Blockchain._addBlock now block self in
  exists entry,
    Blockchain.settled run = Resolved entry
    /\ Blockchain.chain (Blockchain.after run)
       = (Blockchain.chain self ++ [entry])%list
    /\ Blockchain.height (Blockchain.after run)
       = Z.of_nat (List.length (Blockchain.chain self)).
Proof.
  cbv zeta. unfold Blockchain._addBlock.
  match goal with |- context [if ?c then _ else _] => destruct c end;
    eexists; cbn [Blockchain.settled Blockchain.after Blockchain.chain
                  Blockchain.height];
    (split; [reflexivity | split; [reflexivity |]]);
    rewrite length_app; cbn [List.length]; lia.
Qed.

(** The structural check of [_addBlock] fails exactly when the time
    stamp is the empty string, that is when the clock reading has at
    most three characters. *)
Lemma addBlock_fails_on_empty_time (now : Z) (block : Block.t)
    (self : Blockchain.t) :
  Blockchain.settled (Blockchain._addBlock now block self) = Resolved None
  <-> Js.slice_0_minus3 (Js.toString now) = "".
Proof.
  unfold Blockchain._addBlock.
  cbn [Block.setHash Block.setTime Block.setHeight Block.height Block.time].
  match goal with
  | |- context [SHA256 ?text] =>
      pose proof (SHA256_length text) as L; destruct (SHA256 text) as [|c r]
  end; [discriminate L |].
  cbn [Js.truthy andb]. rewrite L, !Z.eqb_refl. cbn [andb].
  destruct (Js.slice_0_minus3 (Js.toString now));
    cbn [Js.truthy Blockchain.settled]; split; intro H;
    try reflexivity; discriminate H.
Qed.

(** What a successful append hands back. *)
Lemma addBlock_sealed (now : Z) (block sealed : Block.t) (self : Blockchain.t) :
  appended (Blockchain._addBlock now block self) sealed ->
  Block.height sealed = Z.of_nat (List.length (Blockchain.chain self))
  /\ Block.previousBlockHash sealed
     = match Blockchain.blockAt (Blockchain.chain self)
               (Z.of_nat (List.length (Blockchain.chain self)) - 1) with
       | Some previous => Block.hash previous
       | None => None
       end
  /\ Block.hash sealed
     = Some (SHA256 (Json.stringify
                       (Block.toJson (Block.setHash (Block.hash block) sealed))))
  /\ Blockchain.chain (Blockchain.after (Blockchain._addBlock now block self))
     = (Blockchain.chain self ++ [Some sealed])%list.
Proof.
  unfold appended, Blockchain._addBlock.
  match goal with |- context [if ?c then _ else _] => destruct c end;
    cbn [Blockchain.settled Blockchain.after Blockchain.chain]; intro H;
    [injection H as <- | discriminate].
  repeat split.
Qed.

(** A successful append of an unsealed candidate seals it: the stored
    hash is the digest of the block with its hash cleared. *)
Lemma addBlock_seals (now : Z) (block sealed : Block.t) (self : Blockchain.t) :
  unsealed block ->
  appended (Blockchain._addBlock now block self) sealed ->
  Block.hash sealed = Some (Block.digest sealed).
Proof.
  intros U A. apply addBlock_sealed in A as (_ & _ & H & _).
  now rewrite U in H.
Qed.

(** C3.  An append whose structural check fails: on [ledger0], at a
    clock reading of 500 milliseconds, the time stamp is the empty
    string.  The promise is not rejected but resolves with [undefined],
    which is pushed on the chain, and the height advances. *)
Theorem addBlock_failure_is_swallowed :
  let candidate := Block.constructor (Json.Object [("star", Json.Str "x")]) in
  let run := Blockchain._addBlock 500 candidate Sample.ledger0 in
  Blockchain.settled run = Resolved None
  /\ Blockchain.events run = [ConsoleError CannotAddInvalidBlock]
  /\ Blockchain.chain (Blockchain.after run)
     = (Blockchain.chain Sample.ledger0 ++ [None])%list
  /\ Blockchain.height Sample.ledger0 = 0
  /\ Blockchain.height (Blockchain.after run) = 1.
Proof.
  cbv zeta.
  match goal with |- context [Blockchain.settled ?run] => evaluated run end.
  conjuncts; reflexivity.
Qed.

(** ** Submitting a star *)


(** The time-out test is true from 300 seconds on: the promise is then
    rejected with the time-out error, which does not stop the method. *)
Lemma submitStar_timeout_rejects
    (verify : string -> string -> string -> Blockchain.Verdict)
    (now stamp : Z) (address message signature : string) (star : Json.Value)
    (self : Blockchain.t) (issued current : Z) :
  Js.parseInt (Js.index (Js.split ":" message) 1) = Some issued ->
  Js.parseInt (Some (Js.slice_0_minus3 (Js.toString now))) = Some current ->
  5 * 60 <= current - issued ->
  Blockchain.settled
    (Blockchain.submitStar verify now stamp address message signature star self)
  = Rejected TimedOut.
Proof.
  intros I C L. unfold Blockchain.submitStar. rewrite I, C.
  cbn [Js.sub Js.geb]. destruct (Z.leb_spec (5 * 60) (current - issued)); [| lia].
  now destruct (verify message address signature).
Qed.

(** C2.  A submission 300 seconds after the challenge was issued, on
    [ledger0], whatever the verifier answers: the promise is rejected
    with the time-out error, but the verifier was called, a block was
    appended and the height went from 0 to 1. *)
Theorem submitStar_expired_still_appends (valid : bool) :
  let verify := fun _ _ _ : string => Blockchain.Returns valid in
  let run :=
    Blockchain.submitStar verify 1600000300123 1600000300456
      "1A2b" Sample.challenge "sig" Sample.star1 Sample.ledger0 in
  Blockchain.settled run = Rejected TimedOut
  /\ Blockchain.events run = [Verify Sample.challenge "1A2b" "sig"]
  /\ List.length (Blockchain.chain Sample.ledger0) = 1%nat
  /\ List.length (Blockchain.chain (Blockchain.after run)) = 2%nat
  /\ Blockchain.height Sample.ledger0 = 0
  /\ Blockchain.height (Blockchain.after run) = 1
  /\ exists b, nth_error (Blockchain.chain (Blockchain.after run)) 1
               = Some (Some b)
               /\ Block.owner b = Some "1A2b".
Proof.
  cbv zeta. destruct valid;
    match goal with |- context [Blockchain.settled ?run] => evaluated run end;
    conjuncts; try reflexivity; eexists; split; reflexivity.
Qed.

(** C10.  When the second field of the message is no integer for
    [parseInt], the time-out test is false whatever the clock says: the
    promise is never rejected with the time-out error, the verifier is
    called first of all, and its answer alone decides between the
    rejection for an invalid message and the append. *)
Theorem submitStar_nan_never_expires
    (verify : string -> string -> string -> Blockchain.Verdict)
    (now stamp : Z) (address message signature : string) (star : Json.Value)
    (self : Blockchain.t) :
  Js.parseInt (Js.index (Js.split ":" message) 1) = None ->
  let run :=
    Blockchain.submitStar verify now stamp address message signature star self in
  Blockchain.settled run <> Rejected TimedOut
  /\ (exists later,
        Blockchain.events run = Verify message address signature :: later)
  /\ match verify message address signature with
     | Blockchain.Returns true =>
         exists entry, Blockchain.settled run = Resolved entry
     | Blockchain.Returns false =>
         Blockchain.settled run = Rejected InvalidMessage
     | Blockchain.Throws => Blockchain.settled run = Pending
     end.
Proof.
  intros NaN. cbv zeta. unfold Blockchain.submitStar. rewrite NaN.
  assert (G : forall a, Js.geb (Js.sub a None) (5 * 60) = false)
    by (now intros [x|]).
  rewrite G.
  destruct (verify message address signature) as [[|]|];
    cbn [Blockchain.settled Blockchain.events negb].
  - destruct (addBlock_pushes stamp
                (Block.setOwner (Some address)
                   (Block.constructor (Json.Object [("star", star)]))) self)
      as (entry & E & _).
    rewrite E. repeat split; try discriminate; eauto.
  - repeat split; try discriminate; eauto.
  - repeat split; try discriminate; eauto.
Qed.

Lemma submitStar_nan_never_expires_witness :
  Js.parseInt (Js.index (Js.split ":" "1A2b:soon:starRegistry") 1) = None
  /\ Blockchain.settled
       (Blockchain.submitStar Sample.rejectAll 1600099999123 1600099999456
          "1A2b" "1A2b:soon:starRegistry" "sig" (Json.Str "x") Sample.ledger0)
     <> Rejected TimedOut.
Proof.
  split; [reflexivity |].
  apply (submitStar_nan_never_expires Sample.rejectAll 1600099999123
           1600099999456 "1A2b" "1A2b:soon:starRegistry" "sig" (Json.Str "x")
           Sample.ledger0).
  reflexivity.
Defined.

(** ** Invariants of the ledger *)

Lemma constructor_is_append (now : Z) :
  Blockchain.constructor now
  = Blockchain.after
      (Blockchain._addBlock now (Block.constructor Blockchain.genesisData)
         Blockchain.empty).
Proof. reflexivity. Qed.

Lemma intact_push (chain : list (option Block.t)) (r : Block.t) :
  intact chain ->
  linked chain (List.length chain) r ->
  intact (chain ++ [Some r]).
Proof.
  intros I L i Hi. rewrite length_app in Hi. cbn in Hi.
  assert (W : forall k p, nth_error chain k = Some (Some p) ->
                          nth_error (chain ++ [Some r]) k = Some (Some p)).
  { intros k p E. rewrite nth_error_app1; [exact E |].
    apply nth_error_Some. now rewrite E. }
  assert (M : forall k x, linked chain k x -> linked (chain ++ [Some r]) k x).
  { intros k x (A & B & C). repeat split; trivial.
    destruct k as [|k]; [exact C |].
    destruct C as (p & E & F). exists p. split; [now apply W | exact F]. }
  destruct (Nat.eq_dec i (List.length chain)) as [->|N].
  - exists r. split.
    + rewrite nth_error_app2 by lia. now rewrite Nat.sub_diag.
    + now apply M.
  - destruct (I i) as (x & E & L'); [lia |].
    exists x. split; [now apply W | now apply M].
Qed.

(** The block a successful append of an unsealed candidate produces is
    linked to an intact chain. *)
Lemma addBlock_linked (now : Z) (block sealed : Block.t) (self : Blockchain.t) :
  intact (Blockchain.chain self) ->
  unsealed block ->
  appended (Blockchain._addBlock now block self) sealed ->
  linked (Blockchain.chain self) (List.length (Blockchain.chain self)) sealed.
Proof.
  intros I U A. pose proof (addBlock_seals _ _ _ _ U A) as Sealed.
  apply addBlock_sealed in A as (H & P & _ & _).
  repeat split; trivial.
  destruct (List.length (Blockchain.chain self)) as [|k] eqn:L.
  - rewrite P. reflexivity.
  - destruct (I k) as (p & E & _); [lia |].
    exists p. split; [exact E |]. rewrite P.
    unfold Blockchain.blockAt.
    replace (Z.of_nat (S k) - 1) with (Z.of_nat k) by lia.
    destruct (Z.ltb_spec (Z.of_nat k) 0); [lia |].
    now rewrite Nat2Z.id, E.
Qed.

Lemma reachable_intact (s : Blockchain.t) :
  reachable s ->
  intact (Blockchain.chain s)
  /\ Blockchain.height s = Z.of_nat (List.length (Blockchain.chain s)) - 1.
Proof.
  induction 1 as [now g A | s now c b R [I H] U A].
  - rewrite constructor_is_append.
    assert (I0 : intact (Blockchain.chain Blockchain.empty))
      by (intros i Hi; cbn in Hi; lia).
    assert (U : unsealed (Block.constructor Blockchain.genesisData))
      by reflexivity.
    pose proof (addBlock_linked _ _ _ _ I0 U A) as L.
    destruct (addBlock_pushes now (Block.constructor Blockchain.genesisData)
                Blockchain.empty) as (e & _ & C & T).
    apply addBlock_sealed in A as (_ & _ & _ & C').
    split.
    + rewrite C'. now apply intact_push.
    + rewrite T, C'. now rewrite length_app.
  - pose proof (addBlock_linked _ _ _ _ I U A) as L.
    destruct (addBlock_pushes now c s) as (e & _ & C & T).
    apply addBlock_sealed in A as (_ & _ & _ & C').
    split.
    + rewrite C'. now apply intact_push.
    + rewrite T, C', length_app. cbn. lia.
Qed.

(** C4.  In a ledger reached by successful appends, the record at each
    height [h] is sealed (its stored hash is the digest of its content
    with the hash cleared); the genesis record has no previous hash and
    every later record carries the hash of the record at height [h - 1]. *)
Theorem reachable_chain_is_linked (s : Blockchain.t) (h : nat) :
  reachable s ->
  (h < List.length (Blockchain.chain s))%nat ->
  exists r,
    nth_error (Blockchain.chain s) h = Some (Some r)
    /\ Block.height r = Z.of_nat h
    /\ Block.hash r = Some (Block.digest r)
    /\ (h = 0%nat -> Block.previousBlockHash r = None)
    /\ ((0 < h)%nat ->
        exists p,
          Blockchain.blockAt (Blockchain.chain s) (Z.of_nat h - 1) = Some p
          /\ Block.previousBlockHash r = Block.hash p).
Proof.
  intros R Hh. destruct (reachable_intact s R) as [I _].
  destruct (I h Hh) as (r & E & A & B & C).
  exists r. repeat split; trivial.
  - intros ->. exact C.
  - intros P. destruct h as [|k]; [lia |].
    destruct C as (p & Ep & F). exists p. split; [| exact F].
    unfold Blockchain.blockAt.
    replace (Z.of_nat (S k) - 1) with (Z.of_nat k) by lia.
    destruct (Z.ltb_spec (Z.of_nat k) 0); [lia |].
    now rewrite Nat2Z.id, Ep.
Qed.

(** A submission the verifier lets through and [_addBlock] accepts is
    a successful append of an unsealed candidate. *)
Lemma submitStar_reachable
    (verify : string -> string -> string -> Blockchain.Verdict)
    (now stamp : Z) (address message signature : string) (star : Json.Value)
    (s : Blockchain.t) (valid : bool) (sealed : Block.t) :
  reachable s ->
  verify message address signature = Blockchain.Returns valid ->
  appended
    (Blockchain._addBlock stamp
       (Block.setOwner (Some address)
          (Block.constructor (Json.Object [("star", star)]))) s) sealed ->
  reachable
    (Blockchain.after
       (Blockchain.submitStar verify now stamp address message signature star s)).
Proof.
  intros R V A. unfold Blockchain.submitStar. rewrite V.
  cbn [Blockchain.after].
  now apply (reach_append s stamp _ sealed).
Qed.

Lemma ledger0_reachable : reachable Sample.ledger0.
Proof.
  rewrite ledger0_eq.
  apply (reach_new 1600000000123 (Sample.entry 0 Sample.ledger0)).
  evaluate.
Qed.

Lemma ledger1_reachable : reachable Sample.ledger1.
Proof.
  rewrite ledger1_eq.
  apply (submitStar_reachable _ _ _ _ _ _ _ _ true
           (Sample.entry 1 Sample.ledger1) ledger0_reachable).
  - reflexivity.
  - evaluate.
Qed.

Lemma ledger2_reachable : reachable Sample.ledger2.
Proof.
  rewrite ledger2_eq.
  apply (submitStar_reachable _ _ _ _ _ _ _ _ true
           (Sample.entry 2 Sample.ledger2) ledger1_reachable).
  - reflexivity.
  - evaluate.
Qed.

Lemma reachable_chain_is_linked_witness :
  exists r,
    nth_error (Blockchain.chain Sample.ledger2) 2 = Some (Some r)
    /\ Block.height r = 2
    /\ Block.hash r = Some (Block.digest r)
    /\ (2%nat = 0%nat -> Block.previousBlockHash r = None)
    /\ ((0 < 2)%nat ->
        exists p,
          Blockchain.blockAt (Blockchain.chain Sample.ledger2) (2 - 1) = Some p
          /\ Block.previousBlockHash r = Block.hash p).
Proof.
  apply (reachable_chain_is_linked Sample.ledger2 2 ledger2_reachable).
  vm_compute. reflexivity.
Defined.

(** ** Height and length *)

Lemma indexed_push (chain : list (option Block.t)) (e : option Block.t) :
  indexed chain ->
  (forall r, e = Some r -> Block.height r = Z.of_nat (List.length chain)) ->
  indexed (chain ++ [e]).
Proof.
  intros I E i r N.
  destruct (Nat.lt_ge_cases i (List.length chain)) as [L|G].
  - rewrite nth_error_app1 in N by exact L. now apply I.
  - rewrite nth_error_app2 in N by exact G.
    destruct (i - List.length chain)%nat as [|k] eqn:D; cbn in N.
    + injection N as ->. replace i with (List.length chain) by lia.
      now apply E.
    + now destruct k.
Qed.

Lemma addBlock_indexed (now : Z) (block : Block.t) (self : Blockchain.t) :
  indexed (Blockchain.chain self) ->
  indexed (Blockchain.chain (Blockchain.after (Blockchain._addBlock now block self))).
Proof.
  intros I. destruct (addBlock_pushes now block self) as (e & S & C & _).
  rewrite C. apply indexed_push; [exact I |].
  intros r ->. now apply (addBlock_sealed now block r self).
Qed.

Lemma sameButHash_refl (x : option Block.t) : sameButHash x x.
Proof. destruct x as [b|]; cbn; [| exact I]. exists (Block.hash b). now destruct b. Qed.

Lemma sameButHash_trans (x y z : option Block.t) :
  sameButHash x y -> sameButHash y z -> sameButHash x z.
Proof.
  destruct x as [a|], y as [b|], z as [c|]; cbn; try tauto.
  intros [h ->] [k ->]. now exists k.
Qed.

Lemma Forall2_sameButHash_refl (chain : list (option Block.t)) :
  Forall2 sameButHash chain chain.
Proof. induction chain; constructor; auto using sameButHash_refl. Qed.

Lemma Forall2_sameButHash_trans (a b c : list (option Block.t)) :
  Forall2 sameButHash a b -> Forall2 sameButHash b c -> Forall2 sameButHash a c.
Proof.
  intros H. revert c. induction H as [|x y l l' R _ IH]; intros c K;
    inversion K; subst; constructor; eauto using sameButHash_trans.
Qed.

Lemma setAt_sameButHash (chain : list (option Block.t)) (i : nat)
    (r : Block.t) (h : option string) :
  nth_error chain i = Some (Some r) ->
  Forall2 sameButHash chain (Blockchain.setAt i (Some (Block.setHash h r)) chain).
Proof.
  revert i. induction chain as [|x chain IH]; intros [|i] E; cbn in *;
    try discriminate.
  - injection E as ->. constructor; [now exists h |].
    apply Forall2_sameButHash_refl.
  - constructor; [apply sameButHash_refl | now apply IH].
Qed.

Lemma sameButHash_nth (a b : list (option Block.t)) (i : nat)
    (y : option Block.t) :
  Forall2 sameButHash a b ->
  nth_error b i = Some y ->
  exists x, nth_error a i = Some x /\ sameButHash x y.
Proof.
  intros F. revert i. induction F as [|x0 y0 l l' R F IH]; intros [|i] E;
    cbn in *; try discriminate.
  - injection E as ->. eauto.
  - now apply IH.
Qed.

Lemma sameButHash_indexed (a b : list (option Block.t)) :
  Forall2 sameButHash a b -> indexed a -> indexed b.
Proof.
  intros F I i r E.
  destruct (sameButHash_nth a b i (Some r) F E) as ([x|] & Ex & R);
    cbn in R; [| contradiction].
  destruct R as [h ->]. cbn. now apply I.
Qed.

Lemma visit_sameButHash (i : nat) (s : Blockchain.Scan) :
  Forall2 sameButHash (Blockchain.blocks s)
    (Blockchain.blocks (Blockchain.scanOf (Blockchain.visit i s))).
Proof.
  unfold Blockchain.visit.
  destruct (nth_error (Blockchain.blocks s) i) as [[r|]|] eqn:E;
    try apply Forall2_sameButHash_refl.
  cbn [Block.validate].
  pose proof (setAt_sameButHash _ i r (Some (Block.digest r)) E) as F.
  repeat match goal with
         | |- context [if ?c then _ else _] => destruct c
         | |- context [match Blockchain.filterHeight ?h ?c with _ => _ end] =>
             destruct (Blockchain.filterHeight h c) as [[|? ?]|]
         end; exact F.
Qed.

Lemma scan_sameButHash (indices : list nat) (s : Blockchain.Scan) :
  Forall2 sameButHash (Blockchain.blocks s)
    (Blockchain.blocks (Blockchain.scanOf (Blockchain.scan indices s))).
Proof.
  revert s. induction indices as [|i rest IH]; intros s; cbn.
  - apply Forall2_sameButHash_refl.
  - pose proof (visit_sameButHash i s) as V.
    destruct (Blockchain.visit i s) as [s'|s']; cbn in V |- *; [| exact V].
    eapply Forall2_sameButHash_trans; [exact V | apply IH].
Qed.

Lemma validateChain_after (s : Blockchain.t) :
  Blockchain.after (Blockchain.validateChain s)
  = {| Blockchain.chain :=
         Blockchain.blocks
           (Blockchain.scanOf
              (Blockchain.scan (seq 0 (List.length (Blockchain.chain s)))
                 (Blockchain.mkScan (Blockchain.chain s) [])));
       Blockchain.height := Blockchain.height s |}.
Proof.
  unfold Blockchain.validateChain.
  now destruct (Blockchain.scan _ _).
Qed.

(** Whatever the calls, the height is the index of the last entry and
    every block sits at the index of its height. *)
Lemma produced_indexed (s : Blockchain.t) :
  produced s ->
  Blockchain.height s = Z.of_nat (List.length (Blockchain.chain s)) - 1
  /\ indexed (Blockchain.chain s).
Proof.
  induction 1 as [| s now P [H I] | s verify now stamp a m g star P [H I]
                 | s P [H I]].
  - split; [reflexivity |]. intros [|i] r E; discriminate.
  - unfold Blockchain.initializeChain.
    destruct (Blockchain.height s =? -1); cbn [Blockchain.after]; [| now split].
    destruct (addBlock_pushes now (Block.constructor Blockchain.genesisData) s)
      as (e & _ & C & T).
    split; [| now apply addBlock_indexed].
    rewrite T, C, length_app. cbn. lia.
  - unfold Blockchain.submitStar.
    destruct (verify m a g); cbn [Blockchain.after]; [| now split].
    match goal with
    | |- context [Blockchain._addBlock stamp ?b s] =>
        destruct (addBlock_pushes stamp b s) as (e & _ & C & T)
    end.
    split; [| now apply addBlock_indexed].
    rewrite T, C, length_app. cbn. lia.
  - rewrite validateChain_after. cbn [Blockchain.chain Blockchain.height].
    pose proof (scan_sameButHash (seq 0 (List.length (Blockchain.chain s)))
                  (Blockchain.mkScan (Blockchain.chain s) [])) as F.
    cbn [Blockchain.blocks] in F.
    split.
    + rewrite <- (Forall2_length F). exact H.
    + now apply (sameButHash_indexed _ _ F).
Qed.


Lemma ledger1_produced : produced Sample.ledger1.
Proof.
  rewrite ledger1_eq, ledger0_eq.
  exact (produced_submit _ _ _ _ _ _ _ _
           (produced_initialize _ _ produced_empty)).
Qed.


(** ** Validating the chain *)

Lemma countedFrom_tail (off : nat) (e : option Block.t)
    (chain : list (option Block.t)) :
  countedFrom off (e :: chain) -> countedFrom (S off) chain.
Proof.
  intros C i x E. destruct (C (S i) x E) as (r & -> & H).
  exists r. split; [reflexivity |]. rewrite H. f_equal. lia.
Qed.

Lemma filterHeight_below (off : nat) (chain : list (option Block.t)) (h : Z) :
  countedFrom off chain -> h < Z.of_nat off ->
  Blockchain.filterHeight h chain = Some [].
Proof.
  revert off. induction chain as [|e chain IH]; intros off C L; [reflexivity |].
  destruct (C 0%nat e eq_refl) as (r & -> & H). cbn.
  rewrite (IH (S off)); [| now apply countedFrom_tail in C | lia].
  destruct (Z.eqb_spec (Block.height r) h); [lia | reflexivity].
Qed.

Lemma filterHeight_found (off k : nat) (chain : list (option Block.t))
    (p : Block.t) :
  countedFrom off chain ->
  nth_error chain k = Some (Some p) ->
  Blockchain.filterHeight (Z.of_nat (off + k)) chain = Some [p].
Proof.
  revert off k. induction chain as [|e chain IH]; intros off k C E.
  - now destruct k.
  - destruct (C 0%nat e eq_refl) as (r & -> & H).
    pose proof (countedFrom_tail _ _ _ C) as C'.
    destruct k as [|k]; cbn in E |- *.
    + injection E as ->.
      rewrite (filterHeight_below (S off)); [| exact C' | lia].
      now rewrite H, Z.eqb_refl.
    + replace (off + S k)%nat with (S off + k)%nat by lia.
      rewrite (IH (S off) k C' E).
      destruct (Z.eqb_spec (Block.height r) (Z.of_nat (S off + k)));
        [lia | reflexivity].
Qed.

Lemma intact_counted (chain : list (option Block.t)) :
  intact chain -> countedFrom 0 chain.
Proof.
  intros I i e E.
  destruct (I i) as (r & E' & H & _); [apply nth_error_Some; now rewrite E |].
  rewrite E' in E. injection E as <-. now exists r.
Qed.

(** In a ledger reached by successful appends, [getBlockByHeight]
    resolves with the record at the index of the height. *)
Lemma getBlockByHeight_reachable (s : Blockchain.t) (h : nat) (r : Block.t) :
  reachable s ->
  nth_error (Blockchain.chain s) h = Some (Some r) ->
  Blockchain.getBlockByHeight (Z.of_nat h) s = Resolved (Some r).
Proof.
  intros R E. destruct (reachable_intact s R) as [I _].
  unfold Blockchain.getBlockByHeight.
  pose proof (filterHeight_found 0 h _ r (intact_counted _ I) E) as F.
  cbn [Nat.add] in F. now rewrite F.
Qed.

Lemma setAt_same (chain : list (option Block.t)) (i : nat)
    (x : option Block.t) :
  nth_error chain i = Some x -> Blockchain.setAt i x chain = chain.
Proof.
  revert i. induction chain as [|y chain IH]; intros [|i] E; cbn in *;
    try discriminate.
  - now injection E as ->.
  - now rewrite IH.
Qed.

(** On an intact chain a turn of the loop changes nothing and logs
    nothing. *)
Lemma visit_intact (chain : list (option Block.t)) (log : list Error) (i : nat) :
  intact chain -> (i < List.length chain)%nat ->
  Blockchain.visit i (Blockchain.mkScan chain log)
  = Blockchain.Continue (Blockchain.mkScan chain log).
Proof.
  intros I L. destruct (I i L) as (r & E & H & Sealed & P).
  unfold Blockchain.visit. cbn [Blockchain.blocks Blockchain.errorLog].
  rewrite E, (validate_sealed r Sealed), (setAt_same _ _ _ E).
  destruct i as [|k].
  - rewrite H. reflexivity.
  - destruct P as (p & Ep & Link).
    destruct (Z.gtb_spec (Block.height r) 0); [| lia].
    replace (Block.height r - 1) with (Z.of_nat (0 + k)) by lia.
    rewrite (filterHeight_found 0 k chain p (intact_counted _ I) Ep).
    rewrite Link, sameHash_refl. reflexivity.
Qed.

Lemma scan_intact (chain : list (option Block.t)) (log : list Error)
    (indices : list nat) :
  intact chain ->
  Forall (fun i => (i < List.length chain)%nat) indices ->
  Blockchain.scan indices (Blockchain.mkScan chain log)
  = Blockchain.Continue (Blockchain.mkScan chain log).
Proof.
  intros I F. induction F as [|i rest L _ IH]; [reflexivity |].
  cbn. now rewrite (visit_intact _ _ _ I L).
Qed.

(** Whatever the ledger, a list [validateChain] resolves with is not
    empty: it is the log of the whole loop. *)
Lemma validateChain_list_nonempty (s : Blockchain.t) (errors : list Error) :
  Blockchain.settled (Blockchain.validateChain s)
  = Resolved (Blockchain.Errors errors) ->
  errors <> []
  /\ Blockchain.scan (seq 0 (List.length (Blockchain.chain s)))
       (Blockchain.mkScan (Blockchain.chain s) [])
     = Blockchain.Continue
         (Blockchain.mkScan
            (Blockchain.chain (Blockchain.after (Blockchain.validateChain s)))
            errors).
Proof.
  unfold Blockchain.validateChain.
  destruct (Blockchain.scan _ _) as [[chain [|e log]]|s'];
    cbn [Blockchain.settled Blockchain.errorLog Blockchain.after
         Blockchain.chain Blockchain.blocks]; intro H; try discriminate.
  injection H as <-. split; [discriminate | reflexivity].
Qed.




(** *** An altered record *)

Lemma setAt_length (chain : list (option Block.t)) (i : nat)
    (x : option Block.t) :
  List.length (Blockchain.setAt i x chain) = List.length chain.
Proof.
  revert i. induction chain as [|y chain IH]; intros [|i]; cbn; auto.
Qed.

Lemma setAt_nth_same (chain : list (option Block.t)) (i : nat)
    (x : option Block.t) :
  (i < List.length chain)%nat ->
  nth_error (Blockchain.setAt i x chain) i = Some x.
Proof.
  revert i. induction chain as [|y chain IH]; intros [|i] L; cbn in *;
    try lia; [reflexivity |]. apply IH. lia.
Qed.

Lemma setAt_nth_other (chain : list (option Block.t)) (i j : nat)
    (x : option Block.t) :
  i <> j ->
  nth_error (Blockchain.setAt i x chain) j = nth_error chain j.
Proof.
  revert i j. induction chain as [|y chain IH]; intros [|i] [|j] N; cbn;
    try reflexivity; try congruence. apply IH. congruence.
Qed.

Lemma setAt_setAt (chain : list (option Block.t)) (i : nat)
    (x y : option Block.t) :
  Blockchain.setAt i x (Blockchain.setAt i y chain) = Blockchain.setAt i x chain.
Proof.
  revert i. induction chain as [|z chain IH]; intros [|i]; cbn; auto.
  now rewrite IH.
Qed.

Lemma countedFrom_setAt (chain : list (option Block.t)) (h : nat)
    (r x : Block.t) :
  countedFrom 0 chain ->
  nth_error chain h = Some (Some r) ->
  Block.height x = Block.height r ->
  countedFrom 0 (Blockchain.setAt h (Some x) chain).
Proof.
  intros C E H i e N.
  destruct (Nat.eq_dec h i) as [<-|D].
  - rewrite setAt_nth_same in N by (apply nth_error_Some; now rewrite E).
    injection N as <-. exists x. split; [reflexivity |].
    destruct (C h _ E) as (r0 & R & Hr). injection R as <-. congruence.
  - rewrite setAt_nth_other in N by exact D. now apply C.
Qed.

(** A turn of the loop at a sealed block that is at its height and
    linked to the entry before it changes nothing and logs nothing. *)
Lemma visit_quiet (chain : list (option Block.t)) (log : list Error)
    (i : nat) (b : Block.t) :
  countedFrom 0 chain ->
  nth_error chain i = Some (Some b) ->
  Block.hash b = Some (Block.digest b) ->
  match i with
  | O => True
  | S k => exists p, nth_error chain k = Some (Some p)
                     /\ Block.previousBlockHash b = Block.hash p
  end ->
  Blockchain.visit i (Blockchain.mkScan chain log)
  = Blockchain.Continue (Blockchain.mkScan chain log).
Proof.
  intros C E Sealed P.
  destruct (C i _ E) as (b0 & B & H). injection B as <-.
  unfold Blockchain.visit. cbn [Blockchain.blocks Blockchain.errorLog].
  rewrite E, (validate_sealed b Sealed), (setAt_same _ _ _ E).
  destruct i as [|k].
  - rewrite H. reflexivity.
  - destruct P as (p & Ep & Link).
    destruct (Z.gtb_spec (Block.height b) 0); [| lia].
    replace (Block.height b - 1) with (Z.of_nat (0 + k)) by lia.
    rewrite (filterHeight_found 0 k chain p C Ep).
    rewrite Link, sameHash_refl. reflexivity.
Qed.

Lemma scan_app (l1 l2 : list nat) (s : Blockchain.Scan) :
  Blockchain.scan (l1 ++ l2) s
  = match Blockchain.scan l1 s with
    | Blockchain.Continue s' => Blockchain.scan l2 s'
    | Blockchain.Thrown s' => Blockchain.Thrown s'
    end.
Proof.
  revert s. induction l1 as [|i l1 IH]; intros s; cbn; [reflexivity |].
  destruct (Blockchain.visit i s); [apply IH | reflexivity].
Qed.

Lemma scan_quiet (chain : list (option Block.t)) (log : list Error)
    (indices : list nat) :
  Forall (fun i =>
            Blockchain.visit i (Blockchain.mkScan chain log)
            = Blockchain.Continue (Blockchain.mkScan chain log)) indices ->
  Blockchain.scan indices (Blockchain.mkScan chain log)
  = Blockchain.Continue (Blockchain.mkScan chain log).
Proof.
  induction 1 as [|i rest V _ IH]; [reflexivity |].
  cbn. now rewrite V.
Qed.

Lemma intact_entry (chain : list (option Block.t)) (i : nat) (b : Block.t) :
  intact chain -> nth_error chain i = Some (Some b) -> linked chain i b.
Proof.
  intros I E. destruct (I i) as (b0 & E0 & L).
  - apply nth_error_Some. now rewrite E.
  - rewrite E in E0. now injection E0 as <-.
Qed.

(** Away from the altered entry and from the one after it, the loop is
    quiet on the altered chain. *)
Lemma visit_beside (chain : list (option Block.t)) (log : list Error)
    (h i : nat) (r x : Block.t) :
  intact chain ->
  nth_error chain h = Some (Some r) ->
  Block.height x = Block.height r ->
  (i < List.length chain)%nat -> i <> h -> i <> S h ->
  Blockchain.visit i (Blockchain.mkScan (Blockchain.setAt h (Some x) chain) log)
  = Blockchain.Continue
      (Blockchain.mkScan (Blockchain.setAt h (Some x) chain) log).
Proof.
  intros I E H L N1 N2.
  destruct (I i L) as (b & Eb & Hb & Sealed & P).
  apply (visit_quiet _ _ i b).
  - exact (countedFrom_setAt _ _ _ _ (intact_counted _ I) E H).
  - rewrite setAt_nth_other by congruence. exact Eb.
  - exact Sealed.
  - destruct i as [|k]; [exact Logic.I |].
    destruct P as (p & Ep & Link). exists p. split; [| exact Link].
    rewrite setAt_nth_other by congruence. exact Ep.
Qed.

(** The turn of the loop at the altered entry. *)
Lemma visit_altered (chain : list (option Block.t)) (log : list Error)
    (h : nat) (r r' : Block.t) :
  intact chain ->
  nth_error chain h = Some (Some r) ->
  Block.height r' = Block.height r ->
  Block.hash r' <> Some (Block.digest r') ->
  Blockchain.visit h (Blockchain.mkScan (Blockchain.setAt h (Some r') chain) log)
  = Blockchain.Continue
      (Blockchain.mkScan
         (Blockchain.setAt h
            (Some (Block.setHash (Some (Block.digest r')) r')) chain)
         (log ++ [InvalidBlock (Z.of_nat h) (Some (Block.digest r'))])).
Proof.
  intros I E H N.
  destruct (intact_entry _ _ _ I E) as (Hr & _).
  unfold Blockchain.visit. cbn [Blockchain.blocks Blockchain.errorLog].
  rewrite setAt_nth_same by (apply nth_error_Some; now rewrite E).
  unfold Block.validate.
  destruct (Block.sameHash (Block.hash r')
              (Block.hash (Block.setHash (Some (Block.digest r')) r'))) eqn:S.
  - apply sameHash_true in S. now elim N.
  - rewrite setAt_setAt. cbn [Block.setHash Block.height Block.hash].
    now rewrite H, Hr.
Qed.

(** The turn of the loop at the entry after the altered one. *)
Lemma visit_after_altered (chain : list (option Block.t)) (log : list Error)
    (h : nat) (r x : Block.t) :
  intact chain ->
  nth_error chain h = Some (Some r) ->
  Block.height x = Block.height r ->
  (S h < List.length chain)%nat ->
  Blockchain.visit (S h)
    (Blockchain.mkScan (Blockchain.setAt h (Some x) chain) log)
  = Blockchain.Continue
      (Blockchain.mkScan (Blockchain.setAt h (Some x) chain)
         (log ++ if Block.sameHash (Block.hash r) (Block.hash x) then []
                 else [InvalidLink (Z.of_nat (S h))])).
Proof.
  intros I E H L.
  destruct (I (S h) L) as (b & Eb & Hb & Sealed & p & Ep & Link).
  rewrite E in Ep. injection Ep as <-.
  assert (Eb' : nth_error (Blockchain.setAt h (Some x) chain) (S h)
                = Some (Some b)) by (rewrite setAt_nth_other by lia; exact Eb).
  assert (Ex : nth_error (Blockchain.setAt h (Some x) chain) h = Some (Some x))
    by (apply setAt_nth_same, nth_error_Some; now rewrite E).
  pose proof (countedFrom_setAt _ _ _ _ (intact_counted _ I) E H) as C.
  unfold Blockchain.visit. cbn [Blockchain.blocks Blockchain.errorLog].
  rewrite Eb', (validate_sealed b Sealed), (setAt_same _ _ _ Eb').
  destruct (Z.gtb_spec (Block.height b) 0); [| lia].
  replace (Block.height b - 1) with (Z.of_nat (0 + h)) by lia.
  rewrite (filterHeight_found 0 h _ x C Ex), Link, Hb.
  destruct (Block.sameHash (Block.hash r) (Block.hash x));
    [now rewrite List.app_nil_r | reflexivity].
Qed.

Lemma scan_beside (chain : list (option Block.t)) (log : list Error)
    (h : nat) (r x : Block.t) (indices : list nat) :
  intact chain ->
  nth_error chain h = Some (Some r) ->
  Block.height x = Block.height r ->
  Forall (fun i => (i < List.length chain)%nat /\ i <> h /\ i <> S h) indices ->
  Blockchain.scan indices
    (Blockchain.mkScan (Blockchain.setAt h (Some x) chain) log)
  = Blockchain.Continue
      (Blockchain.mkScan (Blockchain.setAt h (Some x) chain) log).
Proof.
  intros I E H F. apply scan_quiet.
  eapply Forall_impl; [| exact F]. intros i (L & N1 & N2).
  now apply (visit_beside _ _ h i r x).
Qed.

(** Detection of an alteration that leaves the height alone. *)
Lemma validateChain_reports_alteration (s : Blockchain.t) (h : nat)
    (r r' : Block.t) :
  intact (Blockchain.chain s) ->
  nth_error (Blockchain.chain s) h = Some (Some r) ->
  Block.height r' = Block.height r ->
  Block.hash r' <> Some (Block.digest r') ->
  let resealed := Block.setHash (Some (Block.digest r')) r' in
  let altered :=
    {| Blockchain.chain := Blockchain.setAt h (Some r') (Blockchain.chain s);
       Blockchain.height := Blockchain.height s |} in
  let link :=
    if (S h <? List.length (Blockchain.chain s))%nat
       && negb (Block.sameHash (Block.hash r) (Some (Block.digest r')))
    then [InvalidLink (Z.of_nat (S h))] else [] in
  snd (Block.validate r') = false
  /\ Blockchain.validateChain altered
     = {| Blockchain.after :=
            {| Blockchain.chain :=
                 Blockchain.setAt h (Some resealed) (Blockchain.chain s);
               Blockchain.height := Blockchain.height s |};
          Blockchain.events := [];
          Blockchain.settled :=
            Resolved
              (Blockchain.Errors
                 (InvalidBlock (Z.of_nat h) (Some (Block.digest r')) :: link)) |}.
Proof.
  intros I E H N. cbv zeta. split.
  { apply validate_false_iff_overwrites. cbn. congruence. }
  set (chain := Blockchain.chain s) in *.
  assert (L : (h < List.length chain)%nat)
    by (apply nth_error_Some; now rewrite E).
  assert (H' : Block.height (Block.setHash (Some (Block.digest r')) r')
               = Block.height r) by exact H.
  unfold Blockchain.validateChain. cbn [Blockchain.chain Blockchain.height].
  rewrite setAt_length.
  replace (List.length chain) with (h + S (List.length chain - S h))%nat at 1
    by lia.
  rewrite seq_app, scan_app. cbn [seq Nat.add].
  rewrite (scan_beside chain [] h r r' _ I E H).
  2:{ apply Forall_forall. intros i Hi. apply in_seq in Hi. lia. }
  cbn [Blockchain.scan].
  rewrite (visit_altered chain [] h r r' I E H N). cbn [app].
  destruct (Nat.ltb_spec (S h) (List.length chain)) as [Lt|Ge].
  - replace (List.length chain - S h)%nat
      with (S (List.length chain - S (S h)))%nat by lia.
    cbn [seq Blockchain.scan].
    rewrite (visit_after_altered chain _ h r _ I E H' Lt).
    cbn [Block.setHash Block.hash andb].
    rewrite (scan_beside chain _ h r _ _ I E H').
    2:{ apply Forall_forall. intros i Hi. apply in_seq in Hi. lia. }
    cbn [Blockchain.errorLog Blockchain.blocks app].
    destruct (Block.sameHash (Block.hash r) (Some (Block.digest r')));
      reflexivity.
  - replace (List.length chain - S h)%nat with 0%nat by lia.
    reflexivity.
Qed.

(** C5.  The height of the record at index 1 of [ledger2] overwritten
    out of band (1 becomes 5).  [validate] on the record answers false,
    but [validateChain] logs the finding under height 5 and then throws
    at the record of height 2, whose predecessor it looks up by height
    and does not find: its promise stays pending and no report is
    delivered.  When the altered record is the last one ([ledger1]) the
    report is delivered, with the finding under height 5.  An alteration
    that leaves the height alone is reported as the claim says
    ([validateChain_reports_alteration]). *)
Theorem validateChain_stuck_on_altered_height :
  let altered := Sample.tamper 1 (Block.setHeight 5) Sample.ledger2 in
  let last := Sample.tamper 1 (Block.setHeight 5) Sample.ledger1 in
  reachable Sample.ledger2
  /\ snd (Block.validate (Sample.entry 1 altered)) = false
  /\ Blockchain.settled (Blockchain.validateChain altered) = Pending
  /\ (exists chain x,
        Blockchain.scan (seq 0 3) (Blockchain.mkScan (Blockchain.chain altered) [])
        = Blockchain.Thrown (Blockchain.mkScan chain [InvalidBlock 5 x]))
  /\ (exists x,
        Blockchain.settled (Blockchain.validateChain last)
        = Resolved (Blockchain.Errors [InvalidBlock 5 x])).
Proof.
  cbv zeta. unfold Blockchain.validateChain at 1.
  change (List.length
            (Blockchain.chain
               (Sample.tamper 1 (Block.setHeight 5) Sample.ledger2)))
    with 3%nat.
  match goal with
  | |- context [Blockchain.scan ?l ?s] => evaluated (Blockchain.scan l s)
  end.
  conjuncts.
  - exact ledger2_reachable.
  - evaluate.
  - reflexivity.
  - do 2 eexists. reflexivity.
  - eexists. evaluate.
Qed.

(** ** Strings *)

Lemma append_assoc' (a b c : string) : (a ++ b) ++ c = a ++ (b ++ c).
Proof. induction a; cbn; congruence. Qed.

Lemma append_empty (a : string) : a ++ "" = a.
Proof. induction a; cbn; congruence. Qed.

Lemma length_append' (a b : string) :
  String.length (a ++ b) = (String.length a + String.length b)%nat.
Proof. induction a; cbn; congruence. Qed.

Lemma every_append (p : ascii -> bool) (a b : string) :
  Bytes.every p (a ++ b) = Bytes.every p a && Bytes.every p b.
Proof.
  induction a as [|c a IH]; cbn; [reflexivity |].
  now rewrite IH, andb_assoc.
Qed.

(** ** Printing and parsing a string literal *)

(** One character, escaped or not, is read back as itself. *)
Lemma parseChars_escapeUnit (c : ascii) (text : string) :
  Json.parseChars (Json.escapeUnit c ++ text)
  = match Json.parseChars text with
    | Some (t, rest) => Some (String c t, rest)
    | None => None
    end.
Proof. destruct c as [[] [] [] [] [] [] [] []]; reflexivity. Qed.

Lemma parseChars_escape (s rest : string) :
  Json.parseChars (Json.escape s ++ String Json.dquote rest) = Some (s, rest).
Proof.
  induction s as [|c s IH]; [reflexivity |].
  cbn [Json.escape]. rewrite append_assoc', parseChars_escapeUnit, IH.
  reflexivity.
Qed.

(** ** Printing and parsing a number *)

Lemma digits_uint (d : Decimal.uint) (acc : Z) (rest : string) :
  noDigitAhead rest ->
  Json.digits acc (NilEmpty.string_of_uint d ++ rest) = (uintZ acc d, rest).
Proof.
  intros N. revert acc.
  induction d; intros acc; cbn [NilEmpty.string_of_uint uintZ];
    try (cbn; rewrite IHd; reflexivity).
  cbn. destruct rest as [|c r]; [reflexivity |].
  cbn in N |- *. now rewrite N.
Qed.

Lemma uintZ_acc (d : Decimal.uint) (acc : positive) :
  Z.pos (Pos.of_uint_acc d acc) = uintZ (Z.pos acc) d.
Proof.
  revert acc. induction d; intros acc; cbn [Pos.of_uint_acc uintZ];
    try reflexivity; rewrite IHd; f_equal; lia.
Qed.

Lemma uintZ_of_uint (d : Decimal.uint) : Z.of_N (Pos.of_uint d) = uintZ 0 d.
Proof.
  induction d; cbn [Pos.of_uint uintZ]; try reflexivity;
    try (cbn [Z.of_N]; rewrite uintZ_acc; reflexivity).
  exact IHd.
Qed.

Lemma uintZ_to_uint (p : positive) : uintZ 0 (Pos.to_uint p) = Z.pos p.
Proof. now rewrite <- uintZ_of_uint, Unsigned.of_to. Qed.

(** The decimal notation of a positive number starts with a digit that
    is not 0. *)
Lemma to_uint_head (p : positive) :
  match Pos.to_uint p with
  | Decimal.Nil | Decimal.D0 _ => False
  | _ => True
  end.
Proof.
  pose proof (Unsigned.to_of (Pos.to_uint p)) as E.
  rewrite Unsigned.of_to in E. cbn [N.to_uint] in E.
  destruct (Decimal.uint_eq_dec (Decimal.nzhead (Pos.to_uint p)) Decimal.Nil)
    as [Z|NZ].
  - unfold Decimal.unorm in E. rewrite Z in E.
    now apply Unsigned.to_uint_nonzero in E.
  - rewrite (unorm_nzhead _ NZ) in E.
    pose proof (nzhead_nonzero (Pos.to_uint p)) as H.
    rewrite <- E in H, NZ.
    destruct (Pos.to_uint p); try exact I; [now apply NZ | now apply (H u)].
Qed.

Lemma delimited_noDigit (rest : string) : delimited rest -> noDigitAhead rest.
Proof. destruct rest as [|c r]; cbn; [trivial |]. now intros [->|[->| ->]]. Qed.

Lemma delimited_after (rest : string) (m : Z) :
  delimited rest ->
  match rest with
  | String "." _ | String "e" _ | String "E" _ => None
  | _ => Some (m, rest)
  end = Some (m, rest).
Proof.
  destruct rest as [|c r]; [reflexivity |].
  cbn. now intros [->|[->| ->]].
Qed.

Lemma parseNumber_digits (negative : bool) (c : ascii) (r rest : string)
    (m : Z) :
  Json.isDigit c = true -> c <> "0"%char ->
  Json.digits 0 (String c r) = (m, rest) ->
  delimited rest ->
  Json.parseNumber (if negative then String "-" (String c r) else String c r)
  = Some (if negative then - m else m, rest).
Proof.
  intros Dg NZ G D.
  destruct c as [[] [] [] [] [] [] [] []]; try discriminate Dg;
    try (now elim NZ);
    destruct negative; unfold Json.parseNumber; cbn - [Json.digits];
    rewrite G; apply delimited_after; exact D.
Qed.

Lemma parseNumber_toString (n : Z) (rest : string) :
  delimited rest ->
  Json.parseNumber (Js.toString n ++ rest) = Some (n, rest).
Proof.
  intros D. pose proof (delimited_noDigit _ D) as N.
  unfold Js.toString. destruct n as [|p|p]; cbn [Z.to_int NilZero.string_of_int].
  - cbn. now apply delimited_after.
  - pose proof (to_uint_head p) as H. pose proof (uintZ_to_uint p) as V.
    pose proof (digits_uint (Pos.to_uint p) 0 rest N) as G.
    rewrite V in G.
    destruct (Pos.to_uint p) as [|u|u|u|u|u|u|u|u|u|u]; try contradiction;
      cbn [NilZero.string_of_uint NilEmpty.string_of_uint append] in G |- *;
      (eapply (parseNumber_digits false);
       [reflexivity | discriminate | exact G | exact D]).
  - pose proof (to_uint_head p) as H. pose proof (uintZ_to_uint p) as V.
    pose proof (digits_uint (Pos.to_uint p) 0 rest N) as G.
    rewrite V in G.
    destruct (Pos.to_uint p) as [|u|u|u|u|u|u|u|u|u|u]; try contradiction;
      cbn [NilZero.string_of_uint NilEmpty.string_of_uint append] in G |- *;
      change (Z.neg p) with (- Z.pos p);
      (eapply (parseNumber_digits true);
       [reflexivity | discriminate | exact G | exact D]).
Qed.

(** The first character of a printed number. *)
Lemma toString_head (n : Z) :
  exists c r, Js.toString n = String c r
              /\ (c = "-"%char \/ Json.isDigit c = true).
Proof.
  unfold Js.toString. destruct n as [|p|p]; cbn [Z.to_int NilZero.string_of_int].
  - do 2 eexists. split; [reflexivity | now right].
  - pose proof (to_uint_head p) as H.
    destruct (Pos.to_uint p); try contradiction;
      do 2 eexists; (split; [reflexivity | now right]).
  - do 2 eexists. split; [reflexivity | now left].
Qed.

(** ** Printing and parsing a value *)

Lemma stringify_head (v : Json.Value) :
  exists c t, Json.stringify v = String c t /\ valueStart c = true.
Proof.
  destruct v as [|[|]|n|s|items|members];
    try (do 2 eexists; split; [reflexivity | reflexivity]).
  destruct (toString_head n) as (c & r & E & H).
  exists c, r. split; [exact E |].
  destruct H as [->|H]; [reflexivity |].
  destruct c as [[] [] [] [] [] [] [] []]; try discriminate H; reflexivity.
Qed.

Lemma stringify_array (x : Json.Value) (xs : list Json.Value) (rest : string) :
  Json.stringify (Json.Array (x :: xs)) ++ rest
  = String "[" (itemsText x xs rest).
Proof.
  cbn [Json.stringify]. cbn [append]. f_equal.
  rewrite append_assoc'. cbn [append].
  revert x. induction xs as [|y ys IH]; intros x.
  - reflexivity.
  - cbn [map Json.join itemsText] in *. rewrite append_assoc'. f_equal.
    cbn [append]. f_equal. apply IH.
Qed.

Lemma stringify_object (m : string * Json.Value)
    (ms : list (string * Json.Value)) (rest : string) :
  Json.stringify (Json.Object (m :: ms)) ++ rest
  = String "{" (String Json.dquote (membersText m ms rest)).
Proof.
  cbn [Json.stringify]. cbn [append]. f_equal. rewrite append_assoc'.
  cbn [append].
  revert m. induction ms as [|m' ms' IH]; intros [k x].
  - cbn [map Json.join membersText fst snd]. unfold Json.quote.
    cbn [append]. f_equal. now rewrite !append_assoc'.
  - cbn [map Json.join membersText fst snd] in *. unfold Json.quote at 1.
    cbn [append]. f_equal. rewrite !append_assoc'. f_equal. cbn [append].
    do 4 f_equal. apply IH.
Qed.

Lemma itemsText_eq (x : Json.Value) (xs : list Json.Value) (rest : string) :
  itemsText x xs rest = Json.stringify x ++ laterItems xs rest.
Proof. now destruct xs. Qed.

Lemma membersText_eq (k : string) (x : Json.Value)
    (ms : list (string * Json.Value)) (rest : string) :
  membersText (k, x) ms rest
  = Json.escape k
    ++ String Json.dquote
         (String ":" (Json.stringify x ++ laterMembers ms rest)).
Proof. now destruct ms. Qed.

Lemma laterItems_delimited (xs : list Json.Value) (rest : string) :
  delimited (laterItems xs rest).
Proof. destruct xs; cbn; auto. Qed.

Lemma laterMembers_delimited (ms : list (string * Json.Value)) (rest : string) :
  delimited (laterMembers ms rest).
Proof. destruct ms; cbn; auto. Qed.

Lemma itemsText_head (x : Json.Value) (xs : list Json.Value) (rest : string) :
  exists c text, itemsText x xs rest = String c text /\ valueStart c = true.
Proof.
  destruct (stringify_head x) as (c & t & E & V).
  exists c, (t ++ laterItems xs rest). split; [| exact V].
  now rewrite itemsText_eq, E.
Qed.

(** The parser on each first character. *)
Lemma parseValue_string (f : nat) (r : string) :
  Json.parseValue (S f) (String Json.dquote r)
  = match Json.parseChars r with
    | Some (t, rest) => Some (Json.Str t, rest)
    | None => None
    end.
Proof. reflexivity. Qed.

Lemma parseValue_number (f : nat) (c : ascii) (text : string) :
  c = "-"%char \/ Json.isDigit c = true ->
  Json.parseValue (S f) (String c text)
  = match Json.parseNumber (String c text) with
    | Some (n, rest) => Some (Json.Number n, rest)
    | None => None
    end.
Proof.
  destruct c as [[] [] [] [] [] [] [] []]; intros [H|H];
    try discriminate H; reflexivity.
Qed.

Lemma parseValue_array (f : nat) (c : ascii) (text : string) :
  valueStart c = true ->
  Json.parseValue (S f) (String "[" (String c text))
  = match Json.parseElements f (String c text) with
    | Some (items, rest) => Some (Json.Array items, rest)
    | None => None
    end.
Proof.
  destruct c as [[] [] [] [] [] [] [] []]; intros H;
    try discriminate H; reflexivity.
Qed.

Lemma parseValue_object (f : nat) (text : string) :
  Json.parseValue (S f) (String "{" (String Json.dquote text))
  = match Json.parseMembers f [] (String Json.dquote text) with
    | Some (members, rest) => Some (Json.Object members, rest)
    | None => None
    end.
Proof. reflexivity. Qed.

Lemma parseElements_step (f : nat) (s : string) :
  Json.parseElements (S f) s
  = match Json.parseValue f s with
    | Some (v, r) =>
        match Json.skipWs r with
        | String "," r1 =>
            match Json.parseElements f r1 with
            | Some (vs, rest) => Some (v :: vs, rest)
            | None => None
            end
        | String "]" rest => Some ([v], rest)
        | _ => None
        end
    | None => None
    end.
Proof. reflexivity. Qed.

Lemma parseMembers_step (f : nat) (acc : list (string * Json.Value))
    (r : string) :
  Json.parseMembers (S f) acc (String Json.dquote r)
  = match Json.parseChars r with
    | Some (k, r1) =>
        match Json.skipWs r1 with
        | String ":" r2 =>
            match Json.parseValue f r2 with
            | Some (v, r3) =>
                match Json.skipWs r3 with
                | String "," r4 => Json.parseMembers f (Json.setMember k v acc) r4
                | String "}" rest => Some (Json.setMember k v acc, rest)
                | _ => None
                end
            | None => None
            end
        | _ => None
        end
    | None => None
    end.
Proof. reflexivity. Qed.

Lemma size_positive (v : Json.Value) : (1 <= Json.size v)%nat.
Proof. destruct v; cbn; lia. Qed.

(** A new key goes to the end of the member list. *)
Lemma setMember_fresh (k : string) (x : Json.Value)
    (acc : list (string * Json.Value)) :
  existsb (String.eqb k) (map fst acc) = false ->
  Json.setMember k x acc = (acc ++ [(k, x)])%list.
Proof.
  induction acc as [|[k' x'] acc IH]; cbn; [reflexivity |].
  intros H. apply orb_false_elim in H as [A B].
  rewrite String.eqb_sym, A. now rewrite IH.
Qed.

Lemma distinct_app (a : list string) (k : string) (r : list string) :
  Json.distinct (a ++ k :: r) = true ->
  existsb (String.eqb k) a = false /\ Json.distinct ((a ++ [k]) ++ r) = true.
Proof.
  induction a as [|y a IH]; cbn.
  - intros H. split; [reflexivity | exact H].
  - intros H. apply andb_prop in H as [N D].
    destruct (IH D) as [F D'].
    rewrite existsb_app in N. cbn in N.
    rewrite negb_true_iff in N.
    apply orb_false_elim in N as [N1 N2].
    apply orb_false_elim in N2 as [N2 N3].
    split.
    + rewrite String.eqb_sym, N2. exact F.
    + rewrite D', andb_true_r, negb_true_iff.
      rewrite !existsb_app. cbn. now rewrite N1, N2, N3.
Qed.

(** Printing then parsing, with fuel [f]: a value, the items of an
    array, the members of an object. *)
Lemma parse_stringify_fuel (f : nat) :
  (forall v rest,
      Json.wellFormed v = true -> (Json.size v <= f)%nat -> delimited rest ->
      Json.parseValue f (Json.stringify v ++ rest) = Some (v, rest))
  /\ (forall x xs rest,
         forallb Json.wellFormed (x :: xs) = true ->
         (list_sum (map (fun y => S (Json.size y)) (x :: xs)) <= f)%nat ->
         Json.parseElements f (itemsText x xs rest) = Some (x :: xs, rest))
  /\ (forall m ms acc rest,
         forallb (fun m => Json.wellFormed (snd m)) (m :: ms) = true ->
         Json.distinct (map fst acc ++ map fst (m :: ms)) = true ->
         (list_sum (map (fun m => S (Json.size (snd m))) (m :: ms)) <= f)%nat ->
         Json.parseMembers f acc (String Json.dquote (membersText m ms rest))
         = Some ((acc ++ m :: ms)%list, rest)).
Proof.
  induction f as [|f (IHv & IHe & IHm)].
  - split; [| split].
    + intros v rest _ L. pose proof (size_positive v). lia.
    + intros x xs rest _ L. cbn in L. lia.
    + intros m ms acc rest _ _ L. cbn in L. lia.
  - split; [| split].
    + intros v rest W L D.
      destruct v as [|[|]|n|s|[|x xs]|[|m ms]]; try reflexivity.
      * destruct (toString_head n) as (c & r & E & H).
        pose proof (parseNumber_toString n rest D) as P.
        cbn [Json.stringify]. rewrite E in P |- *. cbn [append] in P |- *.
        now rewrite (parseValue_number f c _ H), P.
      * cbn [Json.stringify]. unfold Json.quote. cbn [append].
        rewrite parseValue_string, append_assoc'. cbn [append].
        now rewrite parseChars_escape.
      * rewrite stringify_array.
        cbn [Json.size Json.wellFormed] in W, L.
        assert (E : Json.parseElements f (itemsText x xs rest)
                    = Some (x :: xs, rest)) by (apply IHe; [exact W | lia]).
        destruct (itemsText_head x xs rest) as (c & text & T & V).
        rewrite T in E |- *.
        now rewrite (parseValue_array f c text V), E.
      * rewrite stringify_object, parseValue_object.
        cbn [Json.size Json.wellFormed] in W, L.
        apply andb_prop in W as [Dk W].
        rewrite (IHm m ms [] rest W); [reflexivity | exact Dk | lia].
    + intros x xs rest W L.
      cbn [forallb] in W. apply andb_prop in W as [Wx Wxs].
      cbn [map list_sum fold_right] in L.
      rewrite parseElements_step, itemsText_eq.
      rewrite (IHv x _ Wx); [| lia | apply laterItems_delimited].
      destruct xs as [|y ys]; [reflexivity |].
      cbn [laterItems].
      change (Json.skipWs (String "," ?R)) with (String "," R). cbv iota.
      rewrite (IHe y ys rest Wxs);
        [reflexivity | cbn [map list_sum fold_right] in L |- *; lia].
    + intros [k x] ms acc rest W Dk L.
      cbn [forallb snd] in W. apply andb_prop in W as [Wx Wms].
      cbn [map list_sum fold_right snd fst] in L, Dk.
      apply distinct_app in Dk as [Fresh Dk].
      rewrite parseMembers_step, membersText_eq, parseChars_escape.
      change (Json.skipWs (String ":" ?R)) with (String ":" R). cbv iota.
      rewrite (IHv x _ Wx); [| lia | apply laterMembers_delimited].
      rewrite (setMember_fresh k x acc Fresh).
      destruct ms as [|m' ms']; cbn [laterMembers].
      * change (Json.skipWs (String "}" ?R)) with (String "}" R). cbv iota.
        reflexivity.
      * change (Json.skipWs (String "," ?R)) with (String "," R). cbv iota.
        rewrite (IHm m' ms' (acc ++ [(k, x)])%list rest Wms).
        -- now rewrite <- app_assoc.
        -- rewrite map_app. exact Dk.
        -- cbn [map list_sum fold_right] in L |- *. lia.
Qed.

(** The fuel [JSON.parse] takes is enough. *)
Lemma join_length {A : Type} (text : A -> string) (weight : A -> nat)
    (l : list A) :
  Forall (fun a => (weight a <= String.length (text a))%nat) l ->
  (list_sum (map (fun a => S (weight a)) l)
   <= String.length (Json.join (map text l)) + 1)%nat.
Proof.
  induction 1 as [|a l H F IH]; [cbn; lia |].
  cbn [map list_sum fold_right] in *.
  destruct l as [|b l].
  - cbn. lia.
  - change (Json.join (text a :: map text (b :: l)))
      with (text a ++ "," ++ Json.join (map text (b :: l))).
    rewrite !length_append'. cbn [String.length]. unfold list_sum in *. lia.
Qed.

Lemma size_le_length (v : Json.Value) :
  (Json.size v <= String.length (Json.stringify v))%nat.
Proof.
  induction v using value_ind.
  - cbn. lia.
  - destruct b; cbn; lia.
  - destruct (toString_head n) as (c & r & E & _).
    cbn [Json.size Json.stringify]. rewrite E. cbn. lia.
  - cbn. lia.
  - cbn [Json.size Json.stringify].
    pose proof (join_length Json.stringify Json.size items H) as B.
    rewrite !length_append'. cbn [String.length]. lia.
  - cbn [Json.size Json.stringify].
    assert (F : Forall (fun m => (Json.size (snd m)
                  <= String.length (let '(k, x) := m in
                                    Json.quote k ++ ":" ++ Json.stringify x))%nat)
                  members).
    { eapply Forall_impl; [| exact H]. intros [k x] L. cbn [snd] in *.
      rewrite !length_append'. lia. }
    pose proof (join_length _ (fun m => Json.size (snd m)) members F) as B.
    rewrite !length_append'. cbn [String.length]. lia.
Qed.

(** [JSON.parse(JSON.stringify(v))] is [v]. *)
Lemma parse_stringify (v : Json.Value) :
  Json.wellFormed v = true -> Json.parse (Json.stringify v) = Some v.
Proof.
  intros W. unfold Json.parse.
  pose proof (size_le_length v) as L.
  destruct (parse_stringify_fuel (2 * String.length (Json.stringify v) + 2))
    as (V & _ & _).
  specialize (V v "" W). rewrite append_empty in V.
  rewrite V; [reflexivity | lia | exact I].
Qed.

(** ** The text of a value has no NUL *)

Lemma every_join {A : Type} (p : ascii -> bool) (text : A -> string)
    (l : list A) :
  p ","%char = true ->
  Forall (fun a => Bytes.every p (text a) = true) l ->
  Bytes.every p (Json.join (map text l)) = true.
Proof.
  intros C. induction 1 as [|a l H F IH]; [reflexivity |].
  destruct l as [|b l]; [exact H |].
  change (Json.join (map text (a :: b :: l)))
    with (text a ++ "," ++ Json.join (map text (b :: l))).
  rewrite !every_append, H, IH. cbn. now rewrite C.
Qed.

Lemma escape_nonNul (s : string) : Bytes.every nonNul (Json.escape s) = true.
Proof.
  induction s as [|c s IH]; [reflexivity |].
  cbn [Json.escape]. rewrite every_append, IH, andb_true_r.
  destruct c as [[] [] [] [] [] [] [] []]; reflexivity.
Qed.

Lemma quote_nonNul (s : string) : Bytes.every nonNul (Json.quote s) = true.
Proof.
  unfold Json.quote. cbn [Bytes.every].
  now rewrite every_append, escape_nonNul.
Qed.

Lemma toString_nonNul (n : Z) : Bytes.every nonNul (Js.toString n) = true.
Proof.
  assert (U : forall d, Bytes.every nonNul (NilEmpty.string_of_uint d) = true)
    by (induction d; cbn [NilEmpty.string_of_uint Bytes.every]; trivial).
  assert (V : forall d, Bytes.every nonNul (NilZero.string_of_uint d) = true)
    by (intros [| | | | | | | | | | ]; try reflexivity; apply U).
  unfold Js.toString.
  destruct (Z.to_int n); cbn [NilZero.string_of_int Bytes.every];
    now rewrite V.
Qed.

Lemma stringify_nonNul (v : Json.Value) :
  Bytes.every nonNul (Json.stringify v) = true.
Proof.
  induction v using value_ind.
  - reflexivity.
  - now destruct b.
  - apply toString_nonNul.
  - apply quote_nonNul.
  - cbn [Json.stringify]. rewrite !every_append.
    rewrite (every_join nonNul Json.stringify items eq_refl H). reflexivity.
  - cbn [Json.stringify]. rewrite !every_append.
    rewrite every_join; [reflexivity | reflexivity |].
    eapply Forall_impl; [| exact H]. intros [k x] E. cbn [snd] in E.
    now rewrite !every_append, quote_nonNul, E.
Qed.

(** ** Encoding and decoding the body *)

(** One character of the text through [Buffer], [toString('hex')] and
    the pairs of [hex2ascii]. *)
Lemma codes_unit (c : ascii) (s : string) :
  nonNul c = true -> (Js.charCode c <? 128) = true ->
  Hex2Ascii.codes
    (Hex2Ascii.removeWhiteSpace (Bytes.toHex (Bytes.utf8 (String c s))))
  = Js.charCode c
    :: Hex2Ascii.codes (Hex2Ascii.removeWhiteSpace (Bytes.toHex (Bytes.utf8 s))).
Proof.
  destruct c as [[] [] [] [] [] [] [] []]; intros N A;
    try discriminate N; try discriminate A; reflexivity.
Qed.

(** [hex2ascii] gives back a text without NUL and without a character
    above 127. *)
Lemma hex2ascii_toHex (s : string) :
  Bytes.every nonNul s = true -> Bytes.isAscii s = true ->
  Hex2Ascii.hex2ascii (Bytes.toHex (Bytes.utf8 s)) = Some s.
Proof.
  unfold Hex2Ascii.hex2ascii, Bytes.isAscii.
  induction s as [|c s IH]; [reflexivity |].
  cbn [Bytes.every]. intros N A.
  apply andb_prop in N as [Nc N]. apply andb_prop in A as [Ac A].
  rewrite (codes_unit c s Nc Ac). cbn [Hex2Ascii.fromCharCodes].
  rewrite (IH N A). unfold Js.charCode, Js.fromCharCode in *.
  apply Z.ltb_lt in Ac.
  destruct (Z.leb_spec 0 (Z.of_nat (nat_of_ascii c))); [| lia].
  destruct (Z.ltb_spec (Z.of_nat (nat_of_ascii c)) 256); [| lia].
  cbn [andb option_map]. now rewrite Nat2Z.id, ascii_nat_embedding.
Qed.

(** [_addBlock] leaves the body and the owner of the candidate alone. *)
Lemma addBlock_keeps_body (now : Z) (block sealed : Block.t)
    (self : Blockchain.t) :
  appended (Blockchain._addBlock now block self) sealed ->
  Block.body sealed = Block.body block
  /\ Block.owner sealed = Block.owner block.
Proof.
  unfold appended, Blockchain._addBlock.
  match goal with |- context [if ?c then _ else _] => destruct c end;
    cbn [Blockchain.settled]; intro H; [injection H as <- | discriminate].
  split; reflexivity.
Qed.




(** ** Decimal texts *)

Lemma isDigit_code (c : ascii) :
  Json.isDigit c = true -> 0 <= Js.charCode c - 48 <= 9.
Proof. unfold Json.isDigit. lia. Qed.

Lemma isDigit_digitValue (c : ascii) :
  Json.isDigit c = true -> Js.digitValue 10 c = Some (Js.charCode c - 48).
Proof.
  intros D. unfold Js.digitValue. unfold Json.isDigit in D. rewrite D.
  destruct (Z.ltb_spec (Js.charCode c - 48) 10); [reflexivity | lia].
Qed.

Lemma readDigits_decimal (s : string) (acc : Z) :
  Bytes.every Json.isDigit s = true ->
  Js.readDigits 10 (Some acc) s = Some (decimalValue acc s).
Proof.
  revert acc. induction s as [|c s IH]; intros acc E; [reflexivity |].
  cbn [Bytes.every] in E. apply andb_prop in E as [D E].
  cbn [Js.readDigits decimalValue]. rewrite (isDigit_digitValue c D).
  now apply IH.
Qed.

Lemma readDigits_decimal_start (c : ascii) (s : string) :
  Bytes.every Json.isDigit (String c s) = true ->
  Js.readDigits 10 None (String c s) = Some (decimalValue 0 (String c s)).
Proof.
  intros E. cbn [Bytes.every] in E. apply andb_prop in E as [D E].
  cbn [Js.readDigits decimalValue]. rewrite (isDigit_digitValue c D).
  now apply readDigits_decimal.
Qed.

(** [parseInt] on a text of decimal digits. *)
Lemma parseInt_decimal (c : ascii) (s : string) :
  Bytes.every Json.isDigit (String c s) = true ->
  Js.parseInt (Some (String c s)) = Some (decimalValue 0 (String c s)).
Proof.
  intros E. pose proof (readDigits_decimal_start c s E) as R.
  cbn [Bytes.every] in E. apply andb_prop in E as [D E].
  destruct s as [|c2 s].
  - destruct c as [[] [] [] [] [] [] [] []]; try discriminate D;
      unfold Js.parseInt; cbv - [Js.readDigits decimalValue];
      now rewrite R.
  - cbn [Bytes.every] in E. apply andb_prop in E as [D2 E].
    destruct c as [[] [] [] [] [] [] [] []]; try discriminate D;
      try (unfold Js.parseInt; cbv - [Js.readDigits decimalValue];
           now rewrite R).
    destruct c2 as [[] [] [] [] [] [] [] []]; try discriminate D2;
      unfold Js.parseInt; cbv - [Js.readDigits decimalValue]; now rewrite R.
Qed.

Lemma decimalValue_append (a b : string) (acc : Z) :
  decimalValue acc (a ++ b) = decimalValue (decimalValue acc a) b.
Proof. revert acc. induction a as [|c a IH]; intros acc; cbn; auto. Qed.

(** A text of [n] digits read after [acc] is from [acc * 10^n] up to
    [(acc + 1) * 10^n], the latter excluded. *)
Lemma decimalValue_bounds (s : string) (acc : Z) :
  Bytes.every Json.isDigit s = true ->
  acc * 10 ^ Z.of_nat (String.length s) <= decimalValue acc s
  < (acc + 1) * 10 ^ Z.of_nat (String.length s).
Proof.
  revert acc. induction s as [|c s IH]; intros acc E.
  - cbn. lia.
  - cbn [Bytes.every] in E. apply andb_prop in E as [D E].
    pose proof (isDigit_code c D) as C.
    specialize (IH (acc * 10 + (Js.charCode c - 48)) E).
    cbn [decimalValue String.length]. rewrite Nat2Z.inj_succ, Z.pow_succ_r by lia.
    assert (0 < 10 ^ Z.of_nat (String.length s)) by (apply Z.pow_pos_nonneg; lia).
    nia.
Qed.

Lemma take_drop (n : nat) (s : string) : Js.take n s ++ drop n s = s.
Proof.
  revert s. induction n as [|n IH]; intros [|c s]; cbn; try reflexivity.
  now rewrite IH.
Qed.

Lemma take_length (n : nat) (s : string) :
  (n <= String.length s)%nat -> String.length (Js.take n s) = n.
Proof.
  revert s. induction n as [|n IH]; intros [|c s] L; cbn in *; try lia.
  rewrite IH; lia.
Qed.

Lemma drop_length (n : nat) (s : string) :
  String.length (drop n s) = (String.length s - n)%nat.
Proof. revert s. induction n as [|n IH]; intros [|c s]; cbn; auto. Qed.

Lemma every_take (p : ascii -> bool) (n : nat) (s : string) :
  Bytes.every p s = true -> Bytes.every p (Js.take n s) = true.
Proof.
  revert s. induction n as [|n IH]; intros [|c s] E; cbn in *; try reflexivity.
  apply andb_prop in E as [C E]. now rewrite C, IH.
Qed.

Lemma every_drop (p : ascii -> bool) (n : nat) (s : string) :
  Bytes.every p s = true -> Bytes.every p (drop n s) = true.
Proof.
  revert s. induction n as [|n IH]; intros [|c s] E; cbn in *; trivial.
  apply andb_prop in E as [C E]. now apply IH.
Qed.

(** The text of a number that is not negative: digits, which denote the
    number. *)
Lemma string_of_uint_digits (d : Decimal.uint) :
  Bytes.every Json.isDigit (NilEmpty.string_of_uint d) = true.
Proof. induction d; cbn [NilEmpty.string_of_uint Bytes.every]; trivial. Qed.

Lemma string_of_uint_value (d : Decimal.uint) (acc : Z) :
  decimalValue acc (NilEmpty.string_of_uint d) = uintZ acc d.
Proof.
  revert acc. induction d; intros acc;
    cbn [NilEmpty.string_of_uint decimalValue uintZ]; try reflexivity;
    rewrite IHd; reflexivity.
Qed.

Lemma toString_digits (n : Z) :
  0 <= n ->
  Bytes.every Json.isDigit (Js.toString n) = true
  /\ decimalValue 0 (Js.toString n) = n.
Proof.
  intros N. unfold Js.toString. destruct n as [|p|p]; [| | lia].
  - split; reflexivity.
  - cbn [Z.to_int NilZero.string_of_int].
    pose proof (to_uint_head p) as H. pose proof (uintZ_to_uint p) as V.
    assert (E : NilZero.string_of_uint (Pos.to_uint p)
                = NilEmpty.string_of_uint (Pos.to_uint p))
      by (destruct (Pos.to_uint p); [contradiction | reflexivity ..]).
    rewrite E. split; [apply string_of_uint_digits |].
    now rewrite string_of_uint_value.
Qed.

(** The seconds of a clock reading: [slice(0, -3)] of the text of the
    milliseconds is a text of digits that denotes the quotient by 1000,
    and it is not empty from 1000 milliseconds on. *)
Lemma seconds_of_clock (now : Z) :
  1000 <= now ->
  exists c r,
    Js.slice_0_minus3 (Js.toString now) = String c r
    /\ Bytes.every Json.isDigit (String c r) = true
    /\ decimalValue 0 (String c r) = now / 1000.
Proof.
  intros N. destruct (toString_digits now) as [D V]; [lia |].
  pose proof (decimalValue_bounds _ 0 D) as B. rewrite V in B.
  set (s := Js.toString now) in *.
  assert (L : (4 <= String.length s)%nat).
  { destruct (Nat.le_gt_cases 4 (String.length s)) as [L|L]; [exact L |].
    assert (10 ^ Z.of_nat (String.length s) <= 10 ^ 3)
      by (apply Z.pow_le_mono_r; lia).
    lia. }
  unfold Js.slice_0_minus3.
  set (k := (String.length s - 3)%nat).
  pose proof (take_drop k s) as T.
  pose proof (every_take _ k s D) as Da. pose proof (every_drop _ k s D) as Db.
  pose proof (take_length k s ltac:(lia)) as La.
  pose proof (drop_length k s) as Lb.
  assert (Vs : decimalValue 0 (Js.take k s ++ drop k s) = now) by now rewrite T.
  rewrite decimalValue_append in Vs.
  pose proof (decimalValue_bounds _ (decimalValue 0 (Js.take k s)) Db) as Bb.
  replace (Z.of_nat (String.length (drop k s))) with 3 in Bb by lia.
  pose proof (decimalValue_bounds _ 0 Da) as Ba.
  destruct (Js.take k s) as [|c r] eqn:A; [cbn in La; lia |].
  exists c, r. split; [reflexivity |]. split; [exact Da |].
  change (10 ^ 3) with 1000 in Bb.
  apply (Z.div_unique now 1000 _ (now - decimalValue 0 (String c r) * 1000));
    lia.
Qed.

(** [parseInt] reads the seconds back from the text of a clock. *)
Lemma parseInt_seconds (now : Z) :
  1000 <= now ->
  Js.parseInt (Some (Js.slice_0_minus3 (Js.toString now))) = Some (now / 1000).
Proof.
  intros N. destruct (seconds_of_clock now N) as (c & r & E & D & V).
  now rewrite E, (parseInt_decimal c r D), V.
Qed.

(** The text of a positive number starts with a digit from 1 to 9. *)
Lemma toString_positive (p : positive) :
  exists c r, Js.toString (Z.pos p) = String c r
              /\ 1 <= Js.charCode c - 48 <= 9
              /\ Bytes.every Json.isDigit r = true.
Proof.
  unfold Js.toString. cbn [Z.to_int NilZero.string_of_int].
  pose proof (to_uint_head p) as H.
  destruct (Pos.to_uint p) as [|u|u|u|u|u|u|u|u|u|u]; try contradiction;
    cbn [NilZero.string_of_uint NilEmpty.string_of_uint];
    do 2 eexists; (split; [reflexivity |]);
    (split; [cbv; split; discriminate | apply string_of_uint_digits]).
Qed.

(** The number of characters of the text of a number that is not
    negative. *)
Lemma toString_length (n : Z) (k : nat) :
  0 <= n -> (1 <= k)%nat ->
  ((String.length (Js.toString n) <= k)%nat <-> n < 10 ^ Z.of_nat k).
Proof.
  intros N K. destruct (toString_digits n N) as [D V].
  pose proof (decimalValue_bounds _ 0 D) as B. rewrite V in B.
  split.
  - intros L.
    assert (10 ^ Z.of_nat (String.length (Js.toString n)) <= 10 ^ Z.of_nat k)
      by (apply Z.pow_le_mono_r; lia).
    lia.
  - intros U. destruct n as [|p|p]; [cbn; lia | | lia].
    destruct (toString_positive p) as (c & r & E & C & Dr).
    rewrite E in V |- *. cbn [decimalValue String.length] in V |- *.
    pose proof (decimalValue_bounds r (0 * 10 + (Js.charCode c - 48)) Dr) as Br.
    rewrite V in Br.
    destruct (Nat.le_gt_cases (S (String.length r)) k) as [L|L]; [exact L |].
    assert (10 ^ Z.of_nat k <= 10 ^ Z.of_nat (String.length r))
      by (apply Z.pow_le_mono_r; lia).
    assert (0 < 10 ^ Z.of_nat (String.length r)) by (apply Z.pow_pos_nonneg; lia).
    nia.
Qed.

Lemma toString_negative (p : positive) :
  Js.toString (Z.neg p) = String "-" (Js.toString (Z.pos p)).
Proof. reflexivity. Qed.

Lemma take_empty (n : nat) (s : string) :
  (n <= String.length s)%nat -> (Js.take n s = "" <-> n = 0%nat).
Proof.
  intros L. split; [| now intros ->].
  destruct n as [|n]; [reflexivity |]. destruct s; cbn in *; [lia | discriminate].
Qed.

(** The time stamp is empty exactly for the clock readings from -99 to
    999. *)
Lemma slice_empty (now : Z) :
  Js.slice_0_minus3 (Js.toString now) = "" <-> -100 < now < 1000.
Proof.
  unfold Js.slice_0_minus3. rewrite take_empty by lia.
  destruct now as [|p|p].
  - cbn. lia.
  - pose proof (toString_length (Z.pos p) 3 ltac:(lia) ltac:(lia)) as T.
    change (10 ^ Z.of_nat 3) with 1000 in T. lia.
  - rewrite toString_negative. cbn [String.length].
    pose proof (toString_length (Z.pos p) 2 ltac:(lia) ltac:(lia)) as T.
    change (10 ^ Z.of_nat 2) with 100 in T. lia.
Qed.

(** ** The fields of a message *)

Lemma split_field (a rest : string) :
  Bytes.every notColon a = true ->
  Js.split ":" (a ++ String ":" rest) = a :: Js.split ":" rest.
Proof.
  induction a as [|c a IH]; intros E.
  - reflexivity.
  - cbn [Bytes.every] in E. apply andb_prop in E as [C E].
    cbn [append Js.split]. unfold notColon in C. apply negb_true_iff in C.
    rewrite C, (IH E). reflexivity.
Qed.

Lemma split_last (a : string) :
  Bytes.every notColon a = true -> Js.split ":" a = [a].
Proof.
  induction a as [|c a IH]; intros E; [reflexivity |].
  cbn [Bytes.every] in E. apply andb_prop in E as [C E].
  cbn [Js.split]. unfold notColon in C. apply negb_true_iff in C.
  now rewrite C, (IH E).
Qed.

Lemma digits_notColon (s : string) :
  Bytes.every Json.isDigit s = true -> Bytes.every notColon s = true.
Proof.
  induction s as [|c s IH]; intros E; [reflexivity |].
  cbn [Bytes.every] in *. apply andb_prop in E as [C E]. rewrite (IH E).
  destruct c as [[] [] [] [] [] [] [] []]; try discriminate C; reflexivity.
Qed.

(** The fields of the message issued at clock reading [issued] for an
    address without a colon. *)
Lemma message_fields (issued : Z) (address : string) :
  Bytes.every notColon address = true ->
  1000 <= issued ->
  Js.split ":"
    (address ++ ":" ++ Js.slice_0_minus3 (Js.toString issued) ++ ":starRegistry")
  = [address; Js.slice_0_minus3 (Js.toString issued); "starRegistry"].
Proof.
  intros A N. destruct (seconds_of_clock issued N) as (c & r & E & D & _).
  change (address ++ ":" ++ ?x) with (address ++ String ":" x).
  rewrite (split_field _ _ A).
  change (?t ++ ":starRegistry") with (t ++ String ":" "starRegistry").
  rewrite split_field; [reflexivity |].
  rewrite E. now apply digits_notColon.
Qed.

(** ** The challenge and the time window *)

(** X1.  The message that [requestMessageOwnershipVerification] issues
    at a clock reading of 1000 ms or more for an address without a
    colon has three fields, the address, the seconds and the word
    starRegistry, and the issue time that [submitStar] reads from it
    with [parseInt(message.split(':')[1])] is the clock reading divided
    by 1000, rounded down. *)
Theorem challenge_carries_issue_time (issued : Z) (address : string) :
  Bytes.every notColon address = true ->
  1000 <= issued ->
  exists message,
    Blockchain.requestMessageOwnershipVerification issued address
    = Resolved message
    /\ Js.split ":" message
       = [address; Js.slice_0_minus3 (Js.toString issued); "starRegistry"]
    /\ Js.parseInt (Js.index (Js.split ":" message) 1) = Some (issued / 1000).
Proof.
  intros A N. eexists. split; [reflexivity |].
  rewrite (message_fields issued address A N). split; [reflexivity |].
  unfold Js.index. cbn [nth_error]. apply (parseInt_seconds issued N).
Qed.

Lemma challenge_carries_issue_time_witness :
  exists message,
    Blockchain.requestMessageOwnershipVerification 1600000000123 "1A2b"
    = Resolved message
    /\ Js.split ":" message
       = ["1A2b"; Js.slice_0_minus3 (Js.toString 1600000000123); "starRegistry"]
    /\ Js.parseInt (Js.index (Js.split ":" message) 1)
       = Some (1600000000123 / 1000).
Proof.
  apply (challenge_carries_issue_time 1600000000123 "1A2b").
  - reflexivity.
  - lia.
Defined.

(** The promise of [submitStar] is rejected for a time-out exactly when
    the difference of the two times is 300 or more. *)
Lemma submitStar_timeout_iff
    (verify : string -> string -> string -> Blockchain.Verdict)
    (now stamp : Z) (address message signature : string) (star : Json.Value)
    (self : Blockchain.t) :
  Blockchain.settled
    (Blockchain.submitStar verify now stamp address message signature star self)
  = Rejected TimedOut
  <-> Js.geb
        (Js.sub (Js.parseInt (Some (Js.slice_0_minus3 (Js.toString now))))
                (Js.parseInt (Js.index (Js.split ":" message) 1)))
        (5 * 60)
      = true.
Proof.
  unfold Blockchain.submitStar.
  destruct (Js.geb _ _).
  - split; [reflexivity |]. intros _.
    destruct (verify message address signature); reflexivity.
  - split; [| discriminate].
    destruct (verify message address signature) as [[|] |];
      cbn [Blockchain.settled negb]; try discriminate.
    destruct (addBlock_pushes stamp
                (Block.setOwner (Some address)
                   (Block.constructor (Json.Object [("star", star)]))) self)
      as (e & -> & _).
    discriminate.
Qed.

(** X2.  A message issued by [requestMessageOwnershipVerification] at
    clock reading [issued] and submitted at clock reading [now] (both
    1000 ms or more, address without a colon): the promise of
    [submitStar] is rejected with the time-out error exactly when the
    whole seconds of the two readings differ by 300 or more, whatever
    the verifier, the signature, the star and the ledger. *)
Theorem submitStar_window
    (verify : string -> string -> string -> Blockchain.Verdict)
    (issued now stamp : Z) (address signature : string) (star : Json.Value)
    (self : Blockchain.t) :
  Bytes.every notColon address = true ->
  1000 <= issued ->
  1000 <= now ->
  let message :=
    address ++ ":" ++ Js.slice_0_minus3 (Js.toString issued) ++ ":starRegistry" in
  Blockchain.requestMessageOwnershipVerification issued address
  = Resolved message
  /\ (Blockchain.settled
        (Blockchain.submitStar verify now stamp address message signature star
           self)
      = Rejected TimedOut
      <-> 300 <= now / 1000 - issued / 1000).
Proof.
  intros A I N message. split; [reflexivity |].
  rewrite submitStar_timeout_iff.
  unfold message. rewrite (message_fields issued address A I).
  unfold Js.index. cbn [nth_error]. rewrite !parseInt_seconds by assumption.
  cbn [Js.sub Js.geb]. change (5 * 60) with 300.
  apply Z.leb_le.
Qed.

Lemma submitStar_window_witness :
  Blockchain.settled
    (Blockchain.submitStar Sample.acceptAll 1600000299999 1600000300456 "1A2b"
       ("1A2b" ++ ":" ++ Js.slice_0_minus3 (Js.toString 1600000000000)
          ++ ":starRegistry")
       "sig" Sample.star1 Sample.ledger0)
  = Rejected TimedOut
  <-> 300 <= 1600000299999 / 1000 - 1600000000000 / 1000.
Proof.
  apply (submitStar_window Sample.acceptAll 1600000000000 1600000299999
           1600000300456 "1A2b" "sig" Sample.star1 Sample.ledger0).
  - reflexivity.
  - lia.
  - lia.
Defined.

(** ** The clock of [_addBlock] *)

(** X3.  The structural check of [_addBlock] fails, and [undefined] is
    pushed on the chain, exactly when the clock reads more than -100 and
    less than 1000 milliseconds: then, and only then, the text of the
    clock has three characters at most and [slice(0, -3)] leaves the
    empty string as the time of the block. *)
Theorem addBlock_fails_exactly_without_seconds (now : Z) (block : Block.t)
    (self : Blockchain.t) :
  let run := Blockchain._addBlock now block self in
  (Blockchain.settled run = Resolved None <-> -100 < now < 1000)
  /\ (Blockchain.chain (Blockchain.after run)
      = (Blockchain.chain self ++ [None])%list
      <-> -100 < now < 1000).
Proof.
  cbv zeta. split.
  - rewrite addBlock_fails_on_empty_time. apply slice_empty.
  - rewrite <- slice_empty, <- (addBlock_fails_on_empty_time now block self).
    destruct (addBlock_pushes now block self) as (e & Q & C & _).
    rewrite Q, C. split.
    + intros H. apply app_inv_head in H. now injection H as ->.
    + intros H. now injection H as ->.
Qed.

(** [_addBlock] from the first second of the clock on: the candidate
    is sealed and appended. *)
Lemma addBlock_appends (now : Z) (block : Block.t) (self : Blockchain.t) :
  1000 <= now ->
  exists sealed,
    appended (Blockchain._addBlock now block self) sealed
    /\ Blockchain.after (Blockchain._addBlock now block self)
       = {| Blockchain.chain := (Blockchain.chain self ++ [Some sealed])%list;
            Blockchain.height := Z.of_nat (List.length (Blockchain.chain self)) |}
    /\ Blockchain.events (Blockchain._addBlock now block self) = [].
Proof.
  intros N.
  assert (T : Js.slice_0_minus3 (Js.toString now) <> "")
    by (rewrite slice_empty; lia).
  unfold appended, Blockchain._addBlock.
  set (candidate :=
         Block.setTime _ (Block.setHeight _ (Block.setPreviousBlockHash _ block))).
  set (hash := SHA256 _).
  assert (V : Js.truthy hash
              && (Z.of_nat (String.length hash) =? 64)
              && (Block.height (Block.setHash (Some hash) candidate)
                  =? Z.of_nat (List.length (Blockchain.chain self)))
              && match Block.time (Block.setHash (Some hash) candidate) with
                 | Block.TimeString s => Js.truthy s
                 | Block.TimeNumber n => negb (n =? 0)
                 end = true).
  { pose proof (SHA256_length (Json.stringify (Block.toJson candidate))) as L.
    fold hash in L. cbn [Block.height Block.time Block.setHash candidate
                          Block.setTime Block.setHeight].
    rewrite L, !Z.eqb_refl. cbn [andb].
    destruct hash; [discriminate L |].
    destruct (Js.slice_0_minus3 (Js.toString now)); [contradiction | reflexivity]. }
  rewrite V. exists (Block.setHash (Some hash) candidate).
  conjuncts; try reflexivity.
  cbn [Blockchain.after]. rewrite length_app. cbn [List.length].
  f_equal. lia.
Qed.

(** [_addBlock] stamps the candidate with the text of the clock without
    its last three digits. *)
Lemma addBlock_time (now : Z) (block sealed : Block.t) (self : Blockchain.t) :
  appended (Blockchain._addBlock now block self) sealed ->
  Block.time sealed = Block.TimeString (Js.slice_0_minus3 (Js.toString now)).
Proof.
  unfold appended, Blockchain._addBlock.
  match goal with |- context [if ?c then _ else _] => destruct c end;
    cbn [Blockchain.settled]; intro H; [injection H as <- | discriminate].
  reflexivity.
Qed.

(** X4.  From a clock reading of 1000 ms on, [_addBlock] resolves with
    the sealed block, pushes it as the last entry, logs nothing and
    sets the height to the former length of the chain; the time of the
    block is a text that [parseInt] reads as the clock reading divided
    by 1000, its height is the former length, and its body and owner
    are those of the candidate. *)
Theorem addBlock_stamps_seconds (now : Z) (block : Block.t) (self : Blockchain.t) :
  1000 <= now ->
  exists sealed seconds,
    Blockchain._addBlock now block self
    = {| Blockchain.after :=
           {| Blockchain.chain := (Blockchain.chain self ++ [Some sealed])%list;
              Blockchain.height := Z.of_nat (List.length (Blockchain.chain self)) |};
         Blockchain.events := [];
         Blockchain.settled := Resolved (Some sealed) |}
    /\ Block.time sealed = Block.TimeString seconds
    /\ Js.parseInt (Some seconds) = Some (now / 1000)
    /\ Block.height sealed = Z.of_nat (List.length (Blockchain.chain self))
    /\ Block.body sealed = Block.body block
    /\ Block.owner sealed = Block.owner block.
Proof.
  intros N. destruct (addBlock_appends now block self N) as (sealed & A & E & Ev).
  exists sealed, (Js.slice_0_minus3 (Js.toString now)).
  destruct (addBlock_keeps_body _ _ _ _ A) as [B O].
  destruct (addBlock_sealed _ _ _ _ A) as (H & _).
  conjuncts.
  - unfold appended in A.
    destruct (Blockchain._addBlock now block self) as [a e st].
    cbn [Blockchain.after Blockchain.events Blockchain.settled] in *.
    now subst.
  - apply (addBlock_time _ _ _ _ A).
  - apply (parseInt_seconds now N).
  - exact H.
  - exact B.
  - exact O.
Qed.

Lemma addBlock_stamps_seconds_witness :
  exists sealed seconds,
    Blockchain._addBlock 1600000200456 (starCandidate "1A2b" Sample.star1)
      Sample.ledger0
    = {| Blockchain.after :=
           {| Blockchain.chain :=
                (Blockchain.chain Sample.ledger0 ++ [Some sealed])%list;
              Blockchain.height :=
                Z.of_nat (List.length (Blockchain.chain Sample.ledger0)) |};
         Blockchain.events := [];
         Blockchain.settled := Resolved (Some sealed) |}
    /\ Block.time sealed = Block.TimeString seconds
    /\ Js.parseInt (Some seconds) = Some (1600000200456 / 1000)
    /\ Block.height sealed
       = Z.of_nat (List.length (Blockchain.chain Sample.ledger0))
    /\ Block.body sealed = Block.body (starCandidate "1A2b" Sample.star1)
    /\ Block.owner sealed = Block.owner (starCandidate "1A2b" Sample.star1).
Proof.
  apply (addBlock_stamps_seconds 1600000200456
           (starCandidate "1A2b" Sample.star1) Sample.ledger0).
  lia.
Defined.

(** ** Starting the chain *)

(** X5.  On a ledger produced by the methods of the class,
    [initializeChain] adds the genesis entry when the chain is empty
    (the ledger is then the one of the constructor before
    initialization) and does nothing at all, logging nothing, when the
    chain has an entry. *)
Theorem initializeChain_only_first (s : Blockchain.t) (now : Z) :
  produced s ->
  let run := Blockchain.initializeChain now s in
  (Blockchain.chain s = [] ->
   s = Blockchain.empty
   /\ Blockchain.after run
      = Blockchain.after
          (Blockchain._addBlock now (Block.constructor Blockchain.genesisData) s)
   /\ List.length (Blockchain.chain (Blockchain.after run)) = 1%nat)
  /\ (Blockchain.chain s <> [] ->
      run = {| Blockchain.after := s;
               Blockchain.events := [];
               Blockchain.settled := Resolved tt |}).
Proof.
  intros P run. destruct (produced_indexed s P) as [H _]. split.
  - intros E. rewrite E in H. cbn in H.
    assert (S0 : s = Blockchain.empty) by (destruct s; cbn in *; now subst).
    subst s. conjuncts; try reflexivity.
    unfold run, Blockchain.initializeChain. cbn [Blockchain.height Blockchain.empty Z.eqb Pos.eqb Blockchain.after].
    destruct (addBlock_pushes now (Block.constructor Blockchain.genesisData)
                Blockchain.empty) as (e & _ & C & _).
    now rewrite C.
  - intros E. unfold run, Blockchain.initializeChain.
    destruct (Z.eqb_spec (Blockchain.height s) (-1)) as [M|M]; [| reflexivity].
    destruct (Blockchain.chain s); [contradiction | cbn [List.length] in H; lia].
Qed.

Lemma initializeChain_only_first_witness :
  Blockchain.initializeChain 1600000999123 Sample.ledger1
  = {| Blockchain.after := Sample.ledger1;
       Blockchain.events := [];
       Blockchain.settled := Resolved tt |}.
Proof.
  apply (initializeChain_only_first Sample.ledger1 1600000999123).
  - apply ledger1_produced.
  - discriminate.
Defined.

(** ** Looking a block up *)

Lemma filterHeight_above (off : nat) (chain : list (option Block.t)) (h : Z) :
  countedFrom off chain -> Z.of_nat (off + List.length chain) <= h ->
  Blockchain.filterHeight h chain = Some [].
Proof.
  revert off. induction chain as [|e chain IH]; intros off C H; [reflexivity |].
  destruct (C 0%nat e eq_refl) as (r & -> & Hr).
  cbn [Blockchain.filterHeight].
  rewrite (IH (S off) (countedFrom_tail _ _ _ C))
    by (cbn [List.length] in H; lia).
  cbn [List.length] in H.
  destruct (Z.eqb_spec (Block.height r) h); [lia | reflexivity].
Qed.

(** The blocks of a reached ledger at height [h]: the entry at index
    [h], when there is one. *)
Lemma filterHeight_index (s : Blockchain.t) (h : Z) :
  reachable s ->
  Blockchain.filterHeight h (Blockchain.chain s)
  = Some match Blockchain.blockAt (Blockchain.chain s) h with
         | Some b => [b]
         | None => []
         end.
Proof.
  intros R. destruct (reachable_intact s R) as [I _].
  pose proof (intact_counted _ I) as C.
  unfold Blockchain.blockAt.
  destruct (Z.ltb_spec h 0) as [N|N].
  - now rewrite (filterHeight_below 0 _ h C) by lia.
  - destruct (Nat.lt_ge_cases (Z.to_nat h) (List.length (Blockchain.chain s)))
      as [L|L].
    + destruct (I _ L) as (r & E & _). rewrite E.
      pose proof (filterHeight_found 0 (Z.to_nat h) _ r C E) as F.
      cbn [Nat.add] in F. rewrite Z2Nat.id in F by lia. now rewrite F.
    + rewrite (filterHeight_above 0 _ h C) by (cbn [Nat.add]; lia).
      apply nth_error_None in L. now rewrite L.
Qed.

(** X6.  On a ledger reached by successful appends,
    [getBlockByHeight(h)] resolves with the entry at index [h] of the
    chain, and with [null] exactly when [h] is negative or above the
    height of the ledger. *)
Theorem getBlockByHeight_is_index (s : Blockchain.t) (h : Z) :
  reachable s ->
  Blockchain.getBlockByHeight h s
  = Resolved (Blockchain.blockAt (Blockchain.chain s) h)
  /\ (Blockchain.getBlockByHeight h s = Resolved None
      <-> h < 0 \/ Blockchain.height s < h).
Proof.
  intros R. unfold Blockchain.getBlockByHeight.
  rewrite (filterHeight_index s h R).
  destruct (reachable_intact s R) as [I Hs].
  assert (E : hd_error match Blockchain.blockAt (Blockchain.chain s) h with
                       | Some b => [b]
                       | None => []
                       end
              = Blockchain.blockAt (Blockchain.chain s) h)
    by (destruct (Blockchain.blockAt _ _); reflexivity).
  rewrite E. split; [reflexivity |].
  unfold Blockchain.blockAt.
  destruct (Z.ltb_spec h 0) as [N|N]; [split; [now left | reflexivity] |].
  destruct (Nat.lt_ge_cases (Z.to_nat h) (List.length (Blockchain.chain s)))
    as [L|L].
  - destruct (I _ L) as (r & -> & _). split; [discriminate | lia].
  - apply nth_error_None in L as L'. rewrite L'.
    split; [intros _; right; lia | reflexivity].
Qed.

Lemma getBlockByHeight_is_index_witness :
  Blockchain.getBlockByHeight 7 Sample.ledger2
  = Resolved (Blockchain.blockAt (Blockchain.chain Sample.ledger2) 7)
  /\ (Blockchain.getBlockByHeight 7 Sample.ledger2 = Resolved None
      <-> 7 < 0 \/ Blockchain.height Sample.ledger2 < 7).
Proof.
  apply (getBlockByHeight_is_index Sample.ledger2 7). apply ledger2_reachable.
Defined.

Lemma allBlocks_tail (e : option Block.t) (chain : list (option Block.t)) :
  allBlocks (e :: chain) -> exists b, e = Some b /\ allBlocks chain.
Proof.
  intros A. inversion A as [|x l Hx Hl]; subst.
  destruct e as [b|]; [| contradiction]. now exists b.
Qed.

Lemma filterHash_first (hash : string) (chain : list (option Block.t)) :
  allBlocks chain ->
  exists found,
    Blockchain.filterHash hash chain = Some found
    /\ (found = [] ->
        forall i b, nth_error chain i = Some (Some b) ->
                    Block.hash b <> Some hash)
    /\ (forall b rest, found = b :: rest ->
        exists i,
          nth_error chain i = Some (Some b)
          /\ Block.hash b = Some hash
          /\ forall k b', (k < i)%nat -> nth_error chain k = Some (Some b') ->
                          Block.hash b' <> Some hash).
Proof.
  induction chain as [|e chain IH]; intros A.
  - exists []. conjuncts; [reflexivity | | discriminate].
    intros _ [|i] b E; discriminate E.
  - destruct (allBlocks_tail _ _ A) as (b & -> & A').
    destruct (IH A') as (found & F & Hnone & Hsome).
    cbn [Blockchain.filterHash]. rewrite F.
    destruct (Block.sameHash (Block.hash b) (Some hash)) eqn:Q.
    + eexists. conjuncts; [reflexivity | discriminate |].
      intros b0 rest E. injection E as <- <-. exists 0%nat.
      conjuncts; [reflexivity | now apply sameHash_true | lia].
    + exists found. conjuncts; [reflexivity | |].
      * intros E [|i] b0 N.
        -- injection N as <-. intros H. apply sameHash_true in H. congruence.
        -- now apply (Hnone E i).
      * intros b0 rest E. destruct (Hsome b0 rest E) as (i & N & H & First).
        exists (S i). conjuncts; [exact N | exact H |].
        intros [|k] b' L N'.
        -- injection N' as <-. intros H'. apply sameHash_true in H'. congruence.
        -- apply (First k b'); [lia | exact N'].
Qed.

(** X7.  On a chain without an [undefined] entry, [getBlockByHash]
    never rejects: it resolves with the first block of the chain whose
    stored hash is the given one, and with [undefined] exactly when no
    block of the chain has that stored hash. *)
Theorem getBlockByHash_first_match (s : Blockchain.t) (hash : string) :
  allBlocks (Blockchain.chain s) ->
  exists answer,
    Blockchain.getBlockByHash hash s = Resolved answer
    /\ match answer with
       | None =>
           forall i b, nth_error (Blockchain.chain s) i = Some (Some b) ->
                       Block.hash b <> Some hash
       | Some b =>
           exists i,
             nth_error (Blockchain.chain s) i = Some (Some b)
             /\ Block.hash b = Some hash
             /\ forall k b',
                  (k < i)%nat ->
                  nth_error (Blockchain.chain s) k = Some (Some b') ->
                  Block.hash b' <> Some hash
       end.
Proof.
  intros A. destruct (filterHash_first hash _ A) as (found & F & Hnone & Hsome).
  unfold Blockchain.getBlockByHash. rewrite F.
  exists (hd_error found). split; [reflexivity |].
  destruct found as [|b rest]; cbn [hd_error].
  - now apply Hnone.
  - now apply (Hsome b rest).
Qed.

Lemma intact_allBlocks (chain : list (option Block.t)) :
  intact chain -> allBlocks chain.
Proof.
  intros I. apply Forall_forall. intros e H.
  apply In_nth_error in H as (i & N).
  assert (L : (i < List.length chain)%nat)
    by (apply nth_error_Some; congruence).
  destruct (I i L) as (r & E & _). congruence.
Qed.

Lemma ledger2_allBlocks : allBlocks (Blockchain.chain Sample.ledger2).
Proof. apply intact_allBlocks, reachable_intact, ledger2_reachable. Qed.

Lemma getBlockByHash_first_match_witness :
  exists answer,
    Blockchain.getBlockByHash "00" Sample.ledger2 = Resolved answer
    /\ match answer with
       | None =>
           forall i b,
             nth_error (Blockchain.chain Sample.ledger2) i = Some (Some b) ->
             Block.hash b <> Some "00"
       | Some b =>
           exists i,
             nth_error (Blockchain.chain Sample.ledger2) i = Some (Some b)
             /\ Block.hash b = Some "00"
             /\ forall k b',
                  (k < i)%nat ->
                  nth_error (Blockchain.chain Sample.ledger2) k = Some (Some b') ->
                  Block.hash b' <> Some "00"
       end.
Proof.
  apply (getBlockByHash_first_match Sample.ledger2 "00").
  apply ledger2_allBlocks.
Defined.

(** ** An [undefined] entry *)

Lemma filterHeight_undefined (h : Z) (chain : list (option Block.t)) :
  In None chain -> Blockchain.filterHeight h chain = None.
Proof.
  induction chain as [|[b|] chain IH]; cbn [In Blockchain.filterHeight].
  - contradiction.
  - intros [H|H]; [discriminate |]. now rewrite (IH H).
  - reflexivity.
Qed.

Lemma filterHash_undefined (hash : string) (chain : list (option Block.t)) :
  In None chain -> Blockchain.filterHash hash chain = None.
Proof.
  induction chain as [|[b|] chain IH]; cbn [In Blockchain.filterHash].
  - contradiction.
  - intros [H|H]; [discriminate |]. now rewrite (IH H).
  - reflexivity.
Qed.

Lemma filterOwner_undefined (address : string) (chain : list (option Block.t)) :
  In None chain -> Blockchain.filterOwner address chain = None.
Proof.
  induction chain as [|[b|] chain IH]; cbn [In Blockchain.filterOwner].
  - contradiction.
  - intros [H|H]; [discriminate |]. now rewrite (IH H).
  - reflexivity.
Qed.

Lemma sameButHash_undefined (a b : list (option Block.t)) (i : nat) :
  Forall2 sameButHash a b ->
  nth_error a i = Some None -> nth_error b i = Some None.
Proof.
  intros F. revert i. induction F as [|x y a b Q F IH]; intros [|i] E;
    try discriminate E; cbn [nth_error] in *.
  - injection E as ->. destruct y; [contradiction | reflexivity].
  - now apply IH.
Qed.

Lemma scan_undefined (indices : list nat) (s : Blockchain.Scan) (i : nat) :
  In i indices ->
  nth_error (Blockchain.blocks s) i = Some None ->
  exists s', Blockchain.scan indices s = Blockchain.Thrown s'.
Proof.
  revert s. induction indices as [|j rest IH]; intros s H E; [contradiction |].
  cbn [Blockchain.scan].
  pose proof (visit_sameButHash j s) as V.
  destruct (Blockchain.visit j s) as [s'|s'] eqn:Vj; [| now exists s'].
  cbn [Blockchain.scanOf] in V.
  destruct H as [->|H].
  - unfold Blockchain.visit in Vj. rewrite E in Vj. discriminate Vj.
  - apply (IH s' H). now apply (sameButHash_undefined _ _ i V).
Qed.

(** X8.  Once the chain holds an [undefined] entry (what a failed
    [_addBlock] pushes), every reader stops working: [getBlockByHeight]
    and [getBlockByHash] are rejected with a [TypeError] for every
    argument, the promises of [validateChain] and of
    [getStarsByWalletAddress] never settle, and the routes for a block
    height and for the chain validation never answer. *)
Theorem undefined_entry_stops_every_reader (s : Blockchain.t) :
  In None (Blockchain.chain s) ->
  (forall h, Blockchain.getBlockByHeight h s = Rejected TypeError)
  /\ (forall hash, Blockchain.getBlockByHash hash s = Rejected TypeError)
  /\ Blockchain.settled (Blockchain.validateChain s) = Pending
  /\ (forall address,
        exists run, Blockchain.getStarsByWalletAddress address s = Some run
                    /\ Blockchain.answer run = Blockchain.NoAnswer)
  /\ (forall height, BlockchainController.given height = true ->
                     BlockchainController.getBlockByHeight height s = None)
  /\ BlockchainController.response (BlockchainController.testChainValidation s)
     = None.
Proof.
  intros U.
  assert (P : Blockchain.settled (Blockchain.validateChain s) = Pending).
  { apply In_nth_error in U as (i & E).
    assert (L : (i < List.length (Blockchain.chain s))%nat)
      by (apply nth_error_Some; congruence).
    destruct (scan_undefined (seq 0 (List.length (Blockchain.chain s)))
                (Blockchain.mkScan (Blockchain.chain s) []) i) as (s' & T).
    - apply in_seq. lia.
    - exact E.
    - unfold Blockchain.validateChain. now rewrite T. }
  conjuncts.
  - intros h. unfold Blockchain.getBlockByHeight.
    now rewrite (filterHeight_undefined h _ U).
  - intros hash. unfold Blockchain.getBlockByHash.
    now rewrite (filterHash_undefined hash _ U).
  - exact P.
  - intros address. unfold Blockchain.getStarsByWalletAddress.
    rewrite (filterOwner_undefined address _ U). eexists. split; reflexivity.
  - intros height G. unfold BlockchainController.getBlockByHeight. rewrite G.
    unfold BlockchainController.noBlock, Blockchain.getBlockByHeight.
    destruct (Js.parseInt height) as [h|];
      now rewrite filterHeight_undefined by exact U.
  - unfold BlockchainController.testChainValidation.
    cbn [BlockchainController.response]. now rewrite P.
Qed.

Lemma undefined_entry_stops_every_reader_witness :
  Blockchain.getBlockByHeight 0 Sample.ledgerFailed = Rejected TypeError.
Proof.
  apply (undefined_entry_stops_every_reader Sample.ledgerFailed).
  cbn. right. left. reflexivity.
Defined.

(** ** Submitting a star, whatever the verifier says *)

(** The body of a record read back. *)
Lemma getBData_encoded (data : Json.Value) (b : Block.t) :
  Json.wellFormed data = true ->
  Bytes.isAscii (Json.stringify data) = true ->
  Block.body b = Block.encode data ->
  Block.getBData b
  = Some (if Block.height b >? 0 then Resolved data else Rejected GenesisBlock).
Proof.
  intros W A E. unfold Block.getBData. rewrite E. unfold Block.encode.
  rewrite (hex2ascii_toHex _ (stringify_nonNul data) A).
  now rewrite (parse_stringify data W).
Qed.

Lemma submitStar_after
    (verify : string -> string -> string -> Blockchain.Verdict)
    (now stamp : Z) (address message signature : string) (star : Json.Value)
    (self : Blockchain.t) (valid : bool) :
  verify message address signature = Blockchain.Returns valid ->
  Blockchain.after
    (Blockchain.submitStar verify now stamp address message signature star self)
  = Blockchain.after
      (Blockchain._addBlock stamp (starCandidate address star) self).
Proof. intros V. unfold Blockchain.submitStar. now rewrite V. Qed.

(** X9.  A submission whose signature the verifier refuses is rejected
    (with the error [Invalid message.], or with the time-out error),
    and still its record is appended: from a clock reading of 1000 ms
    on, the chain has one more entry, a sealed block owned by the
    address whose body encodes the star, and the height of the ledger
    is the height of that block. *)
Theorem submitStar_refused_still_appends
    (verify : string -> string -> string -> Blockchain.Verdict)
    (now stamp : Z) (address message signature : string) (star : Json.Value)
    (self : Blockchain.t) :
  verify message address signature = Blockchain.Returns false ->
  1000 <= stamp ->
  let run :=
    Blockchain.submitStar verify now stamp address message signature star self in
  (Blockchain.settled run = Rejected InvalidMessage
   \/ Blockchain.settled run = Rejected TimedOut)
  /\ exists sealed,
       Blockchain.chain (Blockchain.after run)
       = (Blockchain.chain self ++ [Some sealed])%list
       /\ Blockchain.height (Blockchain.after run) = Block.height sealed
       /\ Block.owner sealed = Some address
       /\ Block.body sealed = Block.encode (Json.Object [("star", star)])
       /\ Block.hash sealed = Some (Block.digest sealed).
Proof.
  intros V N run. split.
  - unfold run, Blockchain.submitStar. rewrite V. cbn [Blockchain.settled negb].
    destruct (Js.geb _ _); [now right | now left].
  - unfold run. rewrite (submitStar_after _ _ _ _ _ _ _ _ _ V).
    destruct (addBlock_appends stamp (starCandidate address star) self N)
      as (sealed & A & E & _).
    exists sealed. rewrite E. cbn [Blockchain.chain Blockchain.height].
    destruct (addBlock_keeps_body _ _ _ _ A) as [B O].
    destruct (addBlock_sealed _ _ _ _ A) as (H & _).
    conjuncts; try reflexivity; try assumption.
    + now symmetry.
    + assert (U : unsealed (starCandidate address star)) by reflexivity.
      apply (addBlock_seals _ _ _ _ U A).
Qed.

Lemma submitStar_refused_still_appends_witness :
  (Blockchain.settled
     (Blockchain.submitStar Sample.rejectAll 1600000200123 1600000200456
        "1A2b" Sample.challenge "sig" Sample.star1 Sample.ledger0)
   = Rejected InvalidMessage
   \/ Blockchain.settled
        (Blockchain.submitStar Sample.rejectAll 1600000200123 1600000200456
           "1A2b" Sample.challenge "sig" Sample.star1 Sample.ledger0)
      = Rejected TimedOut)
  /\ exists sealed,
       Blockchain.chain
         (Blockchain.after
            (Blockchain.submitStar Sample.rejectAll 1600000200123 1600000200456
               "1A2b" Sample.challenge "sig" Sample.star1 Sample.ledger0))
       = (Blockchain.chain Sample.ledger0 ++ [Some sealed])%list
       /\ Blockchain.height
            (Blockchain.after
               (Blockchain.submitStar Sample.rejectAll 1600000200123
                  1600000200456 "1A2b" Sample.challenge "sig" Sample.star1
                  Sample.ledger0))
          = Block.height sealed
       /\ Block.owner sealed = Some "1A2b"
       /\ Block.body sealed = Block.encode (Json.Object [("star", Sample.star1)])
       /\ Block.hash sealed = Some (Block.digest sealed).
Proof.
  apply (submitStar_refused_still_appends Sample.rejectAll 1600000200123
           1600000200456 "1A2b" Sample.challenge "sig" Sample.star1
           Sample.ledger0).
  - reflexivity.
  - lia.
Defined.

(** A ledger reached by appends has a genesis record. *)
Lemma reachable_nonempty (s : Blockchain.t) :
  reachable s -> (0 < List.length (Blockchain.chain s))%nat.
Proof.
  intros R. destruct R as [now genesis A | s now candidate sealed R U A].
  - rewrite constructor_is_append.
    destruct (addBlock_pushes now (Block.constructor Blockchain.genesisData)
                Blockchain.empty) as (e & _ & C & _).
    rewrite C, length_app. cbn [List.length]. lia.
  - destruct (addBlock_pushes now candidate s) as (e & _ & C & _).
    rewrite C, length_app. cbn [List.length]. lia.
Qed.

(** X10.  A submission the verifier accepts, on a ledger reached by
    successful appends and from a clock reading of 1000 ms on: the
    ledger after it is again such a ledger, its last entry is the
    sealed block, owned by the address and one above the former
    height; the promise resolves with that block unless it was rejected
    for the time-out; [getBlockByHeight] finds the block at its height
    and [getBData] gives the star back when its JSON text has no
    character above 127. *)
Theorem submitStar_accepted
    (verify : string -> string -> string -> Blockchain.Verdict)
    (now stamp : Z) (address message signature : string) (star : Json.Value)
    (s : Blockchain.t) :
  reachable s ->
  verify message address signature = Blockchain.Returns true ->
  1000 <= stamp ->
  let run :=
    Blockchain.submitStar verify now stamp address message signature star s in
  reachable (Blockchain.after run)
  /\ exists sealed,
       Blockchain.chain (Blockchain.after run)
       = (Blockchain.chain s ++ [Some sealed])%list
       /\ (Blockchain.settled run = Resolved (Some sealed)
           \/ Blockchain.settled run = Rejected TimedOut)
       /\ Block.owner sealed = Some address
       /\ Block.height sealed = Blockchain.height s + 1
       /\ Blockchain.getBlockByHeight (Blockchain.height s + 1)
            (Blockchain.after run)
          = Resolved (Some sealed)
       /\ (Json.wellFormed star = true ->
           Bytes.isAscii (Json.stringify (Json.Object [("star", star)])) = true ->
           Block.getBData sealed
           = Some (Resolved (Json.Object [("star", star)]))).
Proof.
  intros R V N run.
  destruct (addBlock_appends stamp (starCandidate address star) s N)
    as (sealed & A & E & _).
  assert (R' : reachable (Blockchain.after run))
    by (apply (submitStar_reachable _ _ _ _ _ _ _ _ _ sealed R V A)).
  split; [exact R' |].
  exists sealed.
  assert (C : Blockchain.chain (Blockchain.after run)
              = (Blockchain.chain s ++ [Some sealed])%list).
  { unfold run. rewrite (submitStar_after _ _ _ _ _ _ _ _ _ V), E. reflexivity. }
  destruct (addBlock_keeps_body _ _ _ _ A) as [B O].
  destruct (addBlock_sealed _ _ _ _ A) as (H & _).
  destruct (reachable_intact s R) as [_ Hs].
  pose proof (reachable_nonempty s R) as Ne.
  assert (H' : Block.height sealed = Blockchain.height s + 1) by lia.
  conjuncts.
  - exact C.
  - unfold run, Blockchain.submitStar. rewrite V. cbn [Blockchain.settled negb].
    destruct (Js.geb _ _); [now right | left]. exact A.
  - exact O.
  - exact H'.
  - rewrite <- H', H.
    apply (getBlockByHeight_reachable _ _ _ R').
    rewrite C, nth_error_app2 by apply Nat.le_refl.
    now rewrite Nat.sub_diag.
  - intros W Asc.
    rewrite (getBData_encoded (Json.Object [("star", star)]) sealed);
      [| | exact Asc | exact B].
    + destruct (Z.gtb_spec (Block.height sealed) 0); [reflexivity | lia].
    + cbn. now rewrite W.
Qed.

Lemma submitStar_accepted_witness :
  reachable
    (Blockchain.after
       (Blockchain.submitStar Sample.acceptAll 1600000200123 1600000200456
          "1A2b" Sample.challenge "sig" Sample.star1 Sample.ledger0)).
Proof.
  apply (submitStar_accepted Sample.acceptAll 1600000200123 1600000200456
           "1A2b" Sample.challenge "sig" Sample.star1 Sample.ledger0).
  - apply ledger0_reachable.
  - reflexivity.
  - lia.
Defined.


(** ** The stars of an address *)

Lemma registered_reachable (s : Blockchain.t)
    (history : list (string * Json.Value)) :
  registered s history -> reachable s.
Proof.
  induction 1 as [now genesis A | s history stamp address star sealed R IH W Asc A].
  - apply (reach_new now genesis A).
  - apply (reach_append s stamp _ sealed IH); [reflexivity | exact A].
Qed.

(** The chain of a registry: the genesis record, which has no owner,
    and one record for each submission. *)
Lemma registered_records (s : Blockchain.t)
    (history : list (string * Json.Value)) :
  registered s history ->
  exists genesis records,
    Blockchain.chain s = Some genesis :: map Some records
    /\ Block.owner genesis = None
    /\ Forall2 holds records history.
Proof.
  induction 1 as [now genesis A | s history stamp address star sealed R IH W Asc A].
  - exists genesis, []. rewrite constructor_is_append.
    destruct (addBlock_sealed _ _ _ _ A) as (_ & _ & _ & C).
    destruct (addBlock_keeps_body _ _ _ _ A) as [_ O].
    rewrite C. conjuncts; [reflexivity | exact O | constructor].
  - destruct IH as (genesis & records & C & G & F).
    exists genesis, (records ++ [sealed])%list.
    destruct (addBlock_sealed _ _ _ _ A) as (_ & _ & _ & C').
    destruct (addBlock_keeps_body _ _ _ _ A) as [B O].
    rewrite C', C, map_app. conjuncts; [reflexivity | exact G |].
    apply Forall2_app; [exact F |].
    constructor; [| constructor]. now repeat split.
Qed.

Lemma filterOwner_records (address : string) (records : list Block.t) :
  Blockchain.filterOwner address (map Some records)
  = Some (filter (fun r => Block.sameHash (Block.owner r) (Some address))
            records).
Proof.
  induction records as [|r records IH]; [reflexivity |].
  cbn [map Blockchain.filterOwner filter]. rewrite IH. reflexivity.
Qed.

Lemma decodeBodies_held (address : string) (records : list Block.t)
    (history : list (string * Json.Value)) :
  Forall2 holds records history ->
  Blockchain.decodeBodies
    (filter (fun r => Block.sameHash (Block.owner r) (Some address)) records)
  = Blockchain.Decoded (starsOf address history).
Proof.
  induction 1 as [|r p records history (O & B & W & A) F IH]; [reflexivity |].
  unfold starsOf in *. cbn [filter]. rewrite O. cbn [Block.sameHash].
  destruct (String.eqb (fst p) address); [| exact IH].
  cbn [Blockchain.decodeBodies map]. rewrite B. unfold Block.encode.
  rewrite (hex2ascii_toHex _ (stringify_nonNul _) A).
  rewrite parse_stringify by (cbn; now rewrite W).
  now rewrite IH.
Qed.

Lemma filter_length_held (address : string) (records : list Block.t)
    (history : list (string * Json.Value)) :
  Forall2 holds records history ->
  List.length
    (filter (fun r => Block.sameHash (Block.owner r) (Some address)) records)
  = List.length (starsOf address history).
Proof.
  induction 1 as [|r p records history (O & B & W & A) F IH]; [reflexivity |].
  unfold starsOf in *. cbn [filter]. rewrite O. cbn [Block.sameHash].
  destruct (String.eqb (fst p) address); [| exact IH].
  cbn [map List.length]. now rewrite IH.
Qed.

Lemma validateChain_reachable (s : Blockchain.t) :
  reachable s ->
  Blockchain.validateChain s
  = {| Blockchain.after := s;
       Blockchain.events := [];
       Blockchain.settled := Resolved (Blockchain.Text "No errors detected.") |}.
Proof.
  intros R. destruct (reachable_intact s R) as [I _].
  unfold Blockchain.validateChain.
  rewrite (scan_intact _ [] _ I)
    by (apply Forall_forall; intros i H; apply in_seq in H; lia).
  cbn [Blockchain.blocks Blockchain.errorLog]. now destruct s.
Qed.

(** The answer of [getStarsByWalletAddress] on a registry. *)
Lemma getStars_registered (s : Blockchain.t)
    (history : list (string * Json.Value)) (address : string) :
  registered s history ->
  Blockchain.getStarsByWalletAddress address s
  = Some {| Blockchain.ledger := s;
            Blockchain.logged := [ConsoleLog "SUCCESS:  No errors detected."];
            Blockchain.answer :=
              match starsOf address history with
              | [] => Blockchain.AddressNotFound
              | _ :: _ => Blockchain.Stars (starsOf address history)
              end |}.
Proof.
  intros R. destruct (registered_records s history R) as (g & records & C & G & F).
  unfold Blockchain.getStarsByWalletAddress.
  rewrite (validateChain_reachable s (registered_reachable s history R)).
  cbn [Blockchain.after Blockchain.settled Blockchain.validationLog].
  rewrite C. cbn [Blockchain.filterOwner]. rewrite filterOwner_records, G.
  cbn [Block.sameHash].
  rewrite (decodeBodies_held address records history F).
  rewrite (filter_length_held address records history F).
  destruct (starsOf address history); reflexivity.
Qed.

(** X12.  On a registry (a genesis record and the records of a list of
    submissions with ASCII stars), [getStarsByWalletAddress] leaves the
    ledger unchanged, logs the success line of the chain validation,
    and resolves with the decoded bodies of the submissions of the
    address, in the order they were submitted; for an address without a
    submission it is rejected with [Address not found.]. *)
Theorem getStarsByWalletAddress_registry (s : Blockchain.t)
    (history : list (string * Json.Value)) (address : string) :
  registered s history ->
  Blockchain.getStarsByWalletAddress address s
  = Some {| Blockchain.ledger := s;
            Blockchain.logged := [ConsoleLog "SUCCESS:  No errors detected."];
            Blockchain.answer :=
              match starsOf address history with
              | [] => Blockchain.AddressNotFound
              | _ :: _ => Blockchain.Stars (starsOf address history)
              end |}.
Proof. apply getStars_registered. Qed.

Lemma ledger0_registered : registered Sample.ledger0 [].
Proof.
  rewrite ledger0_eq.
  apply (registered_new 1600000000123 (Sample.entry 0 Sample.ledger0)).
  evaluate.
Qed.

Lemma ledger1_registered : registered Sample.ledger1 [("1A2b", Sample.star1)].
Proof.
  rewrite ledger1_eq.
  rewrite (submitStar_after Sample.acceptAll _ _ _ _ _ _ _ true eq_refl).
  apply (registered_submit Sample.ledger0 [] 1600000200456 "1A2b" Sample.star1
           (Sample.entry 1 Sample.ledger1) ledger0_registered).
  - reflexivity.
  - evaluate.
  - evaluate.
Qed.

Lemma ledger2_registered :
  registered Sample.ledger2 [("1A2b", Sample.star1); ("1A2b", Sample.star2)].
Proof.
  rewrite ledger2_eq.
  rewrite (submitStar_after Sample.acceptAll _ _ _ _ _ _ _ true eq_refl).
  apply (registered_submit Sample.ledger1 [("1A2b", Sample.star1)]
           1600000250456 "1A2b" Sample.star2
           (Sample.entry 2 Sample.ledger2) ledger1_registered).
  - reflexivity.
  - evaluate.
  - evaluate.
Qed.

Lemma getStarsByWalletAddress_registry_witness :
  Blockchain.getStarsByWalletAddress "1A2b" Sample.ledger2
  = Some {| Blockchain.ledger := Sample.ledger2;
            Blockchain.logged := [ConsoleLog "SUCCESS:  No errors detected."];
            Blockchain.answer :=
              match
                starsOf "1A2b" [("1A2b", Sample.star1); ("1A2b", Sample.star2)]
              with
              | [] => Blockchain.AddressNotFound
              | _ :: _ =>
                  Blockchain.Stars
                    (starsOf "1A2b"
                       [("1A2b", Sample.star1); ("1A2b", Sample.star2)])
              end |}.
Proof.
  apply (getStarsByWalletAddress_registry Sample.ledger2
           [("1A2b", Sample.star1); ("1A2b", Sample.star2)] "1A2b").
  apply ledger2_registered.
Defined.

Lemma starsOf_last (address : string) (history : list (string * Json.Value))
    (star : Json.Value) :
  starsOf address (history ++ [(address, star)])
  = (starsOf address history ++ [starData star])%list.
Proof.
  unfold starsOf. rewrite filter_app, map_app. cbn [filter fst].
  now rewrite String.eqb_refl.
Qed.

(** X13.  The star of a submission whose signature the verifier refused
    is served like any other: after the rejected [submitStar] on a
    registry, [getStarsByWalletAddress] of the address resolves with its
    former stars followed by the refused one. *)
Theorem refused_star_is_served
    (verify : string -> string -> string -> Blockchain.Verdict)
    (now stamp : Z) (address message signature : string) (star : Json.Value)
    (s : Blockchain.t) (history : list (string * Json.Value)) :
  registered s history ->
  verify message address signature = Blockchain.Returns false ->
  1000 <= stamp ->
  Json.wellFormed star = true ->
  Bytes.isAscii (Json.stringify (starData star)) = true ->
  let run :=
    Blockchain.submitStar verify now stamp address message signature star s in
  (Blockchain.settled run = Rejected InvalidMessage
   \/ Blockchain.settled run = Rejected TimedOut)
  /\ exists served,
       Blockchain.getStarsByWalletAddress address (Blockchain.after run)
       = Some served
       /\ Blockchain.answer served
          = Blockchain.Stars (starsOf address history ++ [starData star]).
Proof.
  intros R V N W A run. split.
  - unfold run, Blockchain.submitStar. rewrite V. cbn [Blockchain.settled negb].
    destruct (Js.geb _ _); [now right | now left].
  - unfold run. rewrite (submitStar_after _ _ _ _ _ _ _ _ _ V).
    destruct (addBlock_appends stamp (starCandidate address star) s N)
      as (sealed & Ap & _).
    pose proof (registered_submit s history stamp address star sealed R W A Ap)
      as R'.
    rewrite (getStars_registered _ _ address R'). eexists. split; [reflexivity |].
    cbn [Blockchain.answer]. rewrite starsOf_last.
    destruct (starsOf address history); reflexivity.
Qed.

Lemma refused_star_is_served_witness :
  exists served,
    Blockchain.getStarsByWalletAddress "1A2b"
      (Blockchain.after
         (Blockchain.submitStar Sample.rejectAll 1600000260123 1600000260456
            "1A2b" Sample.challenge "forged" Sample.star2 Sample.ledger1))
    = Some served
    /\ Blockchain.answer served
       = Blockchain.Stars
           (starsOf "1A2b" [("1A2b", Sample.star1)] ++ [starData Sample.star2]).
Proof.
  apply (refused_star_is_served Sample.rejectAll 1600000260123 1600000260456
           "1A2b" Sample.challenge "forged" Sample.star2 Sample.ledger1
           [("1A2b", Sample.star1)]).
  - apply ledger1_registered.
  - reflexivity.
  - lia.
  - reflexivity.
  - evaluate.
Defined.

Lemma decodeBodies_length (blocks : list Block.t) (stars : list Json.Value) :
  Blockchain.decodeBodies blocks = Blockchain.Decoded stars ->
  List.length stars = List.length blocks.
Proof.
  revert stars. induction blocks as [|b blocks IH]; intros stars.
  - cbn. intros H. now injection H as <-.
  - cbn [Blockchain.decodeBodies].
    destruct (Hex2Ascii.hex2ascii (Block.body b)); [| discriminate].
    destruct (Json.parse s); [| discriminate].
    destruct (Blockchain.decodeBodies blocks) as [rest| |]; try discriminate.
    intros H. injection H as <-. cbn [List.length]. now rewrite (IH rest).
Qed.

Lemma filterOwner_owned (address : string) (chain : list (option Block.t))
    (owned : list Block.t) :
  Blockchain.filterOwner address chain = Some owned ->
  Forall (fun b => In (Some b) chain /\ Block.owner b = Some address) owned.
Proof.
  revert owned. induction chain as [|[b|] chain IH]; intros owned.
  - cbn. intros H. injection H as <-. constructor.
  - cbn [Blockchain.filterOwner].
    destruct (Blockchain.filterOwner address chain) as [found|]; [| discriminate].
    specialize (IH found eq_refl).
    assert (T : Forall (fun b0 => In (Some b0) (Some b :: chain)
                                  /\ Block.owner b0 = Some address) found).
    { apply Forall_forall. intros x Hx.
      rewrite Forall_forall in IH. destruct (IH x Hx). split; [now right | easy]. }
    destruct (Block.sameHash (Block.owner b) (Some address)) eqn:Q;
      intros H; injection H as <-; [| exact T].
    constructor; [| exact T]. split; [now left | now apply sameHash_true].
  - discriminate.
Qed.

(** X14.  On any ledger the run of [getStarsByWalletAddress] leaves the
    ledger that [validateChain] leaves; it never resolves with an empty
    list: the list it resolves with has one star for each block of the
    chain that is owned by the address; and it is rejected with
    [Address not found.] only when no block of the chain is owned by
    the address. *)
Theorem getStarsByWalletAddress_answer (s : Blockchain.t) (address : string)
    (run : Blockchain.StarsRun) :
  Blockchain.getStarsByWalletAddress address s = Some run ->
  Blockchain.ledger run = Blockchain.after (Blockchain.validateChain s)
  /\ (forall stars,
        Blockchain.answer run = Blockchain.Stars stars ->
        stars <> []
        /\ exists owned,
             Blockchain.filterOwner address (Blockchain.chain s) = Some owned
             /\ List.length stars = List.length owned
             /\ Forall (fun b => In (Some b) (Blockchain.chain s)
                                 /\ Block.owner b = Some address) owned)
  /\ (Blockchain.answer run = Blockchain.AddressNotFound ->
      Blockchain.filterOwner address (Blockchain.chain s) = Some []).
Proof.
  unfold Blockchain.getStarsByWalletAddress.
  destruct (Blockchain.filterOwner address (Blockchain.chain s)) as [owned|] eqn:F.
  - pose proof (filterOwner_owned _ _ _ F) as O.
    destruct (Blockchain.decodeBodies owned) as [decoded| |] eqn:D;
      [| | discriminate]; intros H; injection H as <-;
      cbn [Blockchain.ledger Blockchain.answer].
    + apply decodeBodies_length in D. conjuncts; [reflexivity | |].
      * intros stars E. destruct owned as [|b owned]; [discriminate E |].
        cbn [List.length Nat.eqb] in E. injection E as <-.
        split; [destruct decoded; [discriminate D | discriminate] |].
        now exists (b :: owned).
      * destruct owned; [reflexivity | discriminate].
    + conjuncts; [reflexivity | |].
      * intros stars E. destruct (List.length owned =? 0)%nat; discriminate E.
      * destruct owned; [reflexivity | discriminate].
  - intros H. injection H as <-. cbn [Blockchain.ledger Blockchain.answer].
    conjuncts; [reflexivity | discriminate | discriminate].
Qed.

Lemma getStarsByWalletAddress_answer_witness :
  exists run,
    Blockchain.getStarsByWalletAddress "1A2b" Sample.ledger0 = Some run
    /\ Blockchain.ledger run
       = Blockchain.after (Blockchain.validateChain Sample.ledger0).
Proof.
  eexists. split.
  - apply (getStars_registered Sample.ledger0 [] "1A2b" ledger0_registered).
  - apply (getStarsByWalletAddress_answer Sample.ledger0 "1A2b").
    apply (getStars_registered Sample.ledger0 [] "1A2b" ledger0_registered).
Defined.

(** ** Validating twice *)

(** The chain after one turn of the loop. *)
Lemma visit_blocks (i : nat) (s : Blockchain.Scan) :
  Blockchain.blocks (Blockchain.scanOf (Blockchain.visit i s))
  = match nth_error (Blockchain.blocks s) i with
    | Some (Some block) =>
        Blockchain.setAt i
          (Some (Block.setHash (Some (Block.digest block)) block))
          (Blockchain.blocks s)
    | _ => Blockchain.blocks s
    end.
Proof.
  unfold Blockchain.visit.
  destruct (nth_error (Blockchain.blocks s) i) as [[block|]|]; try reflexivity.
  unfold Block.validate.
  repeat match goal with
         | |- context [if ?c then _ else _] => destruct c
         | |- context [match Blockchain.filterHeight ?h ?c with _ => _ end] =>
             destruct (Blockchain.filterHeight h c) as [[|? ?]|]
         end; reflexivity.
Qed.

Lemma setHash_sealed (b : Block.t) :
  Block.hash b = Some (Block.digest b) ->
  Block.setHash (Some (Block.digest b)) b = b.
Proof. destruct b. cbn. now intros ->. Qed.

(** A turn of the loop leaves a sealed block as it is. *)
Lemma visit_keeps_sealed (i j : nat) (s : Blockchain.Scan) (b : Block.t) :
  nth_error (Blockchain.blocks s) j = Some (Some b) ->
  Block.hash b = Some (Block.digest b) ->
  nth_error (Blockchain.blocks (Blockchain.scanOf (Blockchain.visit i s))) j
  = Some (Some b).
Proof.
  intros E H. rewrite visit_blocks.
  destruct (Nat.eq_dec i j) as [->|N].
  - rewrite E, (setHash_sealed b H). rewrite setAt_nth_same; [reflexivity |].
    apply nth_error_Some. congruence.
  - destruct (nth_error (Blockchain.blocks s) i) as [[block|]|]; try exact E.
    now rewrite setAt_nth_other.
Qed.

Lemma scan_keeps_sealed (indices : list nat) (j : nat) (s : Blockchain.Scan)
    (b : Block.t) :
  nth_error (Blockchain.blocks s) j = Some (Some b) ->
  Block.hash b = Some (Block.digest b) ->
  nth_error (Blockchain.blocks (Blockchain.scanOf (Blockchain.scan indices s))) j
  = Some (Some b).
Proof.
  revert s. induction indices as [|i rest IH]; intros s E H; [exact E |].
  cbn [Blockchain.scan].
  pose proof (visit_keeps_sealed i j s b E H) as K.
  destruct (Blockchain.visit i s) as [s'|s']; cbn [Blockchain.scanOf] in K.
  - now apply IH.
  - exact K.
Qed.

(** A turn of the loop that does not throw leaves the entry sealed. *)
Lemma visit_seals (i : nat) (s s' : Blockchain.Scan) :
  Blockchain.visit i s = Blockchain.Continue s' ->
  (i < List.length (Blockchain.blocks s))%nat ->
  exists b, nth_error (Blockchain.blocks s') i = Some (Some b)
            /\ Block.hash b = Some (Block.digest b).
Proof.
  intros V L. pose proof (visit_blocks i s) as B. rewrite V in B.
  cbn [Blockchain.scanOf] in B.
  destruct (nth_error (Blockchain.blocks s) i) as [[block|]|] eqn:E.
  - exists (Block.setHash (Some (Block.digest block)) block).
    rewrite B, setAt_nth_same by exact L. split; [reflexivity |].
    cbn [Block.hash Block.setHash]. now rewrite digest_setHash.
  - unfold Blockchain.visit in V. rewrite E in V. discriminate V.
  - apply nth_error_None in E. lia.
Qed.

Lemma visit_length (i : nat) (s : Blockchain.Scan) :
  List.length (Blockchain.blocks (Blockchain.scanOf (Blockchain.visit i s)))
  = List.length (Blockchain.blocks s).
Proof.
  rewrite visit_blocks.
  destruct (nth_error (Blockchain.blocks s) i) as [[block|]|]; try reflexivity.
  apply setAt_length.
Qed.

Lemma scan_length (indices : list nat) (s : Blockchain.Scan) :
  List.length (Blockchain.blocks (Blockchain.scanOf (Blockchain.scan indices s)))
  = List.length (Blockchain.blocks s).
Proof.
  revert s. induction indices as [|i rest IH]; intros s; [reflexivity |].
  cbn [Blockchain.scan]. pose proof (visit_length i s) as L.
  destruct (Blockchain.visit i s) as [s'|s']; cbn [Blockchain.scanOf] in *.
  - now rewrite IH.
  - exact L.
Qed.

Lemma scan_seals (indices : list nat) (s s' : Blockchain.Scan) (i : nat) :
  Blockchain.scan indices s = Blockchain.Continue s' ->
  In i indices ->
  (i < List.length (Blockchain.blocks s))%nat ->
  exists b, nth_error (Blockchain.blocks s') i = Some (Some b)
            /\ Block.hash b = Some (Block.digest b).
Proof.
  revert s. induction indices as [|j rest IH]; intros s Sc H L; [contradiction |].
  cbn [Blockchain.scan] in Sc.
  destruct (Blockchain.visit j s) as [s1|s1] eqn:V; [| discriminate Sc].
  destruct H as [->|H].
  - destruct (visit_seals i s s1 V L) as (b & E & Hb).
    exists b. split; [| exact Hb].
    pose proof (scan_keeps_sealed rest i s1 b E Hb) as K.
    now rewrite Sc in K.
  - apply (IH s1 Sc H). pose proof (visit_length j s) as Len.
    rewrite V in Len. cbn [Blockchain.scanOf] in Len. lia.
Qed.

(** A turn of the loop on a chain of sealed blocks writes nothing and
    finds no altered block. *)
Lemma visit_resealed (chain : list (option Block.t)) (log : list Error)
    (i : nat) :
  resealed chain ->
  Forall isInvalidLink log ->
  exists log',
    Forall isInvalidLink log'
    /\ (Blockchain.visit i (Blockchain.mkScan chain log)
        = Blockchain.Continue (Blockchain.mkScan chain log')
        \/ Blockchain.visit i (Blockchain.mkScan chain log)
           = Blockchain.Thrown (Blockchain.mkScan chain log')).
Proof.
  intros R F. unfold Blockchain.visit. cbn [Blockchain.blocks Blockchain.errorLog].
  destruct (nth_error chain i) as [[b|]|] eqn:E.
  - assert (L : (i < List.length chain)%nat)
      by (apply nth_error_Some; congruence).
    destruct (R i L) as (b' & E' & H). rewrite E in E'. injection E' as <-.
    rewrite (validate_sealed b H), (setAt_same _ _ _ E).
    destruct (Block.height b >? 0); [| exists log; split; [exact F | now left]].
    destruct (Blockchain.filterHeight (Block.height b - 1) chain) as [[|p ?]|];
      try (exists log; split; [exact F | now right]).
    destruct (Block.sameHash (Block.previousBlockHash b) (Block.hash p)).
    + exists log. split; [exact F | now left].
    + eexists. split; [| left; reflexivity].
      apply Forall_app. split; [exact F |]. now constructor.
  - exists log. split; [exact F | now right].
  - exists log. split; [exact F | now left].
Qed.

Lemma scan_resealed (chain : list (option Block.t)) (log : list Error)
    (indices : list nat) :
  resealed chain ->
  Forall isInvalidLink log ->
  exists log',
    Forall isInvalidLink log'
    /\ (Blockchain.scan indices (Blockchain.mkScan chain log)
        = Blockchain.Continue (Blockchain.mkScan chain log')
        \/ Blockchain.scan indices (Blockchain.mkScan chain log)
           = Blockchain.Thrown (Blockchain.mkScan chain log')).
Proof.
  intros R. revert log. induction indices as [|i rest IH]; intros log F.
  - exists log. split; [exact F | now left].
  - cbn [Blockchain.scan].
    destruct (visit_resealed chain log i R F) as (log1 & F1 & [V|V]); rewrite V.
    + apply (IH log1 F1).
    + exists log1. split; [exact F1 | now right].
Qed.

(** X15.  Once [validateChain] has resolved, every entry of the chain
    is a block whose stored hash is its digest; a second
    [validateChain] changes nothing in the ledger and reports no
    altered block any more: every error of its list is a link error. *)
Theorem validateChain_second_run (s : Blockchain.t)
    (report : Blockchain.Report) :
  Blockchain.settled (Blockchain.validateChain s) = Resolved report ->
  let checked := Blockchain.after (Blockchain.validateChain s) in
  resealed (Blockchain.chain checked)
  /\ Blockchain.after (Blockchain.validateChain checked) = checked
  /\ forall errors,
       Blockchain.settled (Blockchain.validateChain checked)
       = Resolved (Blockchain.Errors errors) ->
       Forall isInvalidLink errors.
Proof.
  intros Res checked.
  assert (R : resealed (Blockchain.chain checked)).
  { unfold checked. rewrite validateChain_after. cbn [Blockchain.chain].
    unfold Blockchain.validateChain in Res.
    pose proof (scan_length (seq 0 (List.length (Blockchain.chain s)))
                  (Blockchain.mkScan (Blockchain.chain s) [])) as Len.
    destruct (Blockchain.scan _ _) as [s'|s'] eqn:Sc;
      [| discriminate Res].
    cbn [Blockchain.scanOf Blockchain.blocks] in *.
    intros i L. rewrite Len in L.
    apply (scan_seals _ _ _ i Sc); [apply in_seq; lia | exact L]. }
  split; [exact R |].
  destruct (scan_resealed (Blockchain.chain checked) []
              (seq 0 (List.length (Blockchain.chain checked))) R
              (Forall_nil _)) as (log & F & Sc).
  split.
  - rewrite validateChain_after.
    destruct Sc as [-> | ->]; cbn [Blockchain.scanOf Blockchain.blocks];
      now destruct checked.
  - intros errors. unfold Blockchain.validateChain.
    destruct Sc as [-> | ->]; cbn [Blockchain.settled Blockchain.errorLog];
      [| discriminate].
    destruct log; [discriminate |]. intros H. now injection H as <-.
Qed.

Lemma validateChain_second_run_witness :
  let checked :=
    Blockchain.after
      (Blockchain.validateChain
         (Sample.tamper 1 (Block.setBody "7b7d") Sample.ledger2)) in
  resealed (Blockchain.chain checked)
  /\ Blockchain.after (Blockchain.validateChain checked) = checked
  /\ forall errors,
       Blockchain.settled (Blockchain.validateChain checked)
       = Resolved (Blockchain.Errors errors) ->
       Forall isInvalidLink errors.
Proof.
  eapply (validateChain_second_run
            (Sample.tamper 1 (Block.setBody "7b7d") Sample.ledger2)).
  vm_compute. reflexivity.
Defined.

(** ** An altered body *)

(** X16.  A record of a ledger reached by successful appends, altered
    out of band so that its height and stored hash stay and its digest
    changes: [validateChain] resolves with the error
    [Invalid block #h] carrying the recomputed digest, followed by the
    link error for height [h + 1] exactly when the record has a
    successor, and stores the recomputed digest in the record. *)
Theorem validateChain_reports_altered_record (s : Blockchain.t) (h : nat)
    (r r' : Block.t) :
  reachable s ->
  nth_error (Blockchain.chain s) h = Some (Some r) ->
  Block.height r' = Block.height r ->
  Block.hash r' = Block.hash r ->
  Block.digest r' <> Block.digest r ->
  let altered :=
    {| Blockchain.chain := Blockchain.setAt h (Some r') (Blockchain.chain s);
       Blockchain.height := Blockchain.height s |} in
  Blockchain.validateChain altered
  = {| Blockchain.after :=
         {| Blockchain.chain :=
              Blockchain.setAt h
                (Some (Block.setHash (Some (Block.digest r')) r'))
                (Blockchain.chain s);
            Blockchain.height := Blockchain.height s |};
       Blockchain.events := [];
       Blockchain.settled :=
         Resolved
           (Blockchain.Errors
              (InvalidBlock (Z.of_nat h) (Some (Block.digest r'))
               :: if (S h <? List.length (Blockchain.chain s))%nat
                  then [InvalidLink (Z.of_nat (S h))] else [])) |}.
Proof.
  intros R E H Hh D altered.
  destruct (reachable_intact s R) as [I _].
  destruct (intact_entry _ _ _ I E) as (_ & Sealed & _).
  assert (N : Block.hash r' <> Some (Block.digest r')) by congruence.
  destruct (validateChain_reports_alteration s h r r' I E H N) as [_ V].
  unfold altered. rewrite V. do 3 f_equal.
  destruct (S h <? List.length (Blockchain.chain s))%nat; [| reflexivity].
  cbn [andb].
  destruct (Block.sameHash (Block.hash r) (Some (Block.digest r'))) eqn:Q;
    [| reflexivity].
  apply sameHash_true in Q. congruence.
Qed.

Lemma validateChain_reports_altered_record_witness :
  let r := Sample.entry 1 Sample.ledger2 in
  let r' := Block.setBody "7b7d" r in
  Blockchain.validateChain
    {| Blockchain.chain :=
         Blockchain.setAt 1 (Some r') (Blockchain.chain Sample.ledger2);
       Blockchain.height := Blockchain.height Sample.ledger2 |}
  = {| Blockchain.after :=
         {| Blockchain.chain :=
              Blockchain.setAt 1
                (Some (Block.setHash (Some (Block.digest r')) r'))
                (Blockchain.chain Sample.ledger2);
            Blockchain.height := Blockchain.height Sample.ledger2 |};
       Blockchain.events := [];
       Blockchain.settled :=
         Resolved
           (Blockchain.Errors
              (InvalidBlock (Z.of_nat 1) (Some (Block.digest r'))
               :: if (2 <? List.length (Blockchain.chain Sample.ledger2))%nat
                  then [InvalidLink (Z.of_nat 2)] else [])) |}.
Proof.
  cbv zeta.
  apply (validateChain_reports_altered_record Sample.ledger2 1
           (Sample.entry 1 Sample.ledger2)
           (Block.setBody "7b7d" (Sample.entry 1 Sample.ledger2))).
  - apply ledger2_reachable.
  - reflexivity.
  - reflexivity.
  - reflexivity.
  - vm_compute. discriminate.
Defined.

(** ** The routes *)

Lemma validateChain_never_rejects (s : Blockchain.t) (e : Error) :
  Blockchain.settled (Blockchain.validateChain s) <> Rejected e.
Proof.
  unfold Blockchain.validateChain.
  destruct (Blockchain.scan _ _) as [s'|s']; cbn [Blockchain.settled];
    [destruct (Blockchain.errorLog s') |]; discriminate.
Qed.

(** X17.  The route for the chain validation never answers 500: every
    answer it gives is 200 with the text [Blockchain valid.], also
    when [validateChain] resolved with a list of errors (which is then
    not empty); it gives no answer exactly when the promise of
    [validateChain] stays pending; and the ledger after the request is
    the one [validateChain] leaves. *)
Theorem testChainValidation_always_valid (bc : Blockchain.t) :
  let handled := BlockchainController.testChainValidation bc in
  BlockchainController.ledger handled
  = Blockchain.after (Blockchain.validateChain bc)
  /\ (forall r, BlockchainController.response handled = Some r ->
                r = BlockchainController.mkResponse 200
                      (BlockchainController.SentText "Blockchain valid."))
  /\ (forall errors,
        Blockchain.settled (Blockchain.validateChain bc)
        = Resolved (Blockchain.Errors errors) ->
        errors <> []
        /\ BlockchainController.response handled
           = Some (BlockchainController.mkResponse 200
                     (BlockchainController.SentText "Blockchain valid.")))
  /\ (BlockchainController.response handled = None
      <-> Blockchain.settled (Blockchain.validateChain bc) = Pending).
Proof.
  cbv zeta. unfold BlockchainController.testChainValidation.
  cbn [BlockchainController.ledger BlockchainController.response].
  pose proof (validateChain_never_rejects bc) as N.
  conjuncts.
  - reflexivity.
  - intros r. destruct (Blockchain.settled (Blockchain.validateChain bc)) as [x|e|];
      [intros H; now injection H as <- | now destruct (N e) | discriminate].
  - intros errors E. split.
    + apply (validateChain_list_nonempty bc errors E).
    + now rewrite E.
  - destruct (Blockchain.settled (Blockchain.validateChain bc)) as [x|e|];
      [split; discriminate | now destruct (N e) | split; reflexivity].
Qed.

(** X18.  The route for the stars of an address never answers 404: an
    answer is 200 with an array of stars that is not empty, or 500 with
    the text [Error in function getStarsByOwner.] when no block of the
    chain is owned by the address, or 500 with the text
    [Block not found. Check address.] when the parameter is missing or
    empty (the ledger is then untouched); without an answer the
    parameter was given. *)
Theorem getStarsByOwner_never_404 (address : option string)
    (bc : Blockchain.t) :
  match BlockchainController.getStarsByOwner address bc with
  | Some handled =>
      match BlockchainController.response handled with
      | Some r =>
          (BlockchainController.status r = 200
           /\ exists stars,
                BlockchainController.sent r
                = BlockchainController.SentJson (Json.Array stars)
                /\ stars <> [])
          \/ (r = BlockchainController.mkResponse 500
                    (BlockchainController.SentText
                       "Error in function getStarsByOwner.")
              /\ exists a,
                   address = Some a
                   /\ Blockchain.filterOwner a (Blockchain.chain bc) = Some [])
          \/ (r = BlockchainController.mkResponse 500
                    (BlockchainController.SentText
                       "Block not found. Check address.")
              /\ BlockchainController.given address = false
              /\ BlockchainController.ledger handled = bc)
      | None => exists a, address = Some a /\ a <> ""
      end
  | None => exists a, address = Some a /\ a <> ""
  end.
Proof.
  unfold BlockchainController.getStarsByOwner.
  destruct address as [a|]; [| right; right; now repeat split].
  destruct a as [|c a]; [right; right; now repeat split |].
  cbn [Js.truthy]. set (owner := String c a).
  assert (Na : exists x, Some owner = Some x /\ x <> "")
    by (exists owner; split; [reflexivity | discriminate]).
  unfold Blockchain.getStarsByWalletAddress.
  destruct (Blockchain.filterOwner owner (Blockchain.chain bc)) as [owned|] eqn:F;
    [| exact Na].
  destruct (Blockchain.decodeBodies owned) as [decoded| |] eqn:D;
    [| | exact Na];
    cbn [BlockchainController.response Blockchain.answer].
  - apply decodeBodies_length in D.
    destruct owned as [|b owned]; cbn [List.length Nat.eqb].
    + right. left. split; [reflexivity |]. now exists owner.
    + left. split; [reflexivity |]. exists decoded.
      split; [reflexivity |]. destruct decoded; [discriminate D | discriminate].
  - destruct owned as [|b owned]; cbn [List.length Nat.eqb]; [| exact Na].
    right. left. split; [reflexivity |]. now exists owner.
Qed.

(** X19.  The route for the stars of an address on a registry: for an
    address that is not the empty text the answer is 200 with the array
    of the stars of its submissions in order, or 500 with the text
    [Error in function getStarsByOwner.] when it has none; the ledger
    is unchanged and the success line of the chain validation is
    logged. *)
Theorem getStarsByOwner_registry (s : Blockchain.t)
    (history : list (string * Json.Value)) (address : string) :
  registered s history ->
  address <> "" ->
  BlockchainController.getStarsByOwner (Some address) s
  = Some {| BlockchainController.ledger := s;
            BlockchainController.events :=
              [ConsoleLog "SUCCESS:  No errors detected."];
            BlockchainController.response :=
              Some match starsOf address history with
                   | [] =>
                       BlockchainController.mkResponse 500
                         (BlockchainController.SentText
                            "Error in function getStarsByOwner.")
                   | _ :: _ =>
                       BlockchainController.mkResponse 200
                         (BlockchainController.SentJson
                            (Json.Array (starsOf address history)))
                   end |}.
Proof.
  intros R N. unfold BlockchainController.getStarsByOwner.
  destruct address; [contradiction |]. cbn [Js.truthy].
  rewrite (getStars_registered _ _ _ R).
  cbn [Blockchain.ledger Blockchain.logged Blockchain.answer].
  destruct (starsOf _ history); reflexivity.
Qed.

Lemma getStarsByOwner_registry_witness :
  BlockchainController.getStarsByOwner (Some "nobody") Sample.ledger2
  = Some {| BlockchainController.ledger := Sample.ledger2;
            BlockchainController.events :=
              [ConsoleLog "SUCCESS:  No errors detected."];
            BlockchainController.response :=
              Some match
                     starsOf "nobody"
                       [("1A2b", Sample.star1); ("1A2b", Sample.star2)]
                   with
                   | [] =>
                       BlockchainController.mkResponse 500
                         (BlockchainController.SentText
                            "Error in function getStarsByOwner.")
                   | _ :: _ =>
                       BlockchainController.mkResponse 200
                         (BlockchainController.SentJson
                            (Json.Array
                               (starsOf "nobody"
                                  [("1A2b", Sample.star1);
                                   ("1A2b", Sample.star2)])))
                   end |}.
Proof.
  apply (getStarsByOwner_registry Sample.ledger2
           [("1A2b", Sample.star1); ("1A2b", Sample.star2)] "nobody").
  - apply ledger2_registered.
  - discriminate.
Defined.

(** X20.  An answer 200 of the route for submitting a star means that
    the four fields of the body were given, that the verifier accepted
    the signature of the message for the address, and that the block
    sent back, owned by the address and holding the encoded star at the
    height of the former length, is the new last entry of the chain. *)
Theorem submitStar_route_success
    (verify : string -> string -> string -> Blockchain.Verdict)
    (now stamp : Z) (body : BlockchainController.StarRequest)
    (bc : Blockchain.t) (r : BlockchainController.Response) :
  BlockchainController.response
    (BlockchainController.submitStar verify now stamp body bc)
  = Some r ->
  BlockchainController.status r = 200 ->
  exists address message signature star sealed,
    body = BlockchainController.mkStarRequest (Some address) (Some message)
             (Some signature) (Some star)
    /\ verify message address signature = Blockchain.Returns true
    /\ r = BlockchainController.mkResponse 200
             (BlockchainController.SentJson (Block.toJson sealed))
    /\ Blockchain.chain
         (BlockchainController.ledger
            (BlockchainController.submitStar verify now stamp body bc))
       = (Blockchain.chain bc ++ [Some sealed])%list
    /\ Block.owner sealed = Some address
    /\ Block.body sealed = Block.encode (Json.Object [("star", star)])
    /\ Block.height sealed = Z.of_nat (List.length (Blockchain.chain bc)).
Proof.
  unfold BlockchainController.submitStar.
  destruct body as [[address|] [message|] [signature|] [star|]];
    cbn [BlockchainController.address BlockchainController.message
         BlockchainController.signature BlockchainController.star
         BlockchainController.response];
    try (intros H; injection H as <-; discriminate).
  destruct (_ && _);
    cbn [BlockchainController.response BlockchainController.ledger];
    [| intros H; injection H as <-; discriminate].
  unfold Blockchain.submitStar.
  destruct (verify message address signature) as [valid|] eqn:V;
    cbn [Blockchain.settled Blockchain.after].
  2:{ destruct (Js.geb _ _); [| discriminate].
      intros H; injection H as <-; discriminate. }
  destruct (Js.geb _ _); [intros H; injection H as <-; discriminate |].
  destruct valid; cbn [negb]; [| intros H; injection H as <-; discriminate].
  fold (starData star). fold (starCandidate address star).
  destruct (Blockchain.settled
              (Blockchain._addBlock stamp (starCandidate address star) bc))
    as [[sealed|]|e|] eqn:A; try (intros H; injection H as <-; discriminate);
    [| discriminate].
  intros H _. injection H as <-.
  destruct (addBlock_keeps_body _ _ _ _ A) as [B O].
  destruct (addBlock_sealed _ _ _ _ A) as (Hh & _ & _ & C).
  exists address, message, signature, star, sealed.
  conjuncts; try reflexivity; assumption.
Qed.

Lemma submitStar_route_success_witness :
  exists address message signature star sealed,
    BlockchainController.mkStarRequest (Some "1A2b") (Some Sample.challenge)
      (Some "sig") (Some Sample.star1)
    = BlockchainController.mkStarRequest (Some address) (Some message)
        (Some signature) (Some star)
    /\ Sample.acceptAll message address signature = Blockchain.Returns true
    /\ BlockchainController.mkResponse 200
         (BlockchainController.SentJson
            (Block.toJson (Sample.entry 1 Sample.ledger1)))
       = BlockchainController.mkResponse 200
           (BlockchainController.SentJson (Block.toJson sealed))
    /\ Blockchain.chain
         (BlockchainController.ledger
            (BlockchainController.submitStar Sample.acceptAll 1600000200123
               1600000200456
               (BlockchainController.mkStarRequest (Some "1A2b")
                  (Some Sample.challenge) (Some "sig") (Some Sample.star1))
               Sample.ledger0))
       = (Blockchain.chain Sample.ledger0 ++ [Some sealed])%list
    /\ Block.owner sealed = Some address
    /\ Block.body sealed = Block.encode (Json.Object [("star", star)])
    /\ Block.height sealed
       = Z.of_nat (List.length (Blockchain.chain Sample.ledger0)).
Proof.
  apply (submitStar_route_success Sample.acceptAll 1600000200123 1600000200456
           (BlockchainController.mkStarRequest (Some "1A2b")
              (Some Sample.challenge) (Some "sig") (Some Sample.star1))
           Sample.ledger0
           (BlockchainController.mkResponse 200
              (BlockchainController.SentJson
                 (Block.toJson (Sample.entry 1 Sample.ledger1))))).
  - vm_compute. reflexivity.
  - reflexivity.
Defined.


(** X22.  The route for a block height on a ledger reached by
    successful appends: for a parameter that is not the empty text the
    answer is 200 with the entry at the index that [parseInt] reads
    from the parameter, and 404 with the text [Block not found!] when
    the parameter is no number or the index is out of range. *)
Theorem getBlockByHeight_route (s : Blockchain.t) (height : string) :
  reachable s ->
  height <> "" ->
  BlockchainController.getBlockByHeight (Some height) s
  = Some match Js.parseInt (Some height) with
         | Some h =>
             match Blockchain.blockAt (Blockchain.chain s) h with
             | Some block =>
                 BlockchainController.mkResponse 200
                   (BlockchainController.SentJson (Block.toJson block))
             | None =>
                 BlockchainController.mkResponse 404
                   (BlockchainController.SentText "Block not found!")
             end
         | None =>
             BlockchainController.mkResponse 404
               (BlockchainController.SentText "Block not found!")
         end.
Proof.
  intros R N. unfold BlockchainController.getBlockByHeight.
  destruct height; [contradiction |]. cbn [BlockchainController.given Js.truthy].
  destruct (Js.parseInt _) as [h|].
  - unfold Blockchain.getBlockByHeight. rewrite (filterHeight_index s h R).
    destruct (Blockchain.blockAt (Blockchain.chain s) h); reflexivity.
  - unfold BlockchainController.noBlock. now rewrite (filterHeight_index s 0 R).
Qed.

Lemma getBlockByHeight_route_witness :
  BlockchainController.getBlockByHeight (Some "1st") Sample.ledger2
  = Some match Js.parseInt (Some "1st") with
         | Some h =>
             match Blockchain.blockAt (Blockchain.chain Sample.ledger2) h with
             | Some block =>
                 BlockchainController.mkResponse 200
                   (BlockchainController.SentJson (Block.toJson block))
             | None =>
                 BlockchainController.mkResponse 404
                   (BlockchainController.SentText "Block not found!")
             end
         | None =>
             BlockchainController.mkResponse 404
               (BlockchainController.SentText "Block not found!")
         end.
Proof.
  apply (getBlockByHeight_route Sample.ledger2 "1st").
  - apply ledger2_reachable.
  - discriminate.
Defined.

(** X23.  The route for a block hash on a ledger reached by successful
    appends: for a parameter that is not the empty text the answer is
    200 with the block [getBlockByHash] resolves with, a block of the
    chain with that stored hash, and 404 with the text
    [Block not found.] exactly when no block of the chain has that
    stored hash. *)
Theorem getBlockByHash_route (s : Blockchain.t) (hash : string) :
  reachable s ->
  hash <> "" ->
  exists answer,
    Blockchain.getBlockByHash hash s = Resolved answer
    /\ BlockchainController.getBlockByHash (Some hash) s
       = Some match answer with
              | Some block =>
                  BlockchainController.mkResponse 200
                    (BlockchainController.SentJson (Block.toJson block))
              | None =>
                  BlockchainController.mkResponse 404
                    (BlockchainController.SentText "Block not found.")
              end
    /\ (answer = None
        <-> forall i b, nth_error (Blockchain.chain s) i = Some (Some b) ->
                        Block.hash b <> Some hash)
    /\ (forall block, answer = Some block ->
                      Block.hash block = Some hash
                      /\ In (Some block) (Blockchain.chain s)).
Proof.
  intros R N. destruct (reachable_intact s R) as [I _].
  destruct (filterHash_first hash _ (intact_allBlocks _ I))
    as (found & F & Hnone & Hsome).
  exists (hd_error found).
  unfold BlockchainController.getBlockByHash, Blockchain.getBlockByHash.
  destruct hash; [contradiction |]. cbn [Js.truthy]. rewrite F.
  cbn [BlockchainController.found].
  destruct found as [|b rest]; cbn [hd_error].
  - conjuncts; try reflexivity.
    + split; [intros _; now apply Hnone | reflexivity].
    + discriminate.
  - destruct (Hsome b rest eq_refl) as (i & E & H & _).
    conjuncts; try reflexivity.
    + split; [discriminate |]. intros A. now destruct (A i b E).
    + intros block Q. injection Q as <-. split; [exact H |].
      now apply (nth_error_In _ i).
Qed.

Lemma getBlockByHash_route_witness :
  exists answer,
    Blockchain.getBlockByHash "00" Sample.ledger2 = Resolved answer
    /\ BlockchainController.getBlockByHash (Some "00") Sample.ledger2
       = Some match answer with
              | Some block =>
                  BlockchainController.mkResponse 200
                    (BlockchainController.SentJson (Block.toJson block))
              | None =>
                  BlockchainController.mkResponse 404
                    (BlockchainController.SentText "Block not found.")
              end
    /\ (answer = None
        <-> forall i b,
              nth_error (Blockchain.chain Sample.ledger2) i = Some (Some b) ->
              Block.hash b <> Some "00")
    /\ (forall block, answer = Some block ->
                      Block.hash block = Some "00"
                      /\ In (Some block) (Blockchain.chain Sample.ledger2)).
Proof.
  apply (getBlockByHash_route Sample.ledger2 "00").
  - apply ledger2_reachable.
  - discriminate.
Defined.

(** X24.  The two routes of a registration together: the message that
    the route for the ownership request answered at clock reading
    [issued], sent back with a signature the verifier accepts and a
    star, makes the route for submitting append a block owned by the
    address; the answer is 200 with that block when the whole seconds
    of the two clock readings differ by less than 300, and 500 with the
    time-out error otherwise (the block is appended all the same). *)
Theorem challenge_then_submission
    (verify : string -> string -> string -> Blockchain.Verdict)
    (issued now stamp : Z) (address message signature : string)
    (star : Json.Value) (s : Blockchain.t) :
  Bytes.every notColon address = true ->
  1000 <= issued -> 1000 <= now -> 1000 <= stamp ->
  BlockchainController.requestOwnership issued (Some address)
  = Some (BlockchainController.mkResponse 200
            (BlockchainController.SentJson (Json.Str message))) ->
  signature <> "" ->
  BlockchainController.truthy (Some star) = true ->
  verify message address signature = Blockchain.Returns true ->
  let handled :=
    BlockchainController.submitStar verify now stamp
      (BlockchainController.mkStarRequest (Some address) (Some message)
         (Some signature) (Some star)) s in
  exists sealed,
    Blockchain.chain (BlockchainController.ledger handled)
    = (Blockchain.chain s ++ [Some sealed])%list
    /\ Block.owner sealed = Some address
    /\ BlockchainController.response handled
       = Some (if 300 <=? now / 1000 - issued / 1000
               then BlockchainController.mkResponse 500
                      (BlockchainController.SentError TimedOut)
               else BlockchainController.mkResponse 200
                      (BlockchainController.SentJson (Block.toJson sealed))).
Proof.
  intros A I N St Req Sig Star V handled.
  unfold BlockchainController.requestOwnership in Req.
  destruct address as [|c address]; [discriminate Req |].
  cbn [Js.truthy Blockchain.requestMessageOwnershipVerification] in Req.
  set (owner := String c address) in *.
  assert (M : message
              = owner ++ ":" ++ Js.slice_0_minus3 (Js.toString issued)
                  ++ ":starRegistry").
  { destruct (Js.truthy _) in Req; [| discriminate Req].
    now injection Req as <-. }
  clear Req.
  assert (T : Js.geb
                (Js.sub
                   (Js.parseInt (Some (Js.slice_0_minus3 (Js.toString now))))
                   (Js.parseInt (Js.index (Js.split ":" message) 1)))
                (5 * 60)
              = (300 <=? now / 1000 - issued / 1000)).
  { rewrite M, (message_fields issued owner A I).
    unfold Js.index. cbn [nth_error].
    now rewrite !parseInt_seconds by assumption. }
  destruct (addBlock_appends stamp (starCandidate owner star) s St)
    as (sealed & Ap & E & _).
  destruct (addBlock_keeps_body _ _ _ _ Ap) as [_ O].
  exists sealed.
  unfold handled, BlockchainController.submitStar.
  cbn [BlockchainController.address BlockchainController.message
       BlockchainController.signature BlockchainController.star].
  assert (G : Js.truthy owner && Js.truthy message && Js.truthy signature
              && BlockchainController.truthy (Some star) = true).
  { rewrite Star, M. destruct signature; [contradiction | reflexivity]. }
  rewrite G.
  cbn [BlockchainController.ledger BlockchainController.response].
  unfold Blockchain.submitStar. rewrite V, T.
  cbn [Blockchain.after Blockchain.settled negb].
  fold (starData star). fold (starCandidate owner star).
  rewrite E. cbn [Blockchain.chain]. conjuncts; [reflexivity | exact O |].
  destruct (300 <=? now / 1000 - issued / 1000); [reflexivity |].
  unfold appended in Ap. now rewrite Ap.
Qed.

Lemma challenge_then_submission_witness :
  exists sealed,
    Blockchain.chain
      (BlockchainController.ledger
         (BlockchainController.submitStar Sample.acceptAll 1600000200123
            1600000200456
            (BlockchainController.mkStarRequest (Some "1A2b")
               (Some Sample.challenge) (Some "sig") (Some Sample.star1))
            Sample.ledger0))
    = (Blockchain.chain Sample.ledger0 ++ [Some sealed])%list
    /\ Block.owner sealed = Some "1A2b"
    /\ BlockchainController.response
         (BlockchainController.submitStar Sample.acceptAll 1600000200123
            1600000200456
            (BlockchainController.mkStarRequest (Some "1A2b")
               (Some Sample.challenge) (Some "sig") (Some Sample.star1))
            Sample.ledger0)
       = Some (if 300 <=? 1600000200123 / 1000 - 1600000000123 / 1000
               then BlockchainController.mkResponse 500
                      (BlockchainController.SentError TimedOut)
               else BlockchainController.mkResponse 200
                      (BlockchainController.SentJson (Block.toJson sealed))).
Proof.
  apply (challenge_then_submission Sample.acceptAll 1600000000123 1600000200123
           1600000200456 "1A2b" Sample.challenge "sig" Sample.star1
           Sample.ledger0).
  - reflexivity.
  - lia.
  - lia.
  - lia.
  - reflexivity.
  - discriminate.
  - reflexivity.
  - reflexivity.
Defined.

(** X25.  On a ledger reached by successful appends, [getChainHeight]
    resolves with a height that is not negative, [getBlockByHeight] at
    that height resolves with the last entry of the chain, and at the
    next height with [null]. *)
Theorem getChainHeight_is_last_height (s : Blockchain.t) :
  reachable s ->
  exists h last,
    Blockchain.getChainHeight s = Resolved h
    /\ 0 <= h
    /\ nth_error (Blockchain.chain s) (List.length (Blockchain.chain s) - 1)
       = Some (Some last)
    /\ Blockchain.getBlockByHeight h s = Resolved (Some last)
    /\ Blockchain.getBlockByHeight (h + 1) s = Resolved None.
Proof.
  intros R. destruct (reachable_intact s R) as [I H].
  pose proof (reachable_nonempty s R) as Ne.
  destruct (I (List.length (Blockchain.chain s) - 1)%nat ltac:(lia))
    as (last & E & _).
  exists (Blockchain.height s), last.
  unfold Blockchain.getChainHeight, Blockchain.getBlockByHeight.
  rewrite !(filterHeight_index s _ R). unfold Blockchain.blockAt.
  replace (Z.to_nat (Blockchain.height s))
    with (List.length (Blockchain.chain s) - 1)%nat by lia.
  replace (Z.to_nat (Blockchain.height s + 1))
    with (List.length (Blockchain.chain s)) by lia.
  rewrite E.
  destruct (Z.ltb_spec (Blockchain.height s) 0); [lia |].
  destruct (Z.ltb_spec (Blockchain.height s + 1) 0); [lia |].
  rewrite (proj2 (nth_error_None _ _) (Nat.le_refl _)).
  conjuncts; try reflexivity. lia.
Qed.

Lemma getChainHeight_is_last_height_witness :
  exists h last,
    Blockchain.getChainHeight Sample.ledger2 = Resolved h
    /\ 0 <= h
    /\ nth_error (Blockchain.chain Sample.ledger2)
         (List.length (Blockchain.chain Sample.ledger2) - 1)
       = Some (Some last)
    /\ Blockchain.getBlockByHeight h Sample.ledger2 = Resolved (Some last)
    /\ Blockchain.getBlockByHeight (h + 1) Sample.ledger2 = Resolved None.
Proof.
  apply (getChainHeight_is_last_height Sample.ledger2).
  apply ledger2_reachable.
Defined.
